(** * sillybot: request queues, reply streaming and image sidecar

    A shallow embedding of the Go sources

    - [cmd/discord-bot/discord_bot.go]: the two request queues, their worker
      routines, the reply streaming loop of [handlePrompt], [splitResponse]
      and [handleImage];
    - [imagegen/image_gen.go] and [image_gen.go]: start-up, readiness polling
      and shutdown of the image generation server.

    Go strings are byte sequences and every index the code computes is a byte
    index, so a string is a [list ascii] and an [int] index is a [Z] (the
    code only produces indices between -1 and the length of a string, far
    from the limits of a 64-bit [int]).  A Go panic is an explicit outcome.
    Calls that leave the process (Discord, the LLM, the sidecar, the clock
    and the Go scheduler's choices) are answered by explicit oracles and
    leave an explicit trace. *)

From Stdlib Require Import List String Ascii ZArith Lia Bool.
From Stdlib Require Import Sorted.
Import ListNotations.

Local Open Scope Z_scope.

(** ** Go values *)

Definition bytes := list ascii.

(** A Go string literal. *)
Definition str (s : string) : bytes := list_ascii_of_string s.

(** [len(s)]. *)
Definition len (s : bytes) : Z := Z.of_nat (List.length s).

(** The result of running Go code that may panic. *)
Inductive outcome (A : Type) : Type :=
| Returns (a : A)
| Panics.
Arguments Returns {A} a.
Arguments Panics {A}.

Definition bind {A B : Type} (m : outcome A) (k : A -> outcome B) : outcome B :=
  match m with
  | Returns a => k a
  | Panics => Panics
  end.

Notation "x <- m ;; k" := (bind m (fun x => k))
  (at level 61, m at next level, right associativity).

(** [s[:i]]: a slice bound outside [0, len(s)] is a run-time panic. *)
Definition slice_to (s : bytes) (i : Z) : outcome bytes :=
  if (0 <=? i) && (i <=? len s) then Returns (firstn (Z.to_nat i) s) else Panics.

(** [s[i:]]. *)
Definition slice_from (s : bytes) (i : Z) : outcome bytes :=
  if (0 <=? i) && (i <=? len s) then Returns (skipn (Z.to_nat i) s) else Panics.

(** ** Package [strings] *)

Module strings.

(** [strings.HasPrefix(s, prefix)]. *)
Fixpoint HasPrefix (s prefix : bytes) {struct prefix} : bool :=
  match prefix, s with
  | [], _ => true
  | p :: ps, c :: cs => Ascii.eqb c p && HasPrefix cs ps
  | _ :: _, [] => false
  end.

(** [strings.Index(s, substr)]: the index of the first instance of [substr]
    in [s], or -1. *)
Fixpoint Index (s substr : bytes) : Z :=
  match s with
  | [] => if HasPrefix [] substr then 0 else -1
  | _ :: cs =>
      if HasPrefix s substr then 0
      else let i := Index cs substr in
           if i <? 0 then -1 else i + 1
  end.

(** The loop of [strings.Count(s, substr)] for a non-empty [substr]:
    find the next instance, count it, continue after it.  Each round
    shortens [s], so [len(s) + 1] rounds are enough. *)
Fixpoint Count_loop (rounds : nat) (s substr : bytes) : Z :=
  match rounds with
  | O => 0
  | S k =>
      let i := Index s substr in
      if i <? 0 then 0
      else 1 + Count_loop k (skipn (Z.to_nat (i + len substr)) s) substr
  end.

(** [strings.Count(s, substr)], the number of non-overlapping instances of
    a non-empty [substr]. *)
Definition Count (s substr : bytes) : Z :=
  Count_loop (S (List.length s)) s substr.

(** [strings.LastIndexByte(s, c)]. *)
Fixpoint LastIndexByte (s : bytes) (c : ascii) : Z :=
  match s with
  | [] => -1
  | x :: xs =>
      let r := LastIndexByte xs c in
      if 0 <=? r then r + 1
      else if Ascii.eqb x c then 0 else -1
  end.

(** Membership of a byte in a set of ASCII characters. *)
Definition byte_in (chars : bytes) (x : ascii) : bool :=
  existsb (Ascii.eqb x) chars.

(** [strings.LastIndexAny(s, chars)] for ASCII [chars]: the last index of a
    byte of [s] that is in [chars], or -1. *)
Fixpoint LastIndexAny (s chars : bytes) : Z :=
  match s with
  | [] => -1
  | x :: xs =>
      let r := LastIndexAny xs chars in
      if 0 <=? r then r + 1
      else if byte_in chars x then 0 else -1
  end.

(** [strings.Trim(s, cutset)] for an ASCII [cutset]. *)
Fixpoint TrimLeft (s cutset : bytes) : bytes :=
  match s with
  | x :: xs => if byte_in cutset x then TrimLeft xs cutset else s
  | [] => []
  end.

Definition TrimRight (s cutset : bytes) : bytes :=
  rev (TrimLeft (rev s) cutset).

Definition Trim (s cutset : bytes) : bytes :=
  TrimRight (TrimLeft s cutset) cutset.

(** [strings.Contains(s, substr)]. *)
Definition Contains (s substr : bytes) : bool := 0 <=? Index s substr.

(** [strings.HasSuffix(s, suffix)]. *)
Definition HasSuffix (s suffix : bytes) : bool :=
  HasPrefix (rev s) (rev suffix).

(** The loop of [strings.Split(s, sep)] for a non-empty [sep]: cut at the
    next instance of [sep], continue after it; the rest of [s] is the last
    piece.  Each round shortens [s]. *)
Fixpoint Split_loop (rounds : nat) (s sep : bytes) : list bytes :=
  match rounds with
  | O => [s]
  | S k =>
      let m := Index s sep in
      if m <? 0 then [s]
      else firstn (Z.to_nat m) s
           :: Split_loop k (skipn (Z.to_nat (m + len sep)) s) sep
  end.

(** [strings.Split(s, sep)] and [strings.SplitN(s, sep, 2)]. *)
Definition Split (s sep : bytes) : list bytes :=
  Split_loop (S (List.length s)) s sep.

Definition SplitN2 (s sep : bytes) : list bytes :=
  Split_loop 1 s sep.

(** [strings.ReplaceAll(s, old, new)] for a non-empty [old]: the pieces
    between the instances of [old], with [new] in their place. *)
Fixpoint join (pieces : list bytes) (sep : bytes) : bytes :=
  match pieces with
  | [] => []
  | [p] => p
  | p :: rest => p ++ sep ++ join rest sep
  end.

Definition ReplaceAll (s old new : bytes) : bytes :=
  join (Split s old) new.

End strings.

(** ** Package [regexp]

    [splitResponse] hands a run-time string to [regexp.MatchString] as its
    pattern, so what the function does depends on which strings Go's regular
    expression parser accepts.  The library is not part of this repository:
    the functions below take the matcher as an argument
    [MatchString pattern s], which answers [Some b] for Go's [(b, nil)] and
    [None] for a compile error.

    [GoRegexp] is an executable model of the library on a fragment of its
    syntax (package [regexp/syntax] with the [Perl] flags that
    [regexp.Compile] uses), enough to run the function on plain text:
    literals, [.], [^], [$], the escapes [\d \D \s \S \w \W] and escaped
    punctuation, groups, alternation and the operators [* + ?] with their
    lazy forms.  Patterns that use anything else (classes in brackets,
    counted repetition, [(?...)] groups, other escapes, bytes above 127,
    more than 500 bytes) are reported as outside the fragment. *)

Module GoRegexp.

Inductive Regexp : Type :=
| OpNoMatch
| OpEmptyMatch
| OpLiteral (c : ascii)
| OpAnyCharNotNL
| OpPerlClass (cls : ascii) (* one of d D s S w W *)
| OpBeginText
| OpEndText
| OpConcat (a b : Regexp)
| OpAlternate (a b : Regexp)
| OpStar (a : Regexp).

Inductive compiled (A : Type) : Type :=
| Parsed (a : A)
| SyntaxError       (* [regexp.Compile] returns an error *)
| OutsideFragment.  (* not covered by this model *)
Arguments Parsed {A} a.
Arguments SyntaxError {A}.
Arguments OutsideFragment {A}.

Definition andThen {A B : Type} (m : compiled A) (k : A -> compiled B) : compiled B :=
  match m with
  | Parsed a => k a
  | SyntaxError => SyntaxError
  | OutsideFragment => OutsideFragment
  end.

Definition is_digit (c : ascii) : bool :=
  let n := nat_of_ascii c in (48 <=? n)%nat && (n <=? 57)%nat.

Definition is_alpha (c : ascii) : bool :=
  let n := nat_of_ascii c in
  ((65 <=? n)%nat && (n <=? 90)%nat) || ((97 <=? n)%nat && (n <=? 122)%nat).

Definition is_space (c : ascii) : bool :=
  let n := nat_of_ascii c in
  (n =? 9)%nat || (n =? 10)%nat || (n =? 12)%nat || (n =? 13)%nat || (n =? 32)%nat.

Definition is_word (c : ascii) : bool :=
  is_digit c || is_alpha c || Ascii.eqb c "_".

Definition is_ascii (c : ascii) : bool := (nat_of_ascii c <? 128)%nat.

Definition is_repeat_op (c : ascii) : bool :=
  Ascii.eqb c "*" || Ascii.eqb c "+" || Ascii.eqb c "?".

(** The operator after an operand: [*], [+] or [?], then an optional [?]
    that makes it lazy (which does not change whether there is a match);
    a further operator right after it is Go's "invalid nested repetition
    operator". *)
Definition parse_repeat (a : Regexp) (t : bytes) : compiled (Regexp * bytes) :=
  match t with
  | op :: t1 =>
      if is_repeat_op op then
        let r := if Ascii.eqb op "*" then OpStar a
                 else if Ascii.eqb op "+" then OpConcat a (OpStar a)
                 else OpAlternate a OpEmptyMatch in
        let t2 := match t1 with
                  | q :: t' => if Ascii.eqb q "?" then t' else t1
                  | [] => t1
                  end in
        match t2 with
        | n :: _ => if is_repeat_op n then SyntaxError else Parsed (r, t2)
        | [] => Parsed (r, t2)
        end
      else Parsed (a, t)
  | [] => Parsed (a, t)
  end.

(** An escape sequence, after the backslash. *)
Definition parse_escape (t : bytes) : compiled (Regexp * bytes) :=
  match t with
  | [] => SyntaxError (* trailing backslash at end of expression *)
  | c :: t1 =>
      if negb (is_ascii c) then OutsideFragment
      else if Ascii.eqb c "d" || Ascii.eqb c "D" || Ascii.eqb c "s"
              || Ascii.eqb c "S" || Ascii.eqb c "w" || Ascii.eqb c "W"
      then Parsed (OpPerlClass c, t1)
      else if is_digit c || is_alpha c then OutsideFragment
      else Parsed (OpLiteral c, t1)
  end.

(** Recursive descent over the pattern; every call consumes one unit of
    [depth], and [3 * len + 3] units are enough for a pattern of [len]
    bytes. *)
Fixpoint parse_alternation (depth : nat) (t : bytes) : compiled (Regexp * bytes) :=
  match depth with
  | O => OutsideFragment
  | S d =>
      andThen (parse_concat d t) (fun '(r1, t1) =>
      match t1 with
      | c :: t2 =>
          if Ascii.eqb c "|" then
            andThen (parse_alternation d t2) (fun '(r2, t3) =>
            Parsed (OpAlternate r1 r2, t3))
          else Parsed (r1, t1)
      | [] => Parsed (r1, t1)
      end)
  end

with parse_concat (depth : nat) (t : bytes) : compiled (Regexp * bytes) :=
  match depth with
  | O => OutsideFragment
  | S d =>
      match t with
      | [] => Parsed (OpEmptyMatch, t)
      | c :: _ =>
          if Ascii.eqb c "|" || Ascii.eqb c ")" then Parsed (OpEmptyMatch, t)
          else if is_repeat_op c then SyntaxError (* missing argument *)
          else
            andThen (parse_operand d t) (fun '(a, t1) =>
            andThen (parse_repeat a t1) (fun '(a', t2) =>
            andThen (parse_concat d t2) (fun '(r, t3) =>
            Parsed (OpConcat a' r, t3))))
      end
  end

with parse_operand (depth : nat) (t : bytes) : compiled (Regexp * bytes) :=
  match depth with
  | O => OutsideFragment
  | S d =>
      match t with
      | [] => OutsideFragment
      | c :: t1 =>
          if negb (is_ascii c) then OutsideFragment
          else if Ascii.eqb c "(" then
            match t1 with
            | q :: _ =>
                if Ascii.eqb q "?" then OutsideFragment
                else
                  andThen (parse_alternation d t1) (fun '(r, t2) =>
                  match t2 with
                  | [] => SyntaxError (* missing closing parenthesis *)
                  | _ :: t3 => Parsed (r, t3)
                  end)
            | [] => SyntaxError (* missing closing parenthesis *)
            end
          else if Ascii.eqb c "[" || Ascii.eqb c "{" then OutsideFragment
          else if Ascii.eqb c "\" then parse_escape t1
          else if Ascii.eqb c "^" then Parsed (OpBeginText, t1)
          else if Ascii.eqb c "$" then Parsed (OpEndText, t1)
          else if Ascii.eqb c "." then Parsed (OpAnyCharNotNL, t1)
          else Parsed (OpLiteral c, t1)
      end
  end.

(** [regexp.Compile(pattern)] on the fragment. *)
Definition Compile (pattern : bytes) : compiled Regexp :=
  if (500 <? List.length pattern)%nat then OutsideFragment
  else
    andThen (parse_alternation (3 * List.length pattern + 3) pattern) (fun '(r, rest) =>
    match rest with
    | [] => Parsed r
    | _ :: _ => SyntaxError (* unexpected closing parenthesis *)
    end).

Definition class_has (cls c : ascii) : bool :=
  if Ascii.eqb cls "d" then is_digit c
  else if Ascii.eqb cls "D" then negb (is_digit c)
  else if Ascii.eqb cls "s" then is_space c
  else if Ascii.eqb cls "S" then negb (is_space c)
  else if Ascii.eqb cls "w" then is_word c
  else negb (is_word c).

(** Does [r] match the empty string at a position that is ([at_start]) or
    is not the beginning of the text and is or is not its end? *)
Fixpoint nullable (at_start at_end : bool) (r : Regexp) : bool :=
  match r with
  | OpNoMatch | OpLiteral _ | OpAnyCharNotNL | OpPerlClass _ => false
  | OpEmptyMatch | OpStar _ => true
  | OpBeginText => at_start
  | OpEndText => at_end
  | OpConcat a b => nullable at_start at_end a && nullable at_start at_end b
  | OpAlternate a b => nullable at_start at_end a || nullable at_start at_end b
  end.

(** What is left of [r] to match once the byte [c] has been read. *)
Fixpoint derivative (at_start : bool) (c : ascii) (r : Regexp) : Regexp :=
  match r with
  | OpNoMatch | OpEmptyMatch | OpBeginText | OpEndText => OpNoMatch
  | OpLiteral x => if Ascii.eqb x c then OpEmptyMatch else OpNoMatch
  | OpAnyCharNotNL => if (nat_of_ascii c =? 10)%nat then OpNoMatch else OpEmptyMatch
  | OpPerlClass cls => if class_has cls c then OpEmptyMatch else OpNoMatch
  | OpConcat a b =>
      let da := OpConcat (derivative at_start c a) b in
      if nullable at_start false a
      then OpAlternate da (derivative at_start c b)
      else da
  | OpAlternate a b => OpAlternate (derivative at_start c a) (derivative at_start c b)
  | OpStar a => OpConcat (derivative at_start c a) (OpStar a)
  end.

(** Does [r] match a prefix of [s]? *)
Fixpoint match_here (r : Regexp) (at_start : bool) (s : bytes) : bool :=
  match s with
  | [] => nullable at_start true r
  | c :: cs =>
      nullable at_start false r || match_here (derivative at_start c r) false cs
  end.

(** Does [r] match somewhere in [s] (an ASCII text)? *)
Fixpoint match_anywhere (r : Regexp) (at_start : bool) (s : bytes) : bool :=
  match_here r at_start s ||
  match s with
  | [] => false
  | _ :: cs => match_anywhere r false cs
  end.

(** A matcher agrees with the model when it answers as the model does on
    every pattern of the fragment and every ASCII text. *)
Definition Agrees (MatchString : bytes -> bytes -> option bool) : Prop :=
  forall pattern s,
    forallb is_ascii s = true ->
    match Compile pattern with
    | Parsed r => MatchString pattern s = Some (match_anywhere r true s)
    | SyntaxError => MatchString pattern s = None
    | OutsideFragment => True
    end.

(** The model as a matcher.  Outside the fragment it answers as for a
    pattern that does not compile, which is arbitrary there: it is used
    only on patterns of the fragment. *)
Definition MatchString (pattern s : bytes) : option bool :=
  match Compile pattern with
  | Parsed r => Some (match_anywhere r true s)
  | SyntaxError => None
  | OutsideFragment => None
  end.

End GoRegexp.

(** ** [splitResponse] (discord_bot.go, lines 587-639) *)

Definition LF : ascii := "010"%char.
Definition backquote : ascii := "`"%char.

(** The marker of a fenced code block. *)
Definition fence : bytes := str "```".

(** The second argument of the call to [regexp.MatchString]. *)
Definition enumExpr : bytes := str "^\d+\. .*".

(** Lines 597-638: the body after the test on the fence markers, on the
    value [t] has at that point. *)
Definition splitResponse_unfenced
    (MatchString : bytes -> bytes -> option bool) (t : bytes) : outcome Z :=
  match t with
  | [] => Returns 0
  | _ :: _ =>
      (* If there's a EOL, use it. *)
      let i := strings.LastIndexByte t LF in
      if 10 <=? i then Returns (i + 1)
      else
        let isEnum := strings.HasPrefix t (str "- ") || strings.HasPrefix t (str "* ") in
        isEnum <- (if negb isEnum
                   then match MatchString t enumExpr with
                        | Some b => Returns b
                        | None => Panics (* panic(err) *)
                        end
                   else Returns isEnum) ;;
        if isEnum : bool then Returns 0
        else if len t <? 10 then Returns 0
        else
          let start := 0 in
          let backquotes := strings.Count t [backquote] in
          t <- (if Z.land backquotes 1 =? 1
                then slice_to t (strings.LastIndexByte t backquote)
                else Returns t) ;;
          tail <- slice_from t start ;;
          let i := strings.LastIndexAny tail (str ".?!") in
          if i =? -1 then Returns 0
          else Returns (start + i + 1)
  end.

Definition splitResponse
    (MatchString : bytes -> bytes -> option bool) (t : bytes) : outcome Z :=
  let backquotes := strings.Count t fence in
  if backquotes =? 1 then
    let i := strings.Index t fence in
    t <- slice_to t i ;;
    splitResponse_unfenced MatchString t
  else if 2 <=? backquotes then
    (* Cut right after the second. *)
    let start := strings.Index t fence + 3 in
    tail <- slice_from t start ;;
    Returns (strings.Index tail fence + start + 3)
  else splitResponse_unfenced MatchString t.

(** Two values the proofs name.  The text up to the only fence marker, or
    all of it when there is none: the value of [t] after the fence test when
    the function goes on. *)
Definition beforeFence (t : bytes) : bytes :=
  if strings.Count t fence =? 1
  then firstn (Z.to_nat (strings.Index t fence)) t
  else t.

(** The text in which the last lines of the function look for the end of a
    sentence: [t], cut at its last backquote when their number is odd. *)
Definition sentenceWindow (t : bytes) : bytes :=
  if Z.land (strings.Count t [backquote]) 1 =? 1
  then firstn (Z.to_nat (strings.LastIndexByte t backquote)) t
  else t.

(** The chunk that the caller posts for a result [i], [pending[:i]], and
    what it keeps, [pending[i:]]. *)
Definition chunk (t : bytes) (i : Z) : bytes := firstn (Z.to_nat i) t.
Definition remainder (t : bytes) (i : Z) : bytes := skipn (Z.to_nat i) t.

(** Texts on which the function is run below. *)
Definition fencedBlockThenRest : bytes :=
  str "```python" ++ [LF] ++ str "code" ++ [LF] ++ str "```rest".

Definition spanAcrossLines : bytes :=
  str "Hello `code" ++ [LF] ++ str "more` text".

(** ** Errors

    A non-nil Go [error]; a possibly nil one is an [option]. *)

Inductive errval : Type :=
| errorString (msg : bytes)
| wrapError (prefix : bytes) (err : errval)
| wrapNil (prefix : bytes).

Definition error := option errval.

(** [fmt.Errorf(prefix + ": %w", err)]. *)
Definition Errorf (prefix : bytes) (err : error) : errval :=
  match err with
  | Some e => wrapError prefix e
  | None => wrapNil prefix
  end.

(** [err.Error()]. *)
Fixpoint errText (e : errval) : bytes :=
  match e with
  | errorString msg => msg
  | wrapError prefix inner => prefix ++ str ": " ++ errText inner
  | wrapNil prefix => prefix ++ str ": %!w(<nil>)"
  end.

(** ** Requests, conversations and the calls made to Discord *)

(** [msgReq], an incoming message pending to be processed. *)
Record msgReq : Type := {
  msg : bytes;
  authorID : bytes;
  channelID : bytes;
  guildID : bytes;
  replyToID : bytes
}.

(** [intReq], an interaction request to generate an image; [int] is the
    pointer to the interaction, [None] when nil. *)
Record intReq : Type := {
  description : bytes;
  imagePrompt : bytes;
  labelsContent : bytes;
  cmdName : bytes;
  int : option bytes
}.

Inductive Role : Type := System | User | Assistant.

(** [sillybot.Message]. *)
Record Message : Type := {
  role : Role;
  Content : bytes
}.

Record MessageReference : Type := {
  MessageID : bytes;
  ChannelID : bytes;
  GuildID : bytes
}.

(** A call to the Discord session [d.dg]. *)
Inductive DiscordCall : Type :=
| ChannelMessageSend (channel content : bytes)
| ChannelMessageSendComplex (channel content : bytes) (reference : MessageReference)
| ChannelTyping (channel : bytes)
| InteractionRespond (interaction : option bytes) (content : bytes)
| InteractionRespondDeferred (interaction : option bytes)
| InteractionResponseEdit (interaction : option bytes) (content : bytes) (file : option bytes).

Definition is_empty (s : bytes) : bool :=
  match s with [] => true | _ :: _ => false end.

(** ** The reply streaming loop of [handlePrompt] (lines 520-567) *)

(** What the [select] of the loop receives.  The order of the events is the
    order in which the Go scheduler delivers words and ticks; the end of the
    list is the closed [words] channel. *)
Inductive streamEvent : Type :=
| Word (w : bytes)
    (* case w, ok := <-words, with ok *)
| Tick (sent : option bytes).
    (* case <-t.C; [sent] is Discord's answer if a chunk is posted:
       the id of the new message, or [None] for an error *)

(** The variables of the goroutine, and the calls it has made so far. *)
Record streamState : Type := {
  replyTo : bytes;
  text : bytes;
  pending : bytes;
  posted : list DiscordCall
}.

Definition reference_of (req : msgReq) (replyToID : bytes) : MessageReference :=
  {| MessageID := replyToID; ChannelID := channelID req; GuildID := guildID req |}.

(** One tick (lines 546-564). *)
Definition onTick (MatchString : bytes -> bytes -> option bool) (req : msgReq)
    (sent : option bytes) (st : streamState) : outcome streamState :=
  i <- splitResponse MatchString (pending st) ;;
  if i =? 0 then Returns st
  else
    chunk <- slice_to (pending st) i ;;
    rest <- slice_from (pending st) i ;;
    Returns {| replyTo := match sent with
                          | Some id => id
                          | None => replyTo st
                          end;
               text := text st ++ chunk;
               pending := rest;
               posted := posted st ++
                 [ChannelMessageSendComplex (channelID req) chunk
                    (reference_of req (replyTo st));
                  ChannelTyping (channelID req)] |}.

(** The closed channel (lines 528-543), up to the update of the history. *)
Definition onClosed (req : msgReq) (st : streamState) : streamState :=
  if negb (is_empty (pending st)) then
    {| replyTo := replyTo st;
       text := text st ++ pending st;
       pending := pending st;
       posted := posted st ++
         [ChannelMessageSendComplex (channelID req) (pending st)
            (reference_of req (replyTo st))] |}
  else st.

Fixpoint streamLoop (MatchString : bytes -> bytes -> option bool) (req : msgReq)
    (events : list streamEvent) (st : streamState) : outcome streamState :=
  match events with
  | [] => Returns (onClosed req st)
  | Word w :: events' =>
      streamLoop MatchString req events'
        {| replyTo := replyTo st; text := text st;
           pending := pending st ++ w; posted := posted st |}
  | Tick sent :: events' =>
      match onTick MatchString req sent st with
      | Returns st' => streamLoop MatchString req events' st'
      | Panics => Panics
      end
  end.

(** The state in which the goroutine starts. *)
Definition streamStart (req : msgReq) : streamState :=
  {| replyTo := replyToID req; text := []; pending := []; posted := [] |}.

(** [handlePrompt]: [history] is [c.Messages] as [d.mem.Get] returns it,
    [events] and [failure] are what [d.l.PromptStreaming] produces (the words
    it sends, interleaved with the ticks of the timer, and its error).  A
    panic of the goroutine ends the process. *)
Definition handlePrompt (MatchString : bytes -> bytes -> option bool)
    (systemPrompt : bytes) (history : list Message) (req : msgReq)
    (events : list streamEvent) (failure : error)
  : outcome (list Message * list DiscordCall) :=
  let messages :=
    if (List.length history =? 0)%nat
    then [{| role := System; Content := systemPrompt |}]
    else history in
  let messages := messages ++ [{| role := User; Content := msg req |}] in
  st <- streamLoop MatchString req events (streamStart req) ;;
  (* Remember our own answer. *)
  let messages := messages ++ [{| role := Assistant; Content := text st |}] in
  match failure with
  | Some err =>
      Returns (messages,
               posted st ++
               [ChannelMessageSend (channelID req)
                  (str "Prompt generation failed: " ++ errText err)])
  | None => Returns (messages, posted st)
  end.

(** The text of the chunks posted as replies, in order, and the words that
    a list of events delivers. *)
Fixpoint emitted (calls : list DiscordCall) : bytes :=
  match calls with
  | [] => []
  | ChannelMessageSendComplex _ c _ :: calls' => c ++ emitted calls'
  | _ :: calls' => emitted calls'
  end.

Fixpoint tokens (events : list streamEvent) : bytes :=
  match events with
  | [] => []
  | Word w :: events' => w ++ tokens events'
  | Tick _ :: events' => tokens events'
  end.

(** A stream on which the loop is run below: the words "Sure" and " (", a
    tick, and the rest of the answer. *)
Definition unclosedGroupStream : list streamEvent :=
  [Word (str "Sure"); Word (str " ("); Tick None; Word (str "why not)")].

(** ** The request queues (lines 43-44, 86-87) and admission *)

(** A buffered Go channel: the values it holds, oldest first, and its
    capacity. *)
Record channel (A : Type) : Type := {
  buffer : list A;
  capacity : nat
}.
Arguments buffer {A} c.
Arguments capacity {A} c.

(** [make(chan A, n)]. *)
Definition make (A : Type) (n : nat) : channel A :=
  {| buffer := []; capacity := n |}.

(** The send case of a [select] that has a [default]: the send goes through
    when the buffer has room, and is not made otherwise. *)
Definition trySend {A : Type} (c : channel A) (x : A) : option (channel A) :=
  if (List.length (buffer c) <? capacity c)%nat
  then Some {| buffer := buffer c ++ [x]; capacity := capacity c |}
  else None.

(** A receive, when the channel holds a value. *)
Definition receive {A : Type} (c : channel A) : option (A * channel A) :=
  match buffer c with
  | x :: xs => Some (x, {| buffer := xs; capacity := capacity c |})
  | [] => None
  end.

(** The two queues of [discordBot]. *)
Record discordBot : Type := {
  chat : channel msgReq;
  image : channel intReq
}.

(** The queues as [newDiscordBot] makes them. *)
Definition newDiscordBot : discordBot :=
  {| chat := make msgReq 5; image := make intReq 3 |}.

Definition chatOverload : bytes :=
  str "Sorry! I have too many pending chat requests. Please retry in a moment.".

Definition imageOverload : bytes :=
  str "Sorry! I have too many pending image requests. Please retry in a moment.".

(** [onMessageCreate] from the point where [req] is built (lines 310-327):
    the new state of the queues and the calls made to Discord. *)
Definition onMessageCreate (d : discordBot) (req : msgReq)
  : discordBot * list DiscordCall :=
  match trySend (chat d) req with
  | Some c => ({| chat := c; image := image d |}, [])
  | None =>
      (d, [ChannelMessageSendComplex (channelID req) chatOverload
             (reference_of req (replyToID req))])
  end.

(** [onImage] from the point where [req] is built (lines 460-478). *)
Definition onImage (d : discordBot) (req : intReq)
  : discordBot * list DiscordCall :=
  match trySend (image d) req with
  | Some c => ({| chat := chat d; image := c |}, [InteractionRespondDeferred (int req)])
  | None => (d, [InteractionRespond (int req) imageOverload])
  end.

(** What can happen to the queues while the bot runs: a message or a command
    arrives, or a worker takes the oldest request. *)
Inductive botStep : discordBot -> discordBot -> Prop :=
| StepMessage d req : botStep d (fst (onMessageCreate d req))
| StepCommand d req : botStep d (fst (onImage d req))
| StepChatTaken d req c :
    receive (chat d) = Some (req, c) ->
    botStep d {| chat := c; image := image d |}
| StepImageTaken d req c :
    receive (image d) = Some (req, c) ->
    botStep d {| chat := chat d; image := c |}.

Inductive reachable : discordBot -> Prop :=
| ReachNew : reachable newDiscordBot
| ReachStep d d' : reachable d -> botStep d d' -> reachable d'.

(** A request, and the queues after [n] messages in a row that no worker
    has taken. *)
Definition someMsgReq : msgReq :=
  {| msg := str "hi"; authorID := str "42"; channelID := str "7";
     guildID := []; replyToID := str "1001" |}.

Fixpoint flood (n : nat) (d : discordBot) : discordBot :=
  match n with
  | O => d
  | S k => flood k (fst (onMessageCreate d someMsgReq))
  end.

(** ** The worker routines (lines 489-508) *)

(** How far a routine got on the requests its channel delivers. *)
Inductive routineEnd : Type :=
| Exited    (* d.wg.Done() and return *)
| Waiting   (* blocked on the channel, which nothing closes *)
| Crashed.  (* a handler panicked, which ends the process *)

(** What a routine leaves behind: the requests still in its channel, the
    number of calls of [d.wg.Done()], and the state of the rest of the
    program, which only the handler changes. *)
Record routineRun (A W : Type) : Type := {
  ending : routineEnd;
  undelivered : list A;
  wgDone : nat;
  world : W
}.
Arguments ending {A W} r.
Arguments undelivered {A W} r.
Arguments wgDone {A W} r.
Arguments world {A W} r.

(** [chatRoutine] on the requests that [d.chat] delivers, in order;
    [handlePrompt] is the effect of [d.handlePrompt] on the rest of the
    program. *)
Fixpoint chatRoutine {W : Type} (handlePrompt : msgReq -> W -> outcome W)
    (requests : list msgReq) (w : W) : routineRun msgReq W :=
  match requests with
  | [] => {| ending := Waiting; undelivered := []; wgDone := 0; world := w |}
  | req :: requests' =>
      if is_empty (authorID req) then
        {| ending := Exited; undelivered := requests'; wgDone := 1; world := w |}
      else
        match handlePrompt req w with
        | Returns w' => chatRoutine handlePrompt requests' w'
        | Panics =>
            {| ending := Crashed; undelivered := requests'; wgDone := 0; world := w |}
        end
  end.

(** [imageRoutine]. *)
Fixpoint imageRoutine {W : Type} (handleImage : intReq -> W -> outcome W)
    (requests : list intReq) (w : W) : routineRun intReq W :=
  match requests with
  | [] => {| ending := Waiting; undelivered := []; wgDone := 0; world := w |}
  | req :: requests' =>
      match int req with
      | None =>
          {| ending := Exited; undelivered := requests'; wgDone := 1; world := w |}
      | Some _ =>
          match handleImage req w with
          | Returns w' => imageRoutine handleImage requests' w'
          | Panics =>
              {| ending := Crashed; undelivered := requests'; wgDone := 0; world := w |}
          end
      end
  end.

(** A handler run to its end on each request of a list, one after the
    other, from the state [w]. *)
Fixpoint handleAll {A W : Type} (handler : A -> W -> outcome W) (requests : list A) (w : W)
  : outcome W :=
  match requests with
  | [] => Returns w
  | x :: requests' => w' <- handler x w ;; handleAll handler requests' w'
  end.


(** ** [handleImage] (lines 642-728) *)

Fixpoint eqb_bytes (a b : bytes) : bool :=
  match a, b with
  | [], [] => true
  | x :: a', y :: b' => Ascii.eqb x y && eqb_bytes a' b'
  | _, _ => false
  end.

(** What [handleImage] calls: the LLM [d.l] and the image generator [d.ig],
    two pointers that may be nil (the handlers test them at lines 299 and
    454), the PNG encoder, and two helpers of the file that rest on
    [regexp] and on the font rasterizer.  [d_l] and [d_ig] are [None] for a
    nil pointer, and otherwise hold the answers of [d.l.Prompt] and of
    [d.ig.GenImage], a value or an error. *)
Record imageDeps (Img : Type) : Type := {
  escapeMarkdown : bytes -> bytes;
  d_l : option (list Message -> bytes + errval);
  d_ig : option (bytes -> Z -> Img + errval);
  drawMemeOnImage : Img -> bytes -> Img;
  pngEncode : Img -> bytes + errval
}.
Arguments escapeMarkdown {Img} _.
Arguments d_l {Img} _.
Arguments d_ig {Img} _.
Arguments drawMemeOnImage {Img} _.
Arguments pngEncode {Img} _.

(** [d.l.Prompt(d.ctx, msgs, 0, 1.0)] and [d.ig.GenImage(d.ctx, prompt,
    seed)].  A method called on a nil pointer panics when it reads a field
    of its receiver, which [GenImage] does on its first lines
    ([ig.steps], [ig.loading]); the same is taken of [Prompt], whose code is
    not in the sources. *)
Definition Prompt {Img : Type} (deps : imageDeps Img) (msgs : list Message)
  : outcome (bytes + errval) :=
  match d_l deps with
  | Some prompt => Returns (prompt msgs)
  | None => Panics
  end.

Definition GenImage {Img : Type} (deps : imageDeps Img) (prompt : bytes) (seed : Z)
  : outcome (Img + errval) :=
  match d_ig deps with
  | Some gen => Returns (gen prompt seed)
  | None => Panics
  end.

(** The stages of the pipeline, as they are entered. *)
Inductive stageCall : Type :=
| EnhancePrompt (msgs : list Message)
| MakeLabels (msgs : list Message)
| Generate (prompt : bytes) (seed : Z)
| Composite (labels : bytes)
| Encode
| Deliver (call : DiscordCall).

Definition imagePromptSystem : bytes :=
  str "You are autoregressive language model that specializes in creating perfect, outstanding prompts for generative art models like Stable Diffusion. Your job is to take user ideas, capture ALL main parts, and turn into amazing prompts. You have to capture everything from the user's prompt and then use your talent to make it amazing. You are a master of art styles, terminology, pop culture, and photography across the globe. Respond only with the new prompt. Exclude article words.".

Definition memePromptSystem : bytes :=
  str "You are autoregressive language model that specializes in creating perfect, outstanding meme text. Your job is to take user ideas, capture ALL main parts, and turn into amazing meme labels. You have to capture everything from the user's prompt and then use your talent to make it amazing filled with sarcasm. Respond only with the new meme text. Make it as succinct as possible. Use few words. Use exactly one comma. Exclude article words.".

Definition dquote : ascii := ascii_of_nat 34.

(** The local variables of [handleImage] that the stages update, and the
    stages entered so far. *)
Record imageRun : Type := {
  content : bytes;
  request : intReq;
  stages : list stageCall
}.

(** How a part of [handleImage] ends: the function goes on, with its
    variables, or it has panicked in the last of the stages entered. *)
Inductive stageEnd : Type :=
| GoesOn (r : imageRun)
| Panicked (entered : list stageCall).

Definition withImagePrompt (req : intReq) (p : bytes) : intReq :=
  {| description := description req; imagePrompt := p;
     labelsContent := labelsContent req; cmdName := cmdName req; int := int req |}.

Definition withLabelsContent (req : intReq) (l : bytes) : intReq :=
  {| description := description req; imagePrompt := imagePrompt req;
     labelsContent := l; cmdName := cmdName req; int := int req |}.

(** Lines 643-668: the description, then the image prompt. *)
Definition imageStage {Img : Type} (deps : imageDeps Img) (req : intReq) : stageEnd :=
  let status :=
    if negb (is_empty (description req))
    then str "*Description*: " ++ escapeMarkdown deps (description req) ++ [LF]
    else [] in
  let enhanced :=
    if eqb_bytes (cmdName req) (str "meme_auto") || eqb_bytes (cmdName req) (str "image_auto")
    then
      let msgs := [{| role := System; Content := imagePromptSystem |};
                   {| role := User; Content := description req |}] in
      match Prompt deps msgs with
      | Panics => Panicked [EnhancePrompt msgs]
      | Returns (inr err) =>
          GoesOn {| content := status ++ str "*LLM Error*: "
                               ++ escapeMarkdown deps (errText err) ++ [LF];
                    request := req; stages := [EnhancePrompt msgs] |}
      | Returns (inl reply) =>
          GoesOn {| content := status; request := withImagePrompt req reply;
                    stages := [EnhancePrompt msgs] |}
      end
    else GoesOn {| content := status; request := req; stages := [] |} in
  match enhanced with
  | Panicked entered => Panicked entered
  | GoesOn r =>
      if negb (is_empty (imagePrompt (request r)))
      then GoesOn {| content := content r ++ str "*Image prompt*: "
                                ++ escapeMarkdown deps (imagePrompt (request r)) ++ [LF];
                     request := request r; stages := stages r |}
      else GoesOn r
  end.

(** Lines 671-683: the call to the LLM for the labels. *)
Definition labelsStage {Img : Type} (deps : imageDeps Img) (r : imageRun) : stageEnd :=
  let req := request r in
  let msgs := [{| role := System; Content := memePromptSystem |};
               {| role := User; Content := description req |}] in
  match Prompt deps msgs with
  | Panics => Panicked (stages r ++ [MakeLabels msgs])
  | Returns (inr err) =>
      GoesOn {| content := content r ++ str "*LLM Error*: "
                           ++ escapeMarkdown deps (errText err) ++ [LF];
                request := req; stages := stages r ++ [MakeLabels msgs] |}
  | Returns (inl meme) =>
      GoesOn {| content := content r;
                request := withLabelsContent req (strings.Trim meme (dquote :: str ",."));
                stages := stages r ++ [MakeLabels msgs] |}
  end.

(** Lines 693-727: the labels line, the image, the overlay, the PNG and the
    final edit of the response.  The result is the stages entered by the
    whole function, and how it ends: it returns, or it panics. *)
Definition renderStage {Img : Type} (deps : imageDeps Img) (r : imageRun)
  : list stageCall * outcome unit :=
  let req := request r in
  let status :=
    if negb (is_empty (labelsContent req))
    then content r ++ str "*Labels*: " ++ escapeMarkdown deps (labelsContent req) ++ [LF]
    else content r in
  match GenImage deps (imagePrompt req) 1 with
  | Panics => (stages r ++ [Generate (imagePrompt req) 1], Panics)
  | Returns (inr err) =>
      (stages r ++
       [Generate (imagePrompt req) 1;
        Deliver (InteractionResponseEdit (int req)
                   (status ++ str "*ImageGen Error*: " ++ escapeMarkdown deps (errText err))
                   None)],
       Returns tt)
  | Returns (inl img) =>
      let drawn :=
        if negb (is_empty (labelsContent req))
        then (drawMemeOnImage deps img (labelsContent req), [Composite (labelsContent req)])
        else (img, []) in
      match pngEncode deps (fst drawn) with
      | inr _ =>
          (stages r ++ [Generate (imagePrompt req) 1] ++ snd drawn ++ [Encode], Returns tt)
      | inl w =>
          (stages r ++ [Generate (imagePrompt req) 1] ++ snd drawn ++
           [Encode; Deliver (InteractionResponseEdit (int req) status (Some w))],
           Returns tt)
      end
  end.

(** [handleImage]: the stages it enters, in order, and how it ends. *)
Definition handleImage {Img : Type} (deps : imageDeps Img) (req : intReq)
  : list stageCall * outcome unit :=
  match imageStage deps req with
  | Panicked entered => (entered, Panics)
  | GoesOn r =>
      let cmd := cmdName (request r) in
      if eqb_bytes cmd (str "meme_auto") || eqb_bytes cmd (str "meme_labels_auto") then
        match labelsStage deps r with
        | Panicked entered => (entered, Panics)
        | GoesOn r =>
            if eqb_bytes cmd (str "meme_labels_auto") then
              (* Special case since we don't actually need an image. *)
              (stages r ++
               [Deliver (InteractionResponseEdit (int (request r))
                           (content r ++ str "*Labels*: "
                            ++ escapeMarkdown deps (labelsContent (request r)))
                           None)],
               Returns tt)
            else renderStage deps r
        end
      else renderStage deps r
  end.

(** *** What [handleImage] is expected to do

    The notions in which the properties of [handleImage] are stated: which
    stages a command goes through, the prompt and the labels it ends up
    with, and the lines of its status text, for an LLM that answers
    [prompt]. *)

(** The messages of the two calls to the LLM. *)
Definition enhanceMsgs (req : intReq) : list Message :=
  [{| role := System; Content := imagePromptSystem |};
   {| role := User; Content := description req |}].

Definition labelsMsgs (req : intReq) : list Message :=
  [{| role := System; Content := memePromptSystem |};
   {| role := User; Content := description req |}].

(** The commands whose image prompt the LLM writes, those whose labels it
    writes, and the one that needs no image. *)
Definition enhances (req : intReq) : bool :=
  eqb_bytes (cmdName req) (str "meme_auto") || eqb_bytes (cmdName req) (str "image_auto").

Definition makesLabels (req : intReq) : bool :=
  eqb_bytes (cmdName req) (str "meme_auto") || eqb_bytes (cmdName req) (str "meme_labels_auto").

Definition labelsOnly (req : intReq) : bool :=
  eqb_bytes (cmdName req) (str "meme_labels_auto").

Definition llmCalls (req : intReq) : list stageCall :=
  (if enhances req then [EnhancePrompt (enhanceMsgs req)] else [])
  ++ (if makesLabels req then [MakeLabels (labelsMsgs req)] else []).

(** The image prompt and the labels after the calls to the LLM: its answer,
    or what the request came with when the LLM is not asked or fails. *)
Definition promptUsed (prompt : list Message -> bytes + errval) (req : intReq) : bytes :=
  if enhances req then
    match prompt (enhanceMsgs req) with
    | inl reply => reply
    | inr _ => imagePrompt req
    end
  else imagePrompt req.

Definition labelsUsed (prompt : list Message -> bytes + errval) (req : intReq) : bytes :=
  if makesLabels req then
    match prompt (labelsMsgs req) with
    | inl meme => strings.Trim meme (dquote :: str ",.")
    | inr _ => labelsContent req
    end
  else labelsContent req.

(** A line of the status text for a field that is not empty, and the line
    for a call to the LLM that failed. *)
Definition statusLine (esc : bytes -> bytes) (label value : bytes) : bytes :=
  if is_empty value then [] else label ++ esc value ++ [LF].

Definition llmErrorLine (esc : bytes -> bytes) (answer : bytes + errval) : bytes :=
  match answer with
  | inl _ => []
  | inr err => str "*LLM Error*: " ++ esc (errText err) ++ [LF]
  end.

(** The status text once the LLM has been asked: the description, the
    error of the enhancement, the image prompt, the error of the labels. *)
Definition statusText (esc : bytes -> bytes) (prompt : list Message -> bytes + errval)
    (req : intReq) : bytes :=
  statusLine esc (str "*Description*: ") (description req)
  ++ (if enhances req then llmErrorLine esc (prompt (enhanceMsgs req)) else [])
  ++ statusLine esc (str "*Image prompt*: ") (promptUsed prompt req)
  ++ (if makesLabels req then llmErrorLine esc (prompt (labelsMsgs req)) else []).

(** The image that is encoded: the generated one, with the labels drawn on
    it when there are labels. *)
Definition drawn {Img : Type} (deps : imageDeps Img) (labels : bytes) (img : Img) : Img :=
  if is_empty labels then img else drawMemeOnImage deps img labels.

(** The collaborators that a command needs are there: the LLM answers
    [prompt] and the image generator answers [gen]. *)
Definition serves {Img : Type} (deps : imageDeps Img) (req : intReq)
    (prompt : list Message -> bytes + errval) (gen : bytes -> Z -> Img + errval) : Prop :=
  (enhances req || makesLabels req = true -> d_l deps = Some prompt) /\
  (labelsOnly req = false -> d_ig deps = Some gen).

(** Collaborators and requests on which [handleImage] is run below: an LLM
    that fails, with an image generator and an encoder that work; an
    encoder that fails; an image generator that fails; no image generator
    at all. *)
Definition llmDown : imageDeps unit :=
  {| escapeMarkdown := fun s => s;
     d_l := Some (fun _ => inr (errorString (str "connection refused")));
     d_ig := Some (fun _ _ => inl tt);
     drawMemeOnImage := fun i _ => i;
     pngEncode := fun _ => inl (str "PNG") |}.

Definition encoderDown : imageDeps unit :=
  {| escapeMarkdown := fun s => s;
     d_l := Some (fun _ => inl (str "a cat, oil on canvas"));
     d_ig := Some (fun _ _ => inl tt);
     drawMemeOnImage := fun i _ => i;
     pngEncode := fun _ => inr (errorString (str "short write")) |}.

Definition generatorDown : imageDeps unit :=
  {| escapeMarkdown := fun s => s;
     d_l := Some (fun _ => inl (str "a cat, oil on canvas"));
     d_ig := Some (fun _ _ => inr (errorString (str "connection refused")));
     drawMemeOnImage := fun i _ => i;
     pngEncode := fun _ => inl (str "PNG") |}.

Definition noGenerator : imageDeps unit :=
  {| escapeMarkdown := fun s => s;
     d_l := Some (fun _ => inl (str "a cat, oil on canvas"));
     d_ig := None;
     drawMemeOnImage := fun i _ => i;
     pngEncode := fun _ => inl (str "PNG") |}.

Definition imageAutoReq : intReq :=
  {| description := str "a cat"; imagePrompt := []; labelsContent := [];
     cmdName := str "image_auto"; int := Some (str "i1") |}.

Definition imageManualReq : intReq :=
  {| description := []; imagePrompt := str "a cat"; labelsContent := [];
     cmdName := str "image_manual"; int := Some (str "i2") |}.

Definition memeLabelsReq : intReq :=
  {| description := str "a cat"; imagePrompt := []; labelsContent := [];
     cmdName := str "meme_labels_auto"; int := Some (str "i4") |}.

(** ** The image generation server: [imagegen.New] and [Close]
    (imagegen/image_gen.go), [NewImageGen] and [Close] (image_gen.go) *)

(** [imagegen.Options]. *)
Record Options : Type := {
  Remote : bytes;
  Model : bytes
}.

(** The process that [py.Run] starts; its [done] channel and its [cancel]
    function are told apart by the field that holds them. *)
Definition process := nat.

(** [imagegen.Session]; a nil channel and a nil function are [None]. *)
Record Session : Type := {
  baseURL : bytes;
  done : option process;
  cancel : option process;
  steps : Z
}.

(** What the code does outside the process. *)
Inductive sysCall : Type :=
| MkdirAll (path : bytes)
| RecreateVirtualEnvIfNeeded (dir : bytes)
| FindFreePort
| Run (venv : bytes) (cmd : list bytes) (dir log : bytes)
| Post (url : bytes)
| CallCancel (p : process)
| ReceiveDone (p : process).

(** The answers of the operating system and of package [py], and three
    functions of the standard library. *)
Record startupDeps : Type := {
  IsHostPort : bytes -> bool;
  Join : bytes -> bytes -> bytes;  (* filepath.Join *)
  Itoa : Z -> bytes;               (* strconv.Itoa *)
  Quote : bytes -> bytes;          (* the verb %q *)
  mkdirAll : bytes -> error;
  recreate : bytes -> error;
  freePort : Z;
  run : bytes -> list bytes -> process + errval
}.

(** One turn of the polling loop, as the outside world makes it go. *)
Record pollRound : Type := {
  cancelled : bool;
    (* ctx.Err() != nil when the loop tests it *)
  ready : bool;
    (* the request succeeds and the server is ready *)
  exited : option error;
    (* the process has ended by the time of the select: the value that its
       done channel delivers *)
  ctxDone : bool;
    (* ctx.Done() is closed at the select *)
  pickDone : bool
    (* [select] picks the done channel when other cases are ready too *)
}.

Inductive pollEnd : Type :=
| PollReady
| PollCancelled
| PollDied (err : error)
| PollPending. (* still polling when the rounds that are given run out *)

(** The [select] of the loop: does it receive from [done]?  A nil channel is
    never ready; a ready done channel is taken when nothing else is ready
    (the timer is not, before 100ms) or when the scheduler picks it. *)
Definition selectDone (done : option process) (r : pollRound) : option error :=
  match done, exited r with
  | Some _, Some err => if negb (ctxDone r) || pickDone r then Some err else None
  | _, _ => None
  end.

(** The loop [for ctx.Err() == nil] (image_gen.go lines 78-91 and 62-72),
    with the URL of its request. *)
Fixpoint pollLoop (url : bytes) (done : option process) (rounds : list pollRound)
  : pollEnd * list sysCall :=
  match rounds with
  | [] => (PollPending, [])
  | r :: rounds' =>
      if cancelled r then (PollCancelled, [])
      else if ready r then (PollReady, [Post url])
      else
        match selectDone done r with
        | Some err => (PollDied err, [Post url])
        | None =>
            let '(e, calls) := pollLoop url done rounds' in
            (e, Post url :: calls)
        end
  end.

Inductive startup (S : Type) : Type :=
| Started (ig : S)          (* return ig, nil *)
| StartFailed (err : errval) (* return nil, err *)
| StillPolling (ig : S).
Arguments Started {S} ig.
Arguments StartFailed {S} err.
Arguments StillPolling {S} ig.

(** The end of [New] and of [NewImageGen], after the loop. *)
Definition afterPoll {S : Type} (ig : S) (e : pollEnd) : startup S :=
  match e with
  | PollReady | PollCancelled => Started ig
  | PollDied err => StartFailed (Errorf (str "failed to start") err)
  | PollPending => StillPolling ig
  end.

(** [imagegen.New(ctx, cache, opts)]. *)
Definition New (deps : startupDeps) (cache : bytes) (opts : Options)
    (rounds : list pollRound) : startup Session * list sysCall :=
  if is_empty (Remote opts) then
    if negb (eqb_bytes (Model opts) (str "python")) then
      (StartFailed (errorString (str "unknown model " ++ Quote deps (Model opts))), [])
    else
      let cachePy := Join deps cache (str "py") in
      match mkdirAll deps cachePy with
      | Some err =>
          (StartFailed (wrapError (str "failed to create the directory to cache python") err),
           [MkdirAll cachePy])
      | None =>
          match recreate deps cachePy with
          | Some err =>
              (StartFailed (wrapError (str "failed to load image_gen") err),
               [MkdirAll cachePy; RecreateVirtualEnvIfNeeded cachePy])
          | None =>
              let port := freePort deps in
              let cmd := [Join deps cachePy (str "image_gen.py"); str "--port"; Itoa deps port] in
              let venv := Join deps cachePy (str "venv") in
              let log := Join deps cachePy (str "image_gen.log") in
              let before := [MkdirAll cachePy; RecreateVirtualEnvIfNeeded cachePy;
                             FindFreePort; Run venv cmd cachePy log] in
              match run deps venv cmd with
              | inr err => (StartFailed err, before)
              | inl p =>
                  let ig := {| baseURL := str "http://localhost:" ++ Itoa deps port;
                               done := Some p; cancel := Some p; steps := 8 |} in
                  let '(e, calls) := pollLoop (baseURL ig ++ str "/api/health") (done ig) rounds in
                  (afterPoll ig e, before ++ calls)
              end
          end
      end
  else
    if negb (IsHostPort deps (Remote opts)) then
      (StartFailed (errorString (str "invalid remote " ++ Quote deps (Remote opts)
                                 ++ str "; use form 'host:port'")), [])
    else
      let ig := {| baseURL := str "http://" ++ Remote opts;
                   done := None; cancel := None; steps := 8 |} in
      let '(e, calls) := pollLoop (baseURL ig ++ str "/api/health") (done ig) rounds in
      (afterPoll ig e, calls).

Inductive closing : Type :=
| Closed (err : error)
| NeverReturns. (* blocked on the receive from the done channel *)

(** The method [Close] of [Session].  [delivered] is what the done channel
    of the process delivers once the process has ended, or [None] when
    nothing is ever delivered on it; a nil channel delivers nothing either.
    The receive [<-ig.done] blocks until a value is delivered. *)
Definition Close (ig : Session) (delivered : option error) : closing * list sysCall :=
  match cancel ig with
  | None => (Closed None, [])
  | Some c =>
      match done ig, delivered with
      | Some p, Some exit => (Closed exit, [CallCancel c; ReceiveDone p])
      | _, _ => (NeverReturns, [CallCancel c])
      end
  end.

(** [sillybot.ImageGen] of image_gen.go, whose two handles are never nil. *)
Record ImageGen : Type := {
  gen_done : process;
  gen_cancel : process;
  url : bytes;
  gen_steps : Z;
  loading : bool
}.

(** The answers [NewImageGen] gets from the helpers of its package. *)
Record genDeps : Type := {
  gen_Join : bytes -> bytes -> bytes;
  gen_Itoa : Z -> bytes;
  gen_Quote : bytes -> bytes;
  pyNeedRecreate : bytes -> bool;
  pyRecreate : bytes -> error;
  findFreePort : Z;
  runPython : bytes -> list bytes -> process + errval
}.

(** [NewImageGen(ctx, cache, opts)]; a round is ready when
    [ig.GenImage("cat")] succeeds. *)
Definition NewImageGen (deps : genDeps) (cache : bytes) (model : bytes)
    (rounds : list pollRound) : startup ImageGen * list sysCall :=
  if negb (eqb_bytes model (str "python")) then
    (StartFailed (errorString (str "unknown model " ++ gen_Quote deps model)), [])
  else
    match (if pyNeedRecreate deps cache then pyRecreate deps cache else None) with
    | Some err => (StartFailed err, [RecreateVirtualEnvIfNeeded cache])
    | None =>
        let before := if pyNeedRecreate deps cache
                      then [RecreateVirtualEnvIfNeeded cache] else [] in
        let port := findFreePort deps in
        let cmd := [gen_Join deps cache (str "image_gen.py"); str "--port"; gen_Itoa deps port] in
        let venv := gen_Join deps cache (str "venv") in
        let log := gen_Join deps cache (str "image_gen.log") in
        let before := before ++ [FindFreePort; Run venv cmd cache log] in
        match runPython deps venv cmd with
        | inr err => (StartFailed err, before)
        | inl p =>
            let u := str "http://localhost:" ++ gen_Itoa deps port ++ str "/" in
            let '(e, calls) := pollLoop u (Some p) rounds in
            (afterPoll {| gen_done := p; gen_cancel := p; url := u;
                          gen_steps := 8; loading := false |} e,
             before ++ calls)
        end
    end.

(** A round after which the loop polls again: the context is not cancelled,
    the server is not ready and the [select] does not receive from [done]. *)
Definition goesOn (done : option process) (r : pollRound) : Prop :=
  cancelled r = false /\ ready r = false /\ selectDone done r = None.

(** The session of [New] for a remote server. *)
Definition remoteSession (opts : Options) : Session :=
  {| baseURL := str "http://" ++ Remote opts; done := None; cancel := None; steps := 8 |}.

(** Answers and rounds on which the functions are run below: a system where
    every step of the set-up succeeds and the process gets the handle 1; a
    round in which the context is found cancelled, a round with nothing
    new, and one in which the process has ended with an error. *)
Definition someDeps : startupDeps :=
  {| IsHostPort := fun _ => true;
     Join := fun a b => a ++ str "/" ++ b;
     Itoa := fun _ => str "8032";
     Quote := fun s => dquote :: s ++ [dquote];
     mkdirAll := fun _ => None;
     recreate := fun _ => None;
     freePort := 8032;
     run := fun _ _ => inl 1%nat |}.

Definition someGenDeps : genDeps :=
  {| gen_Join := fun a b => a ++ str "/" ++ b;
     gen_Itoa := fun _ => str "8032";
     gen_Quote := fun s => dquote :: s ++ [dquote];
     pyNeedRecreate := fun _ => false;
     pyRecreate := fun _ => None;
     findFreePort := 8032;
     runPython := fun _ _ => inl 1%nat |}.

Definition remoteOpts : Options := {| Remote := str "gpu:8032"; Model := [] |}.
Definition localOpts : Options := {| Remote := []; Model := str "python" |}.

Definition cancelledRound : pollRound :=
  {| cancelled := true; ready := false; exited := None; ctxDone := true; pickDone := false |}.

Definition idleRound : pollRound :=
  {| cancelled := false; ready := false; exited := None; ctxDone := false; pickDone := false |}.

Definition diedRound : pollRound :=
  {| cancelled := false; ready := false;
     exited := Some (Some (errorString (str "exit status 1")));
     ctxDone := false; pickDone := false |}.

(** ** Notions used in the further properties *)

(** The request that [handlePrompt] answers, and whether a call to Discord
    is one that [handlePrompt] may make for it: a typing indicator or the
    report of a failure in the channel of the request, or a reply there,
    not empty, to a message of the same channel and guild. *)
Definition callInChannel (req : msgReq) (c : DiscordCall) : Prop :=
  match c with
  | ChannelTyping ch => ch = channelID req
  | ChannelMessageSend ch _ => ch = channelID req
  | ChannelMessageSendComplex ch text ref =>
      ch = channelID req /\ text <> [] /\
      ChannelID ref = channelID req /\ GuildID ref = guildID req
  | _ => False
  end.

(** The ids of the messages that the replies reference, in order. *)
Fixpoint replyTargets (calls : list DiscordCall) : list bytes :=
  match calls with
  | [] => []
  | ChannelMessageSendComplex _ _ ref :: calls' => MessageID ref :: replyTargets calls'
  | _ :: calls' => replyTargets calls'
  end.

(** The ids of the messages that Discord reports as posted. *)
Fixpoint postedIds (events : list streamEvent) : list bytes :=
  match events with
  | [] => []
  | Tick (Some id) :: events' => id :: postedIds events'
  | _ :: events' => postedIds events'
  end.

(** The answers of Discord to the replies that the loop posts at its ticks,
    in order, from the pending text [pending] on: a tick posts a reply, and
    gets an answer, when [splitResponse] cuts the pending text there. *)
Fixpoint tickAnswers (MatchString : bytes -> bytes -> option bool)
    (events : list streamEvent) (pending : bytes) : list (option bytes) :=
  match events with
  | [] => []
  | Word w :: events' => tickAnswers MatchString events' (pending ++ w)
  | Tick sent :: events' =>
      match splitResponse MatchString pending with
      | Returns i =>
          if i =? 0 then tickAnswers MatchString events' pending
          else sent :: tickAnswers MatchString events' (remainder pending i)
      | Panics => []
      end
  end.

(** The message that each reply of a chain references, the closing one
    included: the first references [replyTo]; the next one references the
    message just posted when Discord answered with its id, and the same
    message as before when the post failed. *)
Fixpoint replyChain (replyTo : bytes) (answers : list (option bytes)) : list bytes :=
  match answers with
  | [] => [replyTo]
  | answer :: answers' =>
      replyTo :: replyChain (match answer with
                             | Some id => id
                             | None => replyTo
                             end) answers'
  end.

(** A stream of words and ticks run below. *)
Definition twoSentenceStream : list streamEvent :=
  [Word (str "Hello world."); Word (str " More text"); Tick (Some (str "2001"));
   Word (str " to come."); Tick None].

(** A call other than a plain message. *)
Definition notPlainMessage (c : DiscordCall) : Prop :=
  match c with
  | ChannelMessageSend _ _ => False
  | _ => True
  end.

(** What holds of the state of the goroutine of [handlePrompt] all along
    its loop, for the ids [ids] that Discord has reported so far. *)
Definition streamInvariant (req : msgReq) (ids : list bytes) (st : streamState) : Prop :=
  Forall (callInChannel req) (posted st) /\
  (replyTo st = replyToID req \/ In (replyTo st) ids) /\
  Forall (fun t => t = replyToID req \/ In t ids) (replyTargets (posted st)) /\
  Forall notPlainMessage (posted st).

(** Messages that arrive in a row, with no worker taking a request in
    between: the queues after them and the calls made. *)
Fixpoint admitAll (d : discordBot) (reqs : list msgReq) : discordBot * list DiscordCall :=
  match reqs with
  | [] => (d, [])
  | req :: reqs' =>
      let '(d1, calls1) := onMessageCreate d req in
      let '(d2, calls2) := admitAll d1 reqs' in
      (d2, calls1 ++ calls2)
  end.

(** The reply to a message that is not admitted. *)
Definition overloadReply (req : msgReq) : DiscordCall :=
  ChannelMessageSendComplex (channelID req) chatOverload (reference_of req (replyToID req)).

(** The method [Close] of [discordBot] (lines 107-117): once the session is
    closed and no handler runs any more, it sends the zero request on each
    channel, behind what is queued, and waits for the two routines.
    [closeFeeds] is what the routines receive from then on. *)
Definition zeroMsgReq : msgReq :=
  {| msg := []; authorID := []; channelID := []; guildID := []; replyToID := [] |}.

Definition zeroIntReq : intReq :=
  {| description := []; imagePrompt := []; labelsContent := []; cmdName := []; int := None |}.

Definition closeFeeds (d : discordBot) : list msgReq * list intReq :=
  (buffer (chat d) ++ [zeroMsgReq], buffer (image d) ++ [zeroIntReq]).

(** A handler that only records the request it is given, on which the
    routines are run below. *)
Definition logRequest {A : Type} (req : A) (log : list A) : outcome (list A) :=
  Returns (log ++ [req]).

(** The place of a stage in the pipeline of [handleImage]. *)
Definition stageRank (s : stageCall) : nat :=
  match s with
  | EnhancePrompt _ => 0
  | MakeLabels _ => 1
  | Generate _ _ => 2
  | Composite _ => 3
  | Encode => 4
  | Deliver _ => 5
  end.

Definition isDeliver (s : stageCall) : bool :=
  match s with Deliver _ => true | _ => false end.

(** A request for a meme whose two texts the user gives. *)
Definition memeManualReq : intReq :=
  {| description := []; imagePrompt := str "a cat"; labelsContent := str "one,two";
     cmdName := str "meme_manual"; int := Some (str "i3") |}.

(** ** [drawMemeOnImage] (lines 730-754)

    The calls it makes to [drawTextOnImage], each with the place of the text
    (a percentage of the height) and the text.  An index out of the range of
    [lines] is a run-time panic. *)

Module Meme.

Definition line (lines : list bytes) (k : nat) : outcome bytes :=
  match nth_error lines k with
  | Some l => Returns l
  | None => Panics
  end.

Definition drawMemeOnImage (meme : bytes) : outcome (list (Z * bytes)) :=
  let lines := strings.Split meme (str ",") in
  match List.length lines with
  | 1%nat =>
      l0 <- line lines 0 ;;
      Returns [(0, l0)]
  | 2%nat =>
      l0 <- line lines 0 ;; l1 <- line lines 1 ;;
      Returns [(0, l0); (100, l1)]
  | 3%nat =>
      l0 <- line lines 0 ;; l1 <- line lines 1 ;; l2 <- line lines 2 ;;
      Returns [(0, l0); (50, l1); (100, l2)]
  | 4%nat =>
      l0 <- line lines 0 ;; l1 <- line lines 1 ;; l2 <- line lines 2 ;;
      l3 <- line lines 3 ;;
      Returns [(0, l0); (30, l1); (60, l2); (100, l3)]
  | _ =>
      l0 <- line lines 0 ;; l1 <- line lines 1 ;; l2 <- line lines 2 ;;
      l3 <- line lines 3 ;; l4 <- line lines 4 ;;
      Returns [(0, l0); (20, l1); (50, l2); (80, l3); (100, l4)]
  end.

End Meme.

(** ** The handlers of the Discord events (lines 119-479)

    The two handlers that feed the queues are taken here from their first
    line; they end with the admission of the request, [onMessageCreate] and
    [onImage] above. *)

Module Handlers.

(** The fields of [discordgo.MessageCreate] that the handler reads. *)
Record MessageCreate : Type := {
  Author_ID : bytes;
  m_GuildID : bytes;
  m_Content : bytes;
  m_ChannelID : bytes;
  m_ID : bytes
}.

(** [fmt.Sprintf("<@%s>", botid)]. *)
Definition mention (botid : bytes) : bytes := str "<@" ++ botid ++ str ">".

(** [onMessageCreate] (lines 286-328).  [TrimSpace] is [strings.TrimSpace],
    [llm] tells whether [d.l] is not nil and [botid] is the id of the
    bot. *)
Definition onMessageCreate (TrimSpace : bytes -> bytes) (llm : bool) (botid : bytes)
    (d : discordBot) (m : MessageCreate) : discordBot * list DiscordCall :=
  if eqb_bytes (Author_ID m) botid then (d, [])
  else
    let user := mention botid in
    if negb (is_empty (m_GuildID m)) && negb (strings.Contains (m_Content m) user)
    then (d, []) (* Ignore if the bot is not explicitly referenced to. *)
    else
      let text := TrimSpace (strings.ReplaceAll (m_Content m) user []) in
      if negb llm then (d, [ChannelMessageSend (m_ChannelID m) (str "LLM is not enabled.")])
      else
        let req := {| msg := text; authorID := Author_ID m; channelID := m_ChannelID m;
                      guildID := m_GuildID m; replyToID := m_ID m |} in
        let '(d', calls) := onMessageCreate d req in
        (d', ChannelTyping (m_ChannelID m) :: calls).

(** The options of an image command, as [optionsToStruct] decodes them. *)
Record imageOptions : Type := {
  Description : bytes;
  ImagePrompt : bytes;
  LabelsContent : bytes
}.

Definition imageDisabled : bytes :=
  str "Image generation is not enabled. Restart with bot.image_gen.model set in config.yml.".

(** [onImage] (lines 441-479).  [decoded] is the answer of
    [optionsToStruct], [ig] tells whether [d.ig] is not nil. *)
Definition onImage (ig : bool) (d : discordBot) (name : bytes)
    (decoded : imageOptions + errval) (interaction : option bytes)
  : discordBot * list DiscordCall :=
  match decoded with
  | inr _ => (d, [])
  | inl opts =>
      if negb ig && strings.HasSuffix name (str "_auto")
         && negb (eqb_bytes name (str "meme_labels_auto"))
      then (d, [InteractionRespond interaction imageDisabled])
      else onImage d {| description := Description opts; imagePrompt := ImagePrompt opts;
                        labelsContent := LabelsContent opts; cmdName := name;
                        int := interaction |}
  end.

(** The names of the commands that [onReady] registers (lines 132-237),
    with the suffix they get when the id of the bot contains "(dev)". *)
Definition commandNames : list bytes :=
  [str "meme_auto"; str "meme_manual"; str "meme_labels_auto"; str "image_auto";
   str "image_manual"; str "list_models"; str "forget"; str "forget"].

Definition registeredNames (botid : bytes) : list bytes :=
  if strings.Contains botid (str "(dev)")
  then map (fun name => name ++ str "_dev") commandNames
  else commandNames.

(** The handler that [onInteractionCreate] calls for a command (lines
    341-350). *)
Inductive handler : Type :=
| OnForget
| OnListModels
| OnImage
| Unexpected. (* logged, nothing is done *)

Definition onInteractionCreate (name : bytes) : handler :=
  if eqb_bytes name (str "forget") then OnForget
  else if eqb_bytes name (str "list_models") then OnListModels
  else if eqb_bytes name (str "meme_auto") || eqb_bytes name (str "meme_manual")
          || eqb_bytes name (str "meme_labels_auto") || eqb_bytes name (str "image_auto")
          || eqb_bytes name (str "image_manual")
  then OnImage
  else Unexpected.

(** [onForget] (lines 353-375) on the messages of the conversation that
    [d.mem.Get] returns: the messages it leaves there and its reply.
    [decoded] is the answer of [optionsToStruct], the system prompt to use
    (the one of the bot unless the command gives one) or an error. *)
Definition onForget (escapeMarkdown : bytes -> bytes) (decoded : bytes + errval)
    (interaction : option bytes) (messages : list Message)
  : list Message * list DiscordCall :=
  match decoded with
  | inr _ => (messages, [])
  | inl systemPrompt =>
      let reply :=
        if (1 <? List.length messages)%nat
        then str "The memory of our past conversations just got zapped."
        else str "I don't know you. I can't wait to start our discussion so I can get to know you better!" in
      let reply := reply ++ [LF] ++ str "*System prompt*: " ++ escapeMarkdown systemPrompt in
      ([{| role := System; Content := systemPrompt |}],
       [InteractionRespond interaction reply])
  end.

(** The fields of a channel that [onGuildCreate] reads, with the answer of
    [dg.ChannelMessages] for it: the author and the content of its last
    messages (none when the call fails). *)
Record guildChannel : Type := {
  c_ID : bytes;
  c_voiceOrCategory : bool;
  c_recent : list (bytes * bytes)
}.

Definition welcome : bytes :=
  str "I'm back up! Check out my commands by typing the '/' slash key. I can generate images and memes.".

(** The loop over the messages (lines 267-274). *)
Definition welcomed (botid : bytes) (recent : list (bytes * bytes)) : bool :=
  existsb (fun m => eqb_bytes (fst m) botid && eqb_bytes (snd m) welcome) recent.

(** [onGuildCreate] (lines 250-280). *)
Fixpoint welcomeChannels (botid : bytes) (channels : list guildChannel) : list DiscordCall :=
  match channels with
  | [] => []
  | c :: channels' =>
      if c_voiceOrCategory c then welcomeChannels botid channels'
      else if negb (welcomed botid (c_recent c))
      then ChannelMessageSend (c_ID c) welcome :: welcomeChannels botid channels'
      else welcomeChannels botid channels'
  end.

Definition onGuildCreate (botid : bytes) (unavailable : bool)
    (channels : list guildChannel) : list DiscordCall :=
  if unavailable then [] else welcomeChannels botid channels.

End Handlers.

(** Messages, commands and channels on which the handlers are run below. *)
Definition mentionInGuild : Handlers.MessageCreate :=
  {| Handlers.Author_ID := str "42"; Handlers.m_GuildID := str "g1";
     Handlers.m_Content := str "<@99> hi"; Handlers.m_ChannelID := str "7";
     Handlers.m_ID := str "1001" |}.

Definition someImageOptions : Handlers.imageOptions :=
  {| Handlers.Description := []; Handlers.ImagePrompt := str "a cat";
     Handlers.LabelsContent := [] |}.

Definition textChannel : Handlers.guildChannel :=
  {| Handlers.c_ID := str "7"; Handlers.c_voiceOrCategory := false;
     Handlers.c_recent := [(str "42", str "hello")] |}.

Definition welcomedChannel : Handlers.guildChannel :=
  {| Handlers.c_ID := str "8"; Handlers.c_voiceOrCategory := false;
     Handlers.c_recent := [(str "42", str "hello"); (str "99", Handlers.welcome)] |}.

Definition voiceChannel : Handlers.guildChannel :=
  {| Handlers.c_ID := str "9"; Handlers.c_voiceOrCategory := true;
     Handlers.c_recent := [] |}.

(** The number of plain messages sent to a channel among the calls made,
    and the number of times a channel is listed in a guild. *)
Definition sentTo (channel : bytes) (calls : list DiscordCall) : nat :=
  List.length
    (filter (fun call => match call with
                         | ChannelMessageSend ch _ => eqb_bytes ch channel
                         | _ => false
                         end) calls).

Definition listed (channel : bytes) (channels : list Handlers.guildChannel) : nat :=
  List.length (filter (fun c => eqb_bytes (Handlers.c_ID c) channel) channels).

(** The channels of a guild that are due a welcome: neither a voice channel
    nor a category, and with no welcome of the bot in the last messages. *)
Definition unwelcomed (botid : bytes) (c : Handlers.guildChannel) : bool :=
  negb (Handlers.c_voiceOrCategory c)
  && negb (existsb (fun m => eqb_bytes (fst m) botid && eqb_bytes (snd m) Handlers.welcome)
             (Handlers.c_recent c)).

(** ** [onListModels] (lines 377-439)

    The text that the function adds for a model once its repository is
    known (the quantizations, the tensors, the license, or the error of the
    query) comes from Hugging Face and is given by [modelInfo]. *)

Module Models.

(** The fields of a known LLM that the function reads; [URL] is the value
    of its method [URL()]. *)
Record KnownLLM : Type := {
  Basename : bytes;
  RepoID : bytes;
  URL : bytes
}.

Definition header : bytes := str "Known models:" ++ [LF].

(** The text added to [reply] for one model. *)
Definition modelLine (modelInfo : KnownLLM -> bytes) (k : KnownLLM) : bytes :=
  str "- [`" ++ Basename k ++ str "`](" ++ URL k ++ str ") " ++ modelInfo k ++ [LF].

(** The loop over [d.l.KnownLLMs] (lines 380-426), on the variables [reply]
    and [replies]. *)
Fixpoint listLoop (modelInfo : KnownLLM -> bytes) (llms : list KnownLLM)
    (reply : bytes) (replies : list bytes) : outcome (bytes * list bytes) :=
  match llms with
  | [] => Returns (reply, replies)
  | k :: llms' =>
      let parts := strings.SplitN2 (RepoID k) (str "/") in
      _ <- Meme.line parts 0 ;;
      _ <- Meme.line parts 1 ;;
      let reply := reply ++ modelLine modelInfo k in
      if 1000 <? len reply
      then (* Don't hit the 2000 characters limit. *)
        listLoop modelInfo llms' [] (replies ++ [reply])
      else listLoop modelInfo llms' reply replies
  end.

(** The replies of [onListModels], in order. *)
Definition listReplies (modelInfo : KnownLLM -> bytes) (llms : list KnownLLM)
  : outcome (list bytes) :=
  r <- listLoop modelInfo llms header [] ;;
  Returns (if negb (is_empty (fst r)) then snd r ++ [fst r] else snd r).

(** [onListModels]; [l] is [d.l.KnownLLMs], or [None] when [d.l] is nil (the
    case that line 299 provides for): the function reads the field with no
    test of the pointer, and panics on a nil one, before any reply. *)
Definition onListModels (modelInfo : KnownLLM -> bytes) (l : option (list KnownLLM))
    (interaction : option bytes) (channel : bytes) : outcome (list DiscordCall) :=
  match l with
  | None => Panics
  | Some llms =>
      replies <- listReplies modelInfo llms ;;
      first <- Meme.line replies 0 ;;
      Returns (InteractionRespond interaction first
               :: map (ChannelMessageSend channel) (tl replies))
  end.

End Models.

(** Two models on which [onListModels] is run below. *)
Definition someLLM : Models.KnownLLM :=
  {| Models.Basename := str "phi-3-mini"; Models.RepoID := str "microsoft/phi-3";
     Models.URL := str "https://huggingface.co/microsoft/phi-3" |}.

Definition badLLM : Models.KnownLLM :=
  {| Models.Basename := str "local"; Models.RepoID := str "local";
     Models.URL := str "https://huggingface.co/local" |}.

(** A known LLM whose repository id has the form author/repository. *)
Definition hasSlash (k : Models.KnownLLM) : Prop :=
  strings.Contains (Models.RepoID k) (str "/") = true.

(** * Properties *)

(** ** Strings *)

Section StringFacts.

Import strings.

Lemma len_nonneg (s : bytes) : 0 <= len s.
Proof. unfold len. lia. Qed.

Lemma len_cons (c : ascii) (s : bytes) : len (c :: s) = len s + 1.
Proof. unfold len. simpl List.length. lia. Qed.

Lemma len_app (a b : bytes) : len (a ++ b) = len a + len b.
Proof. unfold len. rewrite length_app. lia. Qed.

Lemma HasPrefix_app (s p : bytes) :
  HasPrefix s p = true <-> exists r, s = p ++ r.
Proof.
  revert s. induction p as [|x p IH]; intros s; simpl.
  - split; [intros _; now exists s | reflexivity].
  - destruct s as [|c s]; simpl.
    + split; [discriminate | intros [r Hr]; discriminate].
    + rewrite andb_true_iff, Ascii.eqb_eq, IH. split.
      * intros [-> [r ->]]. now exists r.
      * intros [r Hr]. injection Hr as -> ->. split; [reflexivity | now exists r].
Qed.

Lemma HasPrefix_len (s p : bytes) : HasPrefix s p = true -> len p <= len s.
Proof.
  intros H. apply HasPrefix_app in H as [r ->]. rewrite len_app.
  pose proof (len_nonneg r). lia.
Qed.

(** A prefix of [s] starts with [p] only if [s] does. *)
Lemma HasPrefix_firstn (n : nat) (s p : bytes) :
  HasPrefix (firstn n s) p = true -> HasPrefix s p = true.
Proof.
  intros H. apply HasPrefix_app in H as [r Hr]. apply HasPrefix_app.
  exists (r ++ skipn n s). rewrite app_assoc, <- Hr. symmetry. apply firstn_skipn.
Qed.

(** A prefix of [s] that is long enough starts with [p] when [s] does. *)
Lemma HasPrefix_firstn_keep (n : nat) (s p : bytes) :
  HasPrefix s p = true -> (List.length p <= n)%nat -> HasPrefix (firstn n s) p = true.
Proof.
  intros H Hn. apply HasPrefix_app in H as [r ->]. apply HasPrefix_app.
  exists (firstn (n - List.length p) r).
  rewrite firstn_app. f_equal. apply firstn_all2. exact Hn.
Qed.

Lemma Index_range (s sub : bytes) :
  -1 <= Index s sub /\ (0 <= Index s sub -> Index s sub + len sub <= len s).
Proof.
  induction s as [|c s IH].
  - simpl. destruct sub; simpl; unfold len; simpl; lia.
  - cbn [Index]. destruct (HasPrefix (c :: s) sub) eqn:Hp.
    + apply HasPrefix_len in Hp. lia.
    + cbv zeta. destruct (Index s sub <? 0) eqn:Hi.
      * lia.
      * apply Z.ltb_ge in Hi. rewrite len_cons. lia.
Qed.

(** The instance that [Index] finds. *)
Lemma Index_found (s sub : bytes) :
  0 <= Index s sub ->
  HasPrefix (skipn (Z.to_nat (Index s sub)) s) sub = true.
Proof.
  induction s as [|c s IH].
  - simpl. destruct (HasPrefix [] sub) eqn:Hp; [intros _; exact Hp | lia].
  - cbn [Index]. destruct (HasPrefix (c :: s) sub) eqn:Hp.
    + intros _. exact Hp.
    + cbv zeta. destruct (Index s sub <? 0) eqn:Hi; [lia|].
      apply Z.ltb_ge in Hi. intros _.
      replace (Z.to_nat (Index s sub + 1)) with (S (Z.to_nat (Index s sub))) by lia.
      simpl. apply IH. exact Hi.
Qed.

(** No instance of [sub] in [s]: none in a prefix of [s]. *)
Lemma Index_none_firstn (n : nat) (s sub : bytes) :
  Index s sub < 0 -> Index (firstn n s) sub < 0.
Proof.
  revert n. induction s as [|c s IH]; intros n.
  - rewrite firstn_nil. auto.
  - cbn [Index]. destruct (HasPrefix (c :: s) sub) eqn:Hp; [lia|].
    cbv zeta. destruct (Index s sub <? 0) eqn:Hi.
    2:{ apply Z.ltb_ge in Hi. lia. }
    apply Z.ltb_lt in Hi. intros _.
    destruct n as [|n].
    + simpl. destruct (HasPrefix [] sub) eqn:Hn; [|lia].
      destruct sub; [discriminate Hp | discriminate Hn].
    + simpl firstn. cbn [Index].
      destruct (HasPrefix (c :: firstn n s) sub) eqn:Hq.
      * change (c :: firstn n s) with (firstn (S n) (c :: s)) in Hq.
        apply HasPrefix_firstn in Hq. congruence.
      * cbv zeta. specialize (IH n Hi).
        destruct (Index (firstn n s) sub <? 0) eqn:Hj; [lia|].
        apply Z.ltb_ge in Hj. lia.
Qed.

(** The part of [s] before the first instance of a non-empty [sub] holds no
    instance of it. *)
Lemma Index_before_first (s sub : bytes) :
  sub <> [] -> 0 <= Index s sub ->
  Index (firstn (Z.to_nat (Index s sub)) s) sub < 0.
Proof.
  intros Hsub. induction s as [|c s IH].
  - simpl. destruct sub; [congruence | simpl; lia].
  - cbn [Index]. destruct (HasPrefix (c :: s) sub) eqn:Hp.
    + intros _. simpl. destruct sub; [congruence | simpl; lia].
    + cbv zeta. destruct (Index s sub <? 0) eqn:Hi; [lia|].
      apply Z.ltb_ge in Hi. intros _.
      replace (Z.to_nat (Index s sub + 1)) with (S (Z.to_nat (Index s sub))) by lia.
      simpl firstn. cbn [Index].
      destruct (HasPrefix (c :: firstn (Z.to_nat (Index s sub)) s) sub) eqn:Hq.
      * change (c :: firstn (Z.to_nat (Index s sub)) s)
          with (firstn (S (Z.to_nat (Index s sub))) (c :: s)) in Hq.
        apply HasPrefix_firstn in Hq. congruence.
      * cbv zeta. specialize (IH Hi).
        destruct (Index (firstn (Z.to_nat (Index s sub)) s) sub <? 0) eqn:Hj; [lia|].
        apply Z.ltb_ge in Hj. lia.
Qed.

(** A prefix of [s] that reaches the end of the first instance of [sub] has
    its first instance at the same place. *)
Lemma Index_firstn_keep (n : nat) (s sub : bytes) :
  0 <= Index s sub -> Index s sub + len sub <= Z.of_nat n ->
  Index (firstn n s) sub = Index s sub.
Proof.
  revert n. induction s as [|c s IH]; intros n.
  - rewrite firstn_nil. reflexivity.
  - cbn [Index]. destruct (HasPrefix (c :: s) sub) eqn:Hp.
    + intros _ Hn.
      assert (Hq : HasPrefix (firstn n (c :: s)) sub = true).
      { apply HasPrefix_firstn_keep; [exact Hp | unfold len in Hn; lia]. }
      destruct n as [|n].
      * simpl in Hq. simpl. now rewrite Hq.
      * simpl firstn in *. cbn [Index]. now rewrite Hq.
    + cbv zeta. destruct (Index s sub <? 0) eqn:Hi; [lia|].
      apply Z.ltb_ge in Hi. intros _ Hn.
      destruct n as [|n]; [pose proof (len_nonneg sub); lia|].
      simpl firstn. cbn [Index].
      destruct (HasPrefix (c :: firstn n s) sub) eqn:Hq.
      * change (c :: firstn n s) with (firstn (S n) (c :: s)) in Hq.
        apply HasPrefix_firstn in Hq. congruence.
      * cbv zeta. rewrite IH by lia.
        destruct (Index s sub <? 0) eqn:Hj; [apply Z.ltb_lt in Hj; lia | reflexivity].
Qed.

End StringFacts.

Section CountFacts.

Import strings.

Lemma Count_loop_nonneg (k : nat) (s sub : bytes) : 0 <= Count_loop k s sub.
Proof.
  revert s. induction k as [|k IH]; intros s; cbn [Count_loop]; [lia|].
  cbv zeta. destruct (Index s sub <? 0); [lia|].
  specialize (IH (skipn (Z.to_nat (Index s sub + len sub)) s)). lia.
Qed.

Lemma Count_none (s sub : bytes) : Index s sub < 0 -> Count s sub = 0.
Proof.
  intros H. unfold Count. cbn [Count_loop]. cbv zeta. apply Z.ltb_lt in H. now rewrite H.
Qed.

Lemma Count_positive (s sub : bytes) : 1 <= Count s sub -> 0 <= Index s sub.
Proof.
  unfold Count. cbn [Count_loop]. cbv zeta. destruct (Index s sub <? 0) eqn:Hi; [lia|].
  apply Z.ltb_ge in Hi. auto.
Qed.

(** Two instances counted: [Index] finds one, and one more after it. *)
Lemma Count_two_found (s sub : bytes) :
  2 <= Count s sub ->
  0 <= Index s sub /\
  0 <= Index (skipn (Z.to_nat (Index s sub + len sub)) s) sub.
Proof.
  unfold Count. cbn [Count_loop]. cbv zeta. destruct (Index s sub <? 0) eqn:Hi; [lia|].
  apply Z.ltb_ge in Hi. intros H. split; [exact Hi|].
  destruct (List.length s) as [|k]; cbn [Count_loop] in H; cbv zeta in H; [lia|].
  destruct (Index (skipn (Z.to_nat (Index s sub + len sub)) s) sub <? 0) eqn:Hj; [lia|].
  now apply Z.ltb_ge in Hj.
Qed.

Lemma LastIndexByte_range (s : bytes) (c : ascii) :
  -1 <= LastIndexByte s c < len s.
Proof.
  induction s as [|x s IH]; simpl; [unfold len; simpl; lia|].
  rewrite len_cons. destruct (0 <=? LastIndexByte s c) eqn:Hr.
  - lia.
  - pose proof (len_nonneg s). destruct (Ascii.eqb x c); lia.
Qed.

Lemma LastIndexAny_range (s chars : bytes) :
  -1 <= LastIndexAny s chars < len s.
Proof.
  induction s as [|x s IH]; simpl; [unfold len; simpl; lia|].
  rewrite len_cons. destruct (0 <=? LastIndexAny s chars) eqn:Hr.
  - lia.
  - pose proof (len_nonneg s). destruct (byte_in chars x); lia.
Qed.

Lemma LastIndexByte_In (s : bytes) (c : ascii) : In c s -> 0 <= LastIndexByte s c.
Proof.
  induction s as [|x s IH]; simpl; [tauto|].
  intros [-> | Hin].
  - destruct (0 <=? LastIndexByte s c) eqn:Hr.
    + apply Z.leb_le in Hr. lia.
    + rewrite Ascii.eqb_refl. lia.
  - specialize (IH Hin). apply Z.leb_le in IH as Hr. rewrite Hr. lia.
Qed.

(** The byte which a one-byte [Index] finds is found by [LastIndexByte]. *)
Lemma Index_byte_LastIndexByte (s : bytes) (c : ascii) :
  0 <= Index s [c] -> 0 <= LastIndexByte s c.
Proof.
  intros H. apply LastIndexByte_In.
  apply Index_found in H. apply HasPrefix_app in H as [r Hr].
  rewrite <- (firstn_skipn (Z.to_nat (Index s [c])) s), Hr.
  apply in_or_app. right. now left.
Qed.

(** No newline at all: none in a prefix either. *)
Lemma LastIndexByte_none_firstn (n : nat) (s : bytes) (c : ascii) :
  LastIndexByte s c < 0 -> LastIndexByte (firstn n s) c < 0.
Proof.
  revert n. induction s as [|x s IH]; intros n.
  - rewrite firstn_nil. auto.
  - simpl. destruct (0 <=? LastIndexByte s c) eqn:Hr.
    + apply Z.leb_le in Hr. lia.
    + apply Z.leb_gt in Hr. destruct (Ascii.eqb x c) eqn:Hx; [lia|]. intros _.
      destruct n as [|n]; simpl; [lia|].
      specialize (IH n Hr).
      destruct (0 <=? LastIndexByte (firstn n s) c) eqn:Hq.
      * apply Z.leb_le in Hq. lia.
      * rewrite Hx. lia.
Qed.

End CountFacts.

(** ** [splitResponse]: bounds and panics *)

Section SplitFacts.

Import strings.

Variable MatchString : bytes -> bytes -> option bool.

Lemma Returns_inj {A : Type} (a b : A) : Returns a = Returns b -> a = b.
Proof. congruence. Qed.

Lemma slice_to_returns (s : bytes) (i : Z) :
  0 <= i <= len s -> slice_to s i = Returns (firstn (Z.to_nat i) s).
Proof.
  intros H. unfold slice_to.
  destruct (0 <=? i) eqn:H0; destruct (i <=? len s) eqn:H1; simpl; try reflexivity; lia.
Qed.

Lemma slice_from_returns (s : bytes) (i : Z) :
  0 <= i <= len s -> slice_from s i = Returns (skipn (Z.to_nat i) s).
Proof.
  intros H. unfold slice_from.
  destruct (0 <=? i) eqn:H0; destruct (i <=? len s) eqn:H1; simpl; try reflexivity; lia.
Qed.

Lemma len_firstn (s : bytes) (i : Z) : 0 <= i <= len s -> len (firstn (Z.to_nat i) s) = i.
Proof.
  intros H. unfold len in *. rewrite length_firstn. lia.
Qed.

Lemma len_skipn (s : bytes) (i : Z) : 0 <= i <= len s -> len (skipn (Z.to_nat i) s) = len s - i.
Proof.
  intros H. unfold len in *. rewrite length_skipn. lia.
Qed.

(** The test [(backquotes & 1) == 1] holds only when a backquote occurs. *)
Lemma odd_backquotes_found (t : bytes) :
  Z.land (Count t [backquote]) 1 = 1 -> 0 <= LastIndexByte t backquote.
Proof.
  intros H. apply Index_byte_LastIndexByte. apply Count_positive.
  pose proof (Count_loop_nonneg (S (List.length t)) t [backquote]) as Hn.
  fold (Count t [backquote]) in Hn.
  destruct (Z.eq_dec (Count t [backquote]) 0) as [E|E]; [rewrite E in H; discriminate | lia].
Qed.

Lemma sentenceWindow_len (t : bytes) : len (sentenceWindow t) <= len t.
Proof.
  unfold sentenceWindow. destruct (Z.land (Count t [backquote]) 1 =? 1) eqn:H; [|lia].
  apply Z.eqb_eq, odd_backquotes_found in H.
  pose proof (LastIndexByte_range t backquote). rewrite len_firstn; lia.
Qed.

(** The function after the fence test, case by case, without the slices. *)
Lemma splitResponse_unfenced_eq (t : bytes) :
  splitResponse_unfenced MatchString t =
  match t with
  | [] => Returns 0
  | _ :: _ =>
      if 10 <=? LastIndexByte t LF then Returns (LastIndexByte t LF + 1)
      else if HasPrefix t (str "- ") || HasPrefix t (str "* ") then Returns 0
      else match MatchString t enumExpr with
           | None => Panics
           | Some true => Returns 0
           | Some false =>
               if len t <? 10 then Returns 0
               else if LastIndexAny (sentenceWindow t) (str ".?!") =? -1 then Returns 0
               else Returns (LastIndexAny (sentenceWindow t) (str ".?!") + 1)
           end
  end.
Proof.
  destruct t as [|c t]; [reflexivity|].
  unfold splitResponse_unfenced.
  destruct (10 <=? LastIndexByte (c :: t) LF); [reflexivity|].
  destruct (HasPrefix (c :: t) (str "- ") || HasPrefix (c :: t) (str "* ")); [reflexivity|].
  cbn [negb]. destruct (MatchString (c :: t) enumExpr) as [[|]|]; try reflexivity.
  cbn [bind]. destruct (len (c :: t) <? 10); [reflexivity|].
  unfold sentenceWindow.
  destruct (Z.land (Count (c :: t) [backquote]) 1 =? 1) eqn:Hodd.
  - apply Z.eqb_eq, odd_backquotes_found in Hodd.
    pose proof (LastIndexByte_range (c :: t) backquote) as Hr.
    rewrite slice_to_returns by lia. cbn [bind].
    rewrite slice_from_returns by (pose proof (len_nonneg (firstn (Z.to_nat (LastIndexByte (c :: t) backquote)) (c :: t))); lia).
    cbn [bind]. change (Z.to_nat 0) with 0%nat. rewrite skipn_O.
    destruct (LastIndexAny _ _ =? -1); reflexivity.
  - cbn [bind]. rewrite slice_from_returns by (pose proof (len_nonneg (c :: t)); lia).
    cbn [bind]. change (Z.to_nat 0) with 0%nat. rewrite skipn_O.
    destruct (LastIndexAny _ _ =? -1); reflexivity.
Qed.

(** A result of the function after the fence test is a position of [t]. *)
Lemma splitResponse_unfenced_bound (t : bytes) (i : Z) :
  splitResponse_unfenced MatchString t = Returns i -> 0 <= i <= len t.
Proof.
  rewrite splitResponse_unfenced_eq. destruct t as [|c t].
  - intros H%Returns_inj. subst i. unfold len. simpl. lia.
  - set (s := c :: t). pose proof (len_nonneg s) as Hs.
    pose proof (LastIndexByte_range s LF) as Hl.
    pose proof (LastIndexAny_range (sentenceWindow s) (str ".?!")) as Ha.
    pose proof (sentenceWindow_len s) as Hw.
    destruct (10 <=? LastIndexByte s LF) eqn:H10.
    { apply Z.leb_le in H10. intros H%Returns_inj. lia. }
    destruct (HasPrefix s (str "- ") || HasPrefix s (str "* ")).
    { intros H%Returns_inj. lia. }
    destruct (MatchString s enumExpr) as [[|]|]; try discriminate.
    { intros H%Returns_inj. lia. }
    destruct (len s <? 10).
    { intros H%Returns_inj. lia. }
    destruct (LastIndexAny (sentenceWindow s) (str ".?!") =? -1).
    { intros H%Returns_inj. lia. }
    intros H%Returns_inj. lia.
Qed.

End SplitFacts.

Section FenceFacts.

Import strings.

Variable MatchString : bytes -> bytes -> option bool.

Lemma fence_len : len fence = 3.
Proof. reflexivity. Qed.

Lemma Count_zero_none (s sub : bytes) : Count s sub <= 0 -> Index s sub < 0.
Proof.
  unfold Count. cbn [Count_loop]. cbv zeta. destruct (Index s sub <? 0) eqn:Hi.
  - intros _. now apply Z.ltb_lt in Hi.
  - pose proof (Count_loop_nonneg (List.length s)
                  (skipn (Z.to_nat (Index s sub + len sub)) s) sub). lia.
Qed.

Lemma Count_loop_nil (k : nat) : Count_loop k [] fence = 0.
Proof. destruct k; reflexivity. Qed.

(** The three cases of the fence test, without the slices. *)
Lemma splitResponse_eq (t : bytes) :
  splitResponse MatchString t =
  if 2 <=? Count t fence
  then Returns (Index (skipn (Z.to_nat (Index t fence + 3)) t) fence
                + (Index t fence + 3) + 3)
  else splitResponse_unfenced MatchString (beforeFence t).
Proof.
  unfold splitResponse, beforeFence. destruct (Count t fence =? 1) eqn:H1.
  - apply Z.eqb_eq in H1. rewrite H1. change (2 <=? 1) with false. cbv iota.
    assert (Hp : 1 <= Count t fence) by lia. apply Count_positive in Hp.
    pose proof (Index_range t fence) as [_ Hr]. specialize (Hr Hp).
    rewrite slice_to_returns by (rewrite fence_len in Hr; lia). reflexivity.
  - destruct (2 <=? Count t fence) eqn:H2; [|reflexivity].
    apply Z.leb_le, Count_two_found in H2 as [Hi Hj].
    pose proof (Index_range t fence) as [_ Hr]. specialize (Hr Hi).
    rewrite fence_len in *. rewrite slice_from_returns by lia. reflexivity.
Qed.

Lemma beforeFence_len (t : bytes) : len (beforeFence t) <= len t.
Proof.
  unfold beforeFence. destruct (Count t fence =? 1) eqn:H1; [|lia].
  apply Z.eqb_eq in H1. assert (Hp : 1 <= Count t fence) by lia.
  apply Count_positive in Hp. pose proof (Index_range t fence) as [_ Hr].
  specialize (Hr Hp). rewrite fence_len in Hr. rewrite len_firstn; lia.
Qed.

(** Whenever [splitResponse] returns, it returns a position of [t]: the
    slices [pending[:i]] and [pending[i:]] of its caller are in bounds. *)
Lemma splitResponse_bound (t : bytes) (i : Z) :
  splitResponse MatchString t = Returns i -> 0 <= i <= len t.
Proof.
  rewrite splitResponse_eq. destruct (2 <=? Count t fence) eqn:H2.
  - apply Z.leb_le, Count_two_found in H2 as [Hi Hj]. rewrite fence_len in Hj.
    pose proof (Index_range t fence) as [_ Hr]. specialize (Hr Hi).
    pose proof (Index_range (skipn (Z.to_nat (Index t fence + 3)) t) fence) as [_ Hs].
    specialize (Hs Hj). rewrite fence_len in *. rewrite len_skipn in Hs by lia.
    intros H%Returns_inj. lia.
  - intros H%splitResponse_unfenced_bound. pose proof (beforeFence_len t). lia.
Qed.

(** [splitResponse] panics exactly when the enumeration test is reached and
    the pending text does not compile as a regular expression. *)
Lemma splitResponse_panics_iff (t : bytes) :
  splitResponse MatchString t = Panics <->
  Count t fence < 2 /\
  beforeFence t <> [] /\
  LastIndexByte (beforeFence t) LF < 10 /\
  HasPrefix (beforeFence t) (str "- ") || HasPrefix (beforeFence t) (str "* ") = false /\
  MatchString (beforeFence t) enumExpr = None.
Proof.
  rewrite splitResponse_eq, splitResponse_unfenced_eq.
  destruct (2 <=? Count t fence) eqn:H2.
  { apply Z.leb_le in H2. split; [discriminate | lia]. }
  apply Z.leb_gt in H2.
  destruct (beforeFence t) as [|c u] eqn:Hu.
  { split; [discriminate | intros (_ & H & _); congruence]. }
  destruct (10 <=? LastIndexByte (c :: u) LF) eqn:H10.
  { apply Z.leb_le in H10. split; [discriminate | lia]. }
  apply Z.leb_gt in H10.
  destruct (HasPrefix (c :: u) (str "- ") || HasPrefix (c :: u) (str "* ")).
  { split; [discriminate | intros (_ & _ & _ & H & _); discriminate]. }
  destruct (MatchString (c :: u) enumExpr) as [[|]|].
  - split; [discriminate | intros (_ & _ & _ & _ & H); discriminate].
  - split; [|intros (_ & _ & _ & _ & H); discriminate].
    destruct (len (c :: u) <? 10); [discriminate|].
    destruct (LastIndexAny _ _ =? -1); discriminate.
  - split; [intros _ | reflexivity]. repeat split; try assumption; discriminate.
Qed.

(** The text at a second fence marker decomposes around the two markers. *)
Lemma two_fences_split (t : bytes) :
  0 <= Index t fence ->
  0 <= Index (skipn (Z.to_nat (Index t fence + 3)) t) fence ->
  exists a b rest,
    t = a ++ fence ++ b ++ fence ++ rest /\
    len a = Index t fence /\
    len b = Index (b ++ fence ++ rest) fence /\
    skipn (Z.to_nat (Index t fence + 3)) t = b ++ fence ++ rest.
Proof.
  intros Hi Hj.
  pose proof (Index_range t fence) as [_ Hr]. specialize (Hr Hi). rewrite fence_len in Hr.
  set (i := Index t fence) in *. set (u := skipn (Z.to_nat (i + 3)) t) in *.
  pose proof (Index_range u fence) as [_ Hs]. specialize (Hs Hj). rewrite fence_len in Hs.
  set (j := Index u fence) in *.
  pose proof (Index_found t fence Hi) as Hf. fold i in Hf.
  apply HasPrefix_app in Hf as [r1 Hr1].
  pose proof (Index_found u fence Hj) as Hg. fold j in Hg.
  apply HasPrefix_app in Hg as [rest Hrest].
  assert (Hu : u = r1).
  { unfold u. replace (Z.to_nat (i + 3)) with (3 + Z.to_nat i)%nat by lia.
    rewrite <- skipn_skipn, Hr1. reflexivity. }
  exists (firstn (Z.to_nat i) t), (firstn (Z.to_nat j) u), rest.
  assert (Hb : u = firstn (Z.to_nat j) u ++ fence ++ rest).
  { rewrite <- Hrest. symmetry. apply firstn_skipn. }
  repeat split.
  - rewrite <- Hb, Hu, <- Hr1. symmetry. apply firstn_skipn.
  - apply len_firstn. lia.
  - rewrite <- Hb. fold j. apply len_firstn. lia.
  - exact Hb.
Qed.

End FenceFacts.

(** ** [splitResponse]: the fence markers *)

Section FenceClaims.

Import strings.

Variable MatchString : bytes -> bytes -> option bool.

Lemma Count_loop_found (k : nat) (s sub : bytes) :
  0 <= Index s sub ->
  Count_loop (S k) s sub = 1 + Count_loop k (skipn (Z.to_nat (Index s sub + len sub)) s) sub.
Proof.
  intros H. cbn [Count_loop]. cbv zeta.
  destruct (Index s sub <? 0) eqn:Hi; [apply Z.ltb_lt in Hi; lia | reflexivity].
Qed.

(** The text up to the end of the second fence marker holds two markers. *)
Lemma Count_through_second_fence (t : bytes) :
  0 <= Index t fence ->
  0 <= Index (skipn (Z.to_nat (Index t fence + 3)) t) fence ->
  Count (chunk t (Index (skipn (Z.to_nat (Index t fence + 3)) t) fence
                  + (Index t fence + 3) + 3)) fence = 2.
Proof.
  intros Hi Hj.
  pose proof (Index_range t fence) as [_ Hr]. specialize (Hr Hi). rewrite fence_len in Hr.
  set (i := Index t fence) in *. set (u := skipn (Z.to_nat (i + 3)) t) in *.
  pose proof (Index_range u fence) as [_ Hs]. specialize (Hs Hj). rewrite fence_len in Hs.
  set (j := Index u fence) in *.
  assert (Hu : len u = len t - (i + 3)) by (unfold u; apply len_skipn; lia).
  unfold chunk. set (n := Z.to_nat (j + (i + 3) + 3)).
  assert (Hn : List.length (firstn n t) = n).
  { rewrite length_firstn. unfold len in *. lia. }
  assert (Hi' : Index (firstn n t) fence = i).
  { apply Index_firstn_keep; [exact Hi | rewrite fence_len; fold i; lia]. }
  unfold Count. rewrite Count_loop_found by (rewrite Hi'; exact Hi).
  rewrite Hi', fence_len, Hn, skipn_firstn_comm. fold u.
  replace (n - Z.to_nat (i + 3))%nat with (Z.to_nat (j + 3)) by lia.
  assert (Hj' : Index (firstn (Z.to_nat (j + 3)) u) fence = j).
  { apply Index_firstn_keep; [exact Hj | rewrite fence_len; fold j; lia]. }
  assert (Hpos : n = S (Nat.pred n)) by lia. rewrite Hpos.
  rewrite Count_loop_found by (rewrite Hj'; exact Hj).
  rewrite Hj', fence_len, skipn_firstn_comm, Nat.sub_diag, firstn_O, Count_loop_nil.
  reflexivity.
Qed.

Lemma beforeFence_no_fence (t : bytes) :
  Count t fence < 2 -> Index (beforeFence t) fence < 0.
Proof.
  intros H2. unfold beforeFence. destruct (Count t fence =? 1) eqn:H1.
  - apply Z.eqb_eq in H1. apply Index_before_first; [discriminate|].
    apply Count_positive. lia.
  - apply Z.eqb_neq in H1. apply Count_zero_none.
    pose proof (Count_loop_nonneg (S (List.length t)) t fence) as Hn.
    fold (Count t fence) in Hn. lia.
Qed.

(** A chunk cut within the text before the fence is a chunk of that text. *)
Lemma chunk_beforeFence (t : bytes) (i : Z) :
  0 <= i <= len (beforeFence t) -> chunk t i = chunk (beforeFence t) i.
Proof.
  unfold beforeFence, chunk. destruct (Count t fence =? 1); [|reflexivity].
  intros H. rewrite firstn_firstn. f_equal.
  unfold len in H. rewrite length_firstn in H. lia.
Qed.

(** C2.  With two or more fence markers in the pending text, the result is
    the position just past the second marker: the text is
    [a ++ fence ++ b ++ fence ++ rest] with the first marker after [a] and
    the next one after [b], the chunk is [a ++ fence ++ b ++ fence], the
    first complete block with what precedes it, and [rest] is kept; no other
    rule is looked at (the matcher is arbitrary). *)
Theorem splitResponse_two_fences (t : bytes) :
  2 <= Count t fence ->
  exists a b rest,
    t = a ++ fence ++ b ++ fence ++ rest /\
    Index t fence = len a /\
    Index (b ++ fence ++ rest) fence = len b /\
    splitResponse MatchString t = Returns (len (a ++ fence ++ b ++ fence)) /\
    chunk t (len (a ++ fence ++ b ++ fence)) = a ++ fence ++ b ++ fence /\
    remainder t (len (a ++ fence ++ b ++ fence)) = rest.
Proof.
  intros H2. rewrite splitResponse_eq.
  apply Z.leb_le in H2 as H2b. rewrite H2b.
  apply Count_two_found in H2 as [Hi Hj]. rewrite fence_len in Hj.
  destruct (two_fences_split t Hi Hj) as (a & b & rest & Ht & Ha & Hb & Hu).
  exists a, b, rest.
  assert (Hlen : len (a ++ fence ++ b ++ fence) = len b + (len a + 3) + 3).
  { rewrite !len_app, fence_len. lia. }
  assert (Hnat : Z.to_nat (len (a ++ fence ++ b ++ fence))
                 = List.length (a ++ fence ++ b ++ fence)).
  { unfold len. lia. }
  repeat split.
  - exact Ht.
  - symmetry. exact Ha.
  - symmetry. exact Hb.
  - rewrite Hu, <- Hb, <- Ha, Hlen. reflexivity.
  - unfold chunk. rewrite Hnat. rewrite Ht at 1.
    replace (a ++ fence ++ b ++ fence ++ rest)
      with ((a ++ fence ++ b ++ fence) ++ rest) by (now rewrite <- !app_assoc).
    rewrite firstn_app, Nat.sub_diag, firstn_O, app_nil_r. apply firstn_all.
  - unfold remainder. rewrite Hnat. rewrite Ht at 1.
    replace (a ++ fence ++ b ++ fence ++ rest)
      with ((a ++ fence ++ b ++ fence) ++ rest) by (now rewrite <- !app_assoc).
    rewrite skipn_app, Nat.sub_diag, skipn_all. reflexivity.
Qed.

(** C3, as the code has it.  A chunk that [splitResponse] cuts holds an even
    number of fence markers, so it does not end inside a fenced block: the
    two markers of the first complete block when the pending text has two or
    more, none otherwise. *)
Theorem chunk_fences_balanced (t : bytes) (i : Z) :
  splitResponse MatchString t = Returns i ->
  0 < i ->
  Count (chunk t i) fence = (if 2 <=? Count t fence then 2 else 0).
Proof.
  rewrite splitResponse_eq. destruct (2 <=? Count t fence) eqn:H2.
  - apply Z.leb_le, Count_two_found in H2 as [Hi Hj]. rewrite fence_len in Hj.
    intros H%Returns_inj _. subst i. now apply Count_through_second_fence.
  - apply Z.leb_gt in H2. intros H _.
    apply splitResponse_unfenced_bound in H.
    rewrite chunk_beforeFence by exact H.
    apply Count_none, Index_none_firstn, beforeFence_no_fence, H2.
Qed.

(** C4, as the code has it.  A pending text that begins a bulleted item
    ("- " or "* "), has no newline and fewer than two fence markers makes
    [splitResponse] return 0, whatever its length. *)
Theorem splitResponse_bullet_waits (t : bytes) :
  HasPrefix t (str "- ") || HasPrefix t (str "* ") = true ->
  LastIndexByte t LF < 0 ->
  Count t fence < 2 ->
  splitResponse MatchString t = Returns 0.
Proof.
  intros Hb Hn H2. rewrite splitResponse_eq.
  apply Z.leb_gt in H2 as H2b. rewrite H2b, splitResponse_unfenced_eq.
  assert (Hu : LastIndexByte (beforeFence t) LF < 0
               /\ (beforeFence t = [] \/
                   HasPrefix (beforeFence t) (str "- ")
                   || HasPrefix (beforeFence t) (str "* ") = true)).
  { unfold beforeFence. destruct (Count t fence =? 1) eqn:H1; [|now auto].
    split; [now apply LastIndexByte_none_firstn|]. right.
    apply Z.eqb_eq in H1. assert (Hp : 1 <= Count t fence) by lia.
    apply Count_positive in Hp.
    assert (Hge : (2 <= Z.to_nat (Index t fence))%nat).
    { destruct t as [|c0 t1]; [cbn in Hb; discriminate Hb|].
      destruct t1 as [|c1 r].
      { apply orb_true_iff in Hb as [Hb|Hb]; cbn in Hb;
          apply andb_true_iff in Hb as [_ Hb]; discriminate Hb. }
      assert (Hc : Ascii.eqb c0 backquote = false /\ Ascii.eqb c1 backquote = false).
      { apply orb_true_iff in Hb as [Hb|Hb]; cbn in Hb;
          apply andb_true_iff in Hb as [Hc0 Hb]; apply andb_true_iff in Hb as [Hc1 _];
          apply Ascii.eqb_eq in Hc0, Hc1; subst; split; reflexivity. }
      destruct Hc as [Hc0 Hc1].
      assert (F0 : HasPrefix (c0 :: c1 :: r) fence = false)
        by (cbn; fold backquote; now rewrite Hc0).
      assert (F1 : HasPrefix (c1 :: r) fence = false)
        by (cbn; fold backquote; now rewrite Hc1).
      revert Hp. cbn [Index]. rewrite F0, F1. cbv zeta.
      destruct (Index r fence <? 0) eqn:Hi.
      - change (-1 <? 0) with true. cbv iota. lia.
      - apply Z.ltb_ge in Hi.
        destruct (Index r fence + 1 <? 0) eqn:Hk; [apply Z.ltb_lt in Hk; lia|].
        intros _. lia. }
    apply orb_true_iff in Hb as [Hb|Hb]; apply orb_true_iff; [left|right];
      (apply HasPrefix_firstn_keep; [exact Hb | exact Hge]). }
  destruct Hu as [Hlf [He|Hp]].
  - now rewrite He.
  - destruct (beforeFence t) as [|c u]; [reflexivity|].
    destruct (10 <=? LastIndexByte (c :: u) LF) eqn:H10; [apply Z.leb_le in H10; lia|].
    now rewrite Hp.
Qed.

End FenceClaims.

(** ** [splitResponse] with Go's matcher *)

Lemma Agrees_MatchString : GoRegexp.Agrees GoRegexp.MatchString.
Proof.
  intros pattern s _. unfold GoRegexp.MatchString.
  destruct (GoRegexp.Compile pattern); auto.
Qed.

Lemma enumExpr_ascii : forallb GoRegexp.is_ascii enumExpr = true.
Proof. vm_compute. reflexivity. Qed.

Lemma Agrees_parsed (rx : bytes -> bytes -> option bool) (pattern : bytes)
    (r : GoRegexp.Regexp) :
  GoRegexp.Agrees rx -> GoRegexp.Compile pattern = GoRegexp.Parsed r ->
  rx pattern enumExpr = Some (GoRegexp.match_anywhere r true enumExpr).
Proof. intros H Hc. specialize (H pattern enumExpr enumExpr_ascii). now rewrite Hc in H. Qed.

Lemma Agrees_error (rx : bytes -> bytes -> option bool) (pattern : bytes) :
  GoRegexp.Agrees rx -> GoRegexp.Compile pattern = GoRegexp.SyntaxError ->
  rx pattern enumExpr = None.
Proof. intros H Hc. specialize (H pattern enumExpr enumExpr_ascii). now rewrite Hc in H. Qed.

Example regexp_unclosed_group : GoRegexp.Compile (str "Sure (") = GoRegexp.SyntaxError.
Proof. vm_compute. reflexivity. Qed.

Example regexp_stray_parenthesis : GoRegexp.Compile (str "a)") = GoRegexp.SyntaxError.
Proof. vm_compute. reflexivity. Qed.

Example regexp_stacked_operators : GoRegexp.Compile (str "wow**") = GoRegexp.SyntaxError.
Proof. vm_compute. reflexivity. Qed.

Example regexp_no_operand : GoRegexp.Compile (str "*bold*") = GoRegexp.SyntaxError.
Proof. vm_compute. reflexivity. Qed.

Example regexp_anchors : GoRegexp.MatchString (str "(a|b)*?c$") (str "xxabac") = Some true.
Proof. vm_compute. reflexivity. Qed.

(** With its arguments in the order of the library, the call finds a
    numbered item. *)
Example regexp_numbered_item :
  GoRegexp.MatchString enumExpr (str "12. item") = Some true /\
  GoRegexp.MatchString enumExpr (str "Hello world.") = Some false.
Proof. vm_compute. split; reflexivity. Qed.

(** On a pending text of the fragment, up to its fence marker, a matcher
    that agrees with the model gives the result that the model gives. *)
Lemma splitResponse_in_fragment (rx : bytes -> bytes -> option bool) (t : bytes) :
  GoRegexp.Agrees rx ->
  GoRegexp.Compile (beforeFence t) <> GoRegexp.OutsideFragment ->
  splitResponse rx t = splitResponse GoRegexp.MatchString t.
Proof.
  intros Ha Hf. rewrite !splitResponse_eq, !splitResponse_unfenced_eq.
  assert (E : rx (beforeFence t) enumExpr = GoRegexp.MatchString (beforeFence t) enumExpr).
  { unfold GoRegexp.MatchString.
    destruct (GoRegexp.Compile (beforeFence t)) as [r| |] eqn:Hc.
    - now apply Agrees_parsed.
    - now apply Agrees_error.
    - congruence. }
  now rewrite E.
Qed.

(** A pending text that reaches the enumeration test and is not a valid
    regular expression makes [splitResponse] panic. *)
Lemma splitResponse_panics_on_syntax_error (rx : bytes -> bytes -> option bool) (t : bytes) :
  GoRegexp.Agrees rx ->
  strings.Count t fence = 0 ->
  t <> [] ->
  strings.LastIndexByte t LF < 10 ->
  strings.HasPrefix t (str "- ") || strings.HasPrefix t (str "* ") = false ->
  GoRegexp.Compile t = GoRegexp.SyntaxError ->
  splitResponse rx t = Panics.
Proof.
  intros Ha Hc Ht Hl Hb He. apply splitResponse_panics_iff.
  assert (Hu : beforeFence t = t) by (unfold beforeFence; now rewrite Hc).
  rewrite Hu. repeat split; try assumption; [lia|].
  now apply Agrees_error.
Qed.

(** C10, where the code departs from it.  On the pending text "(" the
    function panics: the text is the first argument of
    [regexp.MatchString], the pattern, and does not compile. *)
Theorem splitResponse_unclosed_group_panics (rx : bytes -> bytes -> option bool) :
  GoRegexp.Agrees rx -> splitResponse rx (str "(") = Panics.
Proof.
  intros Ha. apply splitResponse_panics_on_syntax_error; try assumption;
    try (vm_compute; congruence); vm_compute; reflexivity.
Qed.

Lemma splitResponse_unclosed_group_panics_witness :
  GoRegexp.Agrees GoRegexp.MatchString /\
  splitResponse GoRegexp.MatchString (str "(") = Panics.
Proof.
  split; [exact Agrees_MatchString|].
  apply splitResponse_unclosed_group_panics. exact Agrees_MatchString.
Defined.

(** The example of the specification for two fence markers. *)
Lemma splitResponse_two_fences_witness :
  2 <= strings.Count fencedBlockThenRest fence /\
  exists a b rest,
    fencedBlockThenRest = a ++ fence ++ b ++ fence ++ rest /\
    strings.Index fencedBlockThenRest fence = len a /\
    strings.Index (b ++ fence ++ rest) fence = len b /\
    splitResponse GoRegexp.MatchString fencedBlockThenRest
      = Returns (len (a ++ fence ++ b ++ fence)) /\
    chunk fencedBlockThenRest (len (a ++ fence ++ b ++ fence)) = a ++ fence ++ b ++ fence /\
    remainder fencedBlockThenRest (len (a ++ fence ++ b ++ fence)) = rest.
Proof.
  assert (H : 2 <= strings.Count fencedBlockThenRest fence)
    by (apply Z.leb_le; vm_compute; reflexivity).
  split; [exact H|]. apply splitResponse_two_fences. exact H.
Defined.

Example splitResponse_fenced_block :
  splitResponse GoRegexp.MatchString fencedBlockThenRest = Returns 18 /\
  chunk fencedBlockThenRest 18 = str "```python" ++ [LF] ++ str "code" ++ [LF] ++ str "```" /\
  remainder fencedBlockThenRest 18 = str "rest".
Proof. vm_compute. repeat split. Qed.

Example splitResponse_sentence :
  splitResponse GoRegexp.MatchString (str "Hello world. More text") = Returns 12 /\
  chunk (str "Hello world. More text") 12 = str "Hello world." /\
  remainder (str "Hello world. More text") 12 = str " More text".
Proof. vm_compute. repeat split. Qed.

Lemma chunk_fences_balanced_witness :
  splitResponse GoRegexp.MatchString fencedBlockThenRest = Returns 18 /\
  0 < 18 /\
  strings.Count (chunk fencedBlockThenRest 18) fence
  = (if 2 <=? strings.Count fencedBlockThenRest fence then 2 else 0).
Proof.
  assert (H : splitResponse GoRegexp.MatchString fencedBlockThenRest = Returns 18)
    by (vm_compute; reflexivity).
  split; [exact H|]. split; [lia|].
  apply (chunk_fences_balanced GoRegexp.MatchString fencedBlockThenRest 18 H). lia.
Defined.

(** C3 as it is stated fails: a newline at or after offset 10 is taken as
    the place to cut before any backquote is looked at, and the chunk ends
    inside the inline span that the next line closes. *)
Lemma newline_split_inside_inline_span :
  splitResponse GoRegexp.MatchString spanAcrossLines = Returns 12 /\
  chunk spanAcrossLines 12 = str "Hello `code" ++ [LF] /\
  Z.odd (strings.Count (chunk spanAcrossLines 12) [backquote]) = true.
Proof. vm_compute. repeat split. Qed.

(** The search for the end of a sentence does not keep clear of a closed
    inline span either: the comment above it announces it for [`foo.bar`]. *)
Example sentence_split_inside_inline_span :
  splitResponse GoRegexp.MatchString (str "see `foo.bar` now") = Returns 9 /\
  chunk (str "see `foo.bar` now") 9 = str "see `foo.".
Proof. vm_compute. repeat split. Qed.

(** C4 as it is stated fails: two fence markers come first. *)
Lemma bullet_with_fenced_block_is_cut :
  strings.HasPrefix (str "- ```a```") (str "- ") = true /\
  strings.LastIndexByte (str "- ```a```") LF = -1 /\
  splitResponse GoRegexp.MatchString (str "- ```a```") = Returns 9.
Proof. vm_compute. repeat split. Qed.

Lemma splitResponse_bullet_waits_witness :
  strings.HasPrefix (str "- item one") (str "- ")
  || strings.HasPrefix (str "- item one") (str "* ") = true /\
  strings.LastIndexByte (str "- item one") LF < 0 /\
  strings.Count (str "- item one") fence < 2 /\
  splitResponse GoRegexp.MatchString (str "- item one") = Returns 0.
Proof.
  assert (H1 : strings.HasPrefix (str "- item one") (str "- ")
               || strings.HasPrefix (str "- item one") (str "* ") = true)
    by (vm_compute; reflexivity).
  assert (H2 : strings.LastIndexByte (str "- item one") LF < 0)
    by (vm_compute; reflexivity).
  assert (H3 : strings.Count (str "- item one") fence < 2)
    by (vm_compute; reflexivity).
  split; [exact H1|]. split; [exact H2|]. split; [exact H3|].
  apply splitResponse_bullet_waits; assumption.
Defined.

(** A numbered item is not held back: the pattern and the text are swapped
    in the call to [regexp.MatchString], and the text seen as a pattern does
    not match the string "^\d+\. .*". *)
Example numbered_item_is_cut (rx : bytes -> bytes -> option bool) :
  GoRegexp.Agrees rx ->
  splitResponse rx (str "1. item one is here. More") = Returns 20.
Proof.
  intros Ha. rewrite (splitResponse_in_fragment rx) by (assumption || (vm_compute; congruence)).
  vm_compute. reflexivity.
Qed.

(** ** The reply streaming loop *)

Section StreamFacts.

Variable MatchString : bytes -> bytes -> option bool.
Variable req : msgReq.

Lemma emitted_app (a b : list DiscordCall) : emitted (a ++ b) = emitted a ++ emitted b.
Proof.
  induction a as [|c a IH]; [reflexivity|].
  destruct c; simpl; rewrite IH; try reflexivity. now rewrite app_assoc.
Qed.

(** A tick moves a prefix of the pending text to the text that is sent, and
    posts it. *)
Lemma onTick_conserves (sent : option bytes) (st st' : streamState) :
  onTick MatchString req sent st = Returns st' ->
  text st' ++ pending st' = text st ++ pending st /\
  exists c, text st' = text st ++ c /\ emitted (posted st') = emitted (posted st) ++ c.
Proof.
  unfold onTick. destruct (splitResponse MatchString (pending st)) as [i|] eqn:Hs;
    [|discriminate].
  cbn [bind]. apply splitResponse_bound in Hs.
  destruct (i =? 0).
  - intros H%Returns_inj. subst st'. split; [reflexivity|].
    exists []. now rewrite !app_nil_r.
  - rewrite slice_to_returns, slice_from_returns by exact Hs. cbn [bind].
    intros H%Returns_inj. subst st'. cbn [text pending posted]. split.
    + now rewrite <- app_assoc, firstn_skipn.
    + exists (firstn (Z.to_nat i) (pending st)). split; [reflexivity|].
      rewrite emitted_app. cbn [emitted]. now rewrite app_nil_r.
Qed.

(** The closed channel: a non-empty pending text is posted whole, in one
    message; an empty one posts nothing. *)
Lemma onClosed_flushes (st : streamState) :
  text (onClosed req st) = text st ++ pending st /\
  posted (onClosed req st) =
    posted st ++
    (if is_empty (pending st) then []
     else [ChannelMessageSendComplex (channelID req) (pending st)
             (reference_of req (replyTo st))]).
Proof.
  unfold onClosed. destruct (pending st) as [|c p] eqn:Hp; cbn [is_empty negb].
  - now rewrite !app_nil_r.
  - cbn [text posted]. split; reflexivity.
Qed.

(** When the loop ends without a panic, what was posted is what had been
    posted, then the pending text, then every word received. *)
Lemma streamLoop_conserves (events : list streamEvent) (st st' : streamState) :
  streamLoop MatchString req events st = Returns st' ->
  text st' = text st ++ pending st ++ tokens events /\
  emitted (posted st') = emitted (posted st) ++ pending st ++ tokens events.
Proof.
  revert st. induction events as [|[w|sent] events IH]; intros st; cbn [streamLoop tokens].
  - intros H%Returns_inj. subst st'. rewrite app_nil_r.
    destruct (onClosed_flushes st) as [Ht Hp]. rewrite Ht, Hp, emitted_app.
    split; [reflexivity|]. f_equal.
    destruct (pending st); cbn; [reflexivity | now rewrite app_nil_r].
  - intros H. apply IH in H. cbn [text pending posted] in H.
    now rewrite <- !app_assoc in H.
  - destruct (onTick MatchString req sent st) as [st1|] eqn:Ht; [|discriminate].
    intros H. apply IH in H as [H1 H2].
    apply onTick_conserves in Ht as (Hk & c & Hc & He).
    rewrite H1, H2, He, Hc. rewrite Hc in Hk.
    rewrite <- app_assoc in Hk. apply app_inv_head in Hk.
    rewrite <- !app_assoc. rewrite <- Hk, <- !app_assoc. auto.
Qed.

(** When [handlePrompt] returns, the replies carry the whole stream and the
    turn added last to the conversation is the assistant's, with that
    text. *)
Lemma handlePrompt_conserves (systemPrompt : bytes) (history : list Message)
    (events : list streamEvent) (failure : error)
    (messages : list Message) (calls : list DiscordCall) :
  handlePrompt MatchString systemPrompt history req events failure
    = Returns (messages, calls) ->
  emitted calls = tokens events /\
  exists earlier,
    messages = earlier ++ [{| role := Assistant; Content := tokens events |}].
Proof.
  unfold handlePrompt.
  destruct (streamLoop MatchString req events (streamStart req)) as [st|] eqn:Hs;
    [|discriminate].
  apply streamLoop_conserves in Hs as [Ht Hp]. cbn in Ht, Hp.
  cbn [bind]. rewrite Ht.
  destruct failure as [err|]; intros H%Returns_inj; injection H as <- <-.
  - split; [|eexists; reflexivity].
    rewrite emitted_app. cbn [emitted]. now rewrite app_nil_r.
  - split; [exact Hp | eexists; reflexivity].
Qed.

(** A tick on which [splitResponse] panics ends the loop. *)
Lemma streamLoop_tick_panics (sent : option bytes) (events : list streamEvent)
    (st : streamState) :
  splitResponse MatchString (pending st) = Panics ->
  streamLoop MatchString req (Tick sent :: events) st = Panics.
Proof.
  intros H. cbn [streamLoop]. unfold onTick. now rewrite H.
Qed.

End StreamFacts.

(** C1, where the code departs from it.  The words "Sure" and " (" followed
    by a tick: the pending text "Sure (" is compiled as a regular expression,
    which fails, and the goroutine panics.  Nothing is posted, the
    conversation gets no assistant turn, and the words that follow are never
    read. *)
Theorem handlePrompt_unclosed_group_panics (rx : bytes -> bytes -> option bool)
    (systemPrompt : bytes) (history : list Message) (req : msgReq) (failure : error) :
  GoRegexp.Agrees rx ->
  handlePrompt rx systemPrompt history req unclosedGroupStream failure = Panics.
Proof.
  intros Ha.
  assert (Hp : splitResponse rx (str "Sure (") = Panics).
  { apply splitResponse_panics_on_syntax_error; try assumption;
      try (vm_compute; congruence); vm_compute; reflexivity. }
  unfold handlePrompt, unclosedGroupStream.
  cbn [streamLoop streamStart text pending posted replyTo].
  unfold onTick. cbn [pending].
  change (([] ++ str "Sure") ++ str " (") with (str "Sure (").
  rewrite Hp. reflexivity.
Qed.

Lemma handlePrompt_unclosed_group_panics_witness :
  GoRegexp.Agrees GoRegexp.MatchString /\
  handlePrompt GoRegexp.MatchString (str "You are a bot.") []
    {| msg := str "hi"; authorID := str "42"; channelID := str "7";
       guildID := []; replyToID := str "1001" |}
    unclosedGroupStream None = Panics.
Proof.
  split; [exact Agrees_MatchString|].
  apply handlePrompt_unclosed_group_panics. exact Agrees_MatchString.
Defined.

(** ** Admission to the queues *)

Section QueueFacts.

(** The capacities are those of [newDiscordBot] and the buffers never hold
    more. *)
Lemma reachable_capacity (d : discordBot) :
  reachable d ->
  capacity (chat d) = 5%nat /\ capacity (image d) = 3%nat /\
  (List.length (buffer (chat d)) <= 5)%nat /\
  (List.length (buffer (image d)) <= 3)%nat.
Proof.
  induction 1 as [|d d' Hd IH Hstep].
  - cbn. lia.
  - destruct IH as (Hc & Hi & Hlc & Hli).
    destruct Hstep as [d req|d req|d req c Hr|d req c Hr].
    + unfold onMessageCreate, trySend. rewrite Hc.
      destruct (List.length (buffer (chat d)) <? 5)%nat eqn:Hlt; cbn [fst chat image].
      * apply Nat.ltb_lt in Hlt. cbn [buffer capacity]. rewrite length_app. cbn. lia.
      * lia.
    + unfold onImage, trySend. rewrite Hi.
      destruct (List.length (buffer (image d)) <? 3)%nat eqn:Hlt; cbn [fst chat image].
      * apply Nat.ltb_lt in Hlt. cbn [buffer capacity]. rewrite length_app. cbn. lia.
      * lia.
    + unfold receive in Hr. destruct (buffer (chat d)) as [|x xs] eqn:Hb; [discriminate|].
      injection Hr as _ <-. cbn in *. lia.
    + unfold receive in Hr. destruct (buffer (image d)) as [|x xs] eqn:Hb; [discriminate|].
      injection Hr as _ <-. cbn in *. lia.
Qed.

Lemma reachable_flood (n : nat) (d : discordBot) : reachable d -> reachable (flood n d).
Proof.
  revert d. induction n as [|n IH]; intros d Hd; [exact Hd|].
  cbn [flood]. apply IH. eapply ReachStep; [exact Hd | apply StepMessage].
Qed.

(** C5.  In every state of the two queues that the bot can reach, admission
    is decided at once, by one attempt to send.  With 5 chat requests
    waiting, a message is not queued and its author gets the "too many
    pending chat requests" reply, once; with fewer, it is queued last and no
    reply is made.  The same holds of image requests, with 3 and the "too
    many pending image requests" response. *)
Theorem admission_never_blocks (d : discordBot) (req : msgReq) (ireq : intReq) :
  reachable d ->
  ((List.length (buffer (chat d)) < 5)%nat ->
     onMessageCreate d req =
       ({| chat := {| buffer := buffer (chat d) ++ [req]; capacity := 5 |};
           image := image d |}, [])) /\
  (~ (List.length (buffer (chat d)) < 5)%nat ->
     List.length (buffer (chat d)) = 5%nat /\
     onMessageCreate d req =
       (d, [ChannelMessageSendComplex (channelID req) chatOverload
              (reference_of req (replyToID req))])) /\
  ((List.length (buffer (image d)) < 3)%nat ->
     onImage d ireq =
       ({| chat := chat d;
           image := {| buffer := buffer (image d) ++ [ireq]; capacity := 3 |} |},
        [InteractionRespondDeferred (int ireq)])) /\
  (~ (List.length (buffer (image d)) < 3)%nat ->
     List.length (buffer (image d)) = 3%nat /\
     onImage d ireq = (d, [InteractionRespond (int ireq) imageOverload])).
Proof.
  intros Hd. destruct (reachable_capacity d Hd) as (Hc & Hi & Hlc & Hli).
  unfold onMessageCreate, onImage, trySend. rewrite Hc, Hi.
  repeat split.
  - intros H. apply Nat.ltb_lt in H. now rewrite H.
  - lia.
  - apply Nat.ltb_nlt in H. now rewrite H.
  - intros H. apply Nat.ltb_lt in H. now rewrite H.
  - lia.
  - apply Nat.ltb_nlt in H. now rewrite H.
Qed.

End QueueFacts.

Lemma admission_never_blocks_witness :
  reachable (flood 6 newDiscordBot) /\
  List.length (buffer (chat (flood 6 newDiscordBot))) = 5%nat /\
  onMessageCreate (flood 6 newDiscordBot) someMsgReq =
    (flood 6 newDiscordBot,
     [ChannelMessageSendComplex (channelID someMsgReq) chatOverload
        (reference_of someMsgReq (replyToID someMsgReq))]).
Proof.
  assert (Hr : reachable (flood 6 newDiscordBot))
    by (apply reachable_flood; apply ReachNew).
  split; [exact Hr|].
  refine (proj1 (proj2 (admission_never_blocks (flood 6 newDiscordBot) someMsgReq
                          {| description := []; imagePrompt := []; labelsContent := [];
                             cmdName := []; int := None |} Hr)) _).
  vm_compute. lia.
Defined.

(** ** The worker routines *)

Section RoutineFacts.

Context {A W : Type}.
Variable poison : A -> bool.
Variable handler : A -> W -> outcome W.





End RoutineFacts.

Section RoutineClaims.

Context {W : Type}.


End RoutineClaims.

Example chatRoutine_handles_until_poison :
  chatRoutine logRequest [someMsgReq; someMsgReq; zeroMsgReq; someMsgReq] []
  = {| ending := Exited; undelivered := [someMsgReq]; wgDone := 1;
       world := [someMsgReq; someMsgReq] |}.
Proof. reflexivity. Qed.

Example chatRoutine_stopped_by_panic :
  chatRoutine (fun _ _ => Panics) [someMsgReq; zeroMsgReq] tt
  = {| ending := Crashed; undelivered := [zeroMsgReq]; wgDone := 0; world := tt |}.
Proof. reflexivity. Qed.

(** ** Readiness polling *)

Section PollFacts.

Variable url : bytes.
Variable done : option process.

(** Rounds that go on are passed over. *)
Lemma pollLoop_goesOn (pre rounds : list pollRound) :
  Forall (goesOn done) pre ->
  fst (pollLoop url done (pre ++ rounds)) = fst (pollLoop url done rounds).
Proof.
  induction 1 as [|r pre (Hc & Hr & Hs) _ IH]; [reflexivity|].
  cbn [app pollLoop]. rewrite Hc, Hr, Hs.
  destruct (pollLoop url done (pre ++ rounds)) as [e calls].
  destruct (pollLoop url done rounds) as [e' calls']. exact IH.
Qed.

Lemma pollLoop_pending (pre : list pollRound) :
  Forall (goesOn done) pre -> fst (pollLoop url done pre) = PollPending.
Proof.
  intros H. rewrite <- (app_nil_r pre). now rewrite pollLoop_goesOn.
Qed.

(** The four ways a round can go. *)
Lemma pollLoop_exit (pre : list pollRound) (r : pollRound) (post : list pollRound) :
  Forall (goesOn done) pre ->
  fst (pollLoop url done (pre ++ r :: post)) =
    if cancelled r then PollCancelled
    else if ready r then PollReady
    else match selectDone done r with
         | Some err => PollDied err
         | None => fst (pollLoop url done post)
         end.
Proof.
  intros H. rewrite pollLoop_goesOn by exact H. cbn [pollLoop].
  destruct (cancelled r); [reflexivity|]. destruct (ready r); [reflexivity|].
  destruct (selectDone done r); [reflexivity|].
  now destruct (pollLoop url done post).
Qed.

(** Every call of the loop is a request to its URL. *)
Lemma pollLoop_calls (rounds : list pollRound) :
  Forall (fun c => c = Post url) (snd (pollLoop url done rounds)).
Proof.
  induction rounds as [|r rounds IH]; cbn [pollLoop]; [constructor|].
  destruct (cancelled r); [constructor|].
  destruct (ready r); [repeat constructor|].
  destruct (selectDone done r); [repeat constructor|].
  destruct (pollLoop url done rounds) as [e calls]. cbn in *. now constructor.
Qed.

End PollFacts.

Section StartupFacts.

(** [New] after its set-up: when it is polling with no round played, it is
    what the loop makes of the rounds. *)
Lemma New_polls (deps : startupDeps) (cache : bytes) (opts : Options)
    (ig : Session) (rounds : list pollRound) :
  fst (New deps cache opts []) = StillPolling ig ->
  fst (New deps cache opts rounds) =
    afterPoll ig (fst (pollLoop (baseURL ig ++ str "/api/health") (done ig) rounds)).
Proof.
  unfold New. destruct (is_empty (Remote opts)).
  - destruct (negb (eqb_bytes (Model opts) (str "python"))); [discriminate|].
    destruct (mkdirAll deps _); [discriminate|].
    destruct (recreate deps _); [discriminate|].
    destruct (run deps _ _) as [p|err]; [|discriminate].
    cbn [pollLoop fst afterPoll]. intros H. injection H as <-.
    cbn [baseURL done].
    now destruct (pollLoop _ (Some p) rounds).
  - destruct (negb (IsHostPort deps (Remote opts))); [discriminate|].
    cbn [pollLoop fst afterPoll]. intros H. injection H as <-.
    cbn [baseURL done].
    now destruct (pollLoop _ None rounds).
Qed.

Lemma NewImageGen_polls (deps : genDeps) (cache model : bytes)
    (ig : ImageGen) (rounds : list pollRound) :
  fst (NewImageGen deps cache model []) = StillPolling ig ->
  fst (NewImageGen deps cache model rounds) =
    afterPoll ig (fst (pollLoop (url ig) (Some (gen_done ig)) rounds)).
Proof.
  unfold NewImageGen.
  destruct (negb (eqb_bytes model (str "python"))); [discriminate|].
  destruct (if pyNeedRecreate deps cache then pyRecreate deps cache else None);
    [discriminate|].
  destruct (runPython deps _ _) as [p|err]; [|discriminate].
  cbn [pollLoop fst afterPoll]. intros H. injection H as <-.
  cbn [url gen_done].
  now destruct (pollLoop _ (Some p) rounds).
Qed.

(** C7, as the code has it.  Once [New] is polling for the session [ig],
    after rounds that go on:
    - a round that finds the context cancelled ends the poll, and [New]
      returns [ig] with a nil error;
    - a round in which the server is ready ends the poll, and [New]
      returns [ig];
    - a round in which the done channel is received from ends the poll, and
      [New] returns the error "failed to start" that wraps the value
      received;
    - and [New] is still polling otherwise.
    [NewImageGen] does the same. *)
Theorem poll_exits (deps : startupDeps) (gdeps : genDeps) (cache model : bytes)
    (opts : Options) (ig : Session) (g : ImageGen)
    (pre : list pollRound) (r : pollRound) (post : list pollRound) :
  fst (New deps cache opts []) = StillPolling ig ->
  fst (NewImageGen gdeps cache model []) = StillPolling g ->
  Forall (goesOn (done ig)) pre ->
  Forall (goesOn (Some (gen_done g))) pre ->
  (fst (New deps cache opts pre) = StillPolling ig /\
   fst (NewImageGen gdeps cache model pre) = StillPolling g) /\
  (cancelled r = true ->
     fst (New deps cache opts (pre ++ r :: post)) = Started ig /\
     fst (NewImageGen gdeps cache model (pre ++ r :: post)) = Started g) /\
  (cancelled r = false -> ready r = true ->
     fst (New deps cache opts (pre ++ r :: post)) = Started ig /\
     fst (NewImageGen gdeps cache model (pre ++ r :: post)) = Started g) /\
  (cancelled r = false -> ready r = false ->
     (forall err, selectDone (done ig) r = Some err ->
        fst (New deps cache opts (pre ++ r :: post))
        = StartFailed (Errorf (str "failed to start") err)) /\
     (forall err, selectDone (Some (gen_done g)) r = Some err ->
        fst (NewImageGen gdeps cache model (pre ++ r :: post))
        = StartFailed (Errorf (str "failed to start") err))).
Proof.
  intros HN HG Hpre Hgpre.
  pose proof (New_polls deps cache opts ig) as EN. specialize (fun rs => EN rs HN).
  pose proof (NewImageGen_polls gdeps cache model g) as EG. specialize (fun rs => EG rs HG).
  split; [|split; [|split]].
  - rewrite EN, EG, !pollLoop_pending by assumption. split; reflexivity.
  - intros Hc. rewrite EN, EG, !pollLoop_exit by assumption. rewrite Hc. split; reflexivity.
  - intros Hc Hr. rewrite EN, EG, !pollLoop_exit by assumption. rewrite Hc, Hr.
    split; reflexivity.
  - intros Hc Hr. split; intros err He.
    + rewrite EN, pollLoop_exit by assumption. rewrite Hc, Hr, He. reflexivity.
    + rewrite EG, pollLoop_exit by assumption. rewrite Hc, Hr, He. reflexivity.
Qed.

End StartupFacts.

Lemma poll_exits_witness :
  fst (New someDeps (str "/cache") localOpts [])
    = StillPolling {| baseURL := str "http://localhost:8032"; done := Some 1%nat;
                      cancel := Some 1%nat; steps := 8 |} /\
  fst (NewImageGen someGenDeps (str "/cache") (str "python") [])
    = StillPolling {| gen_done := 1%nat; gen_cancel := 1%nat;
                      url := str "http://localhost:8032/"; gen_steps := 8;
                      loading := false |} /\
  Forall (goesOn (Some 1%nat)) [idleRound] /\
  fst (New someDeps (str "/cache") localOpts ([idleRound] ++ cancelledRound :: []))
    = Started {| baseURL := str "http://localhost:8032"; done := Some 1%nat;
                 cancel := Some 1%nat; steps := 8 |} /\
  fst (NewImageGen someGenDeps (str "/cache") (str "python")
         ([idleRound] ++ cancelledRound :: []))
    = Started {| gen_done := 1%nat; gen_cancel := 1%nat;
                 url := str "http://localhost:8032/"; gen_steps := 8;
                 loading := false |}.
Proof.
  assert (HN : fst (New someDeps (str "/cache") localOpts [])
               = StillPolling {| baseURL := str "http://localhost:8032"; done := Some 1%nat;
                                 cancel := Some 1%nat; steps := 8 |})
    by (vm_compute; reflexivity).
  assert (HG : fst (NewImageGen someGenDeps (str "/cache") (str "python") [])
               = StillPolling {| gen_done := 1%nat; gen_cancel := 1%nat;
                                 url := str "http://localhost:8032/"; gen_steps := 8;
                                 loading := false |})
    by (vm_compute; reflexivity).
  assert (Hpre : Forall (goesOn (Some 1%nat)) [idleRound])
    by (repeat constructor).
  split; [exact HN|]. split; [exact HG|]. split; [exact Hpre|].
  exact (proj1 (proj2 (poll_exits someDeps someGenDeps (str "/cache") (str "python")
                         localOpts _ _ [idleRound] cancelledRound [] HN HG Hpre Hpre))
               eq_refl).
Defined.

(** C7 as it is stated fails: with the context cancelled, [New] and
    [NewImageGen] return the session and a nil error, as they do for a
    server that is ready. *)
Lemma cancelled_startup_succeeds :
  fst (New someDeps (str "/cache") remoteOpts [idleRound; cancelledRound])
    = Started (remoteSession remoteOpts) /\
  fst (New someDeps (str "/cache") localOpts [idleRound; cancelledRound])
    = Started {| baseURL := str "http://localhost:8032"; done := Some 1%nat;
                 cancel := Some 1%nat; steps := 8 |} /\
  fst (NewImageGen someGenDeps (str "/cache") (str "python") [idleRound; cancelledRound])
    = Started {| gen_done := 1%nat; gen_cancel := 1%nat;
                 url := str "http://localhost:8032/"; gen_steps := 8;
                 loading := false |}.
Proof. vm_compute. repeat split. Qed.

Example died_startup_fails :
  fst (New someDeps (str "/cache") localOpts [idleRound; diedRound])
    = StartFailed (wrapError (str "failed to start") (errorString (str "exit status 1"))).
Proof. vm_compute. reflexivity. Qed.

(** ** A remote server *)

Section RemoteFacts.

Variable deps : startupDeps.
Variable cache : bytes.

(** C9.  With a non-empty [Remote], [New] creates no directory and no
    virtual environment, looks for no port and starts no process: it checks
    the form of [Remote], fails with no call made when it is not host:port,
    and otherwise only polls the health URL of that server, for a session
    that has no done channel and no cancel function.  [Close] on that session
    returns nil and calls nothing. *)
Theorem remote_session_owns_no_process (opts : Options) (rounds : list pollRound) :
  Remote opts <> [] ->
  Forall (fun c => c = Post (baseURL (remoteSession opts) ++ str "/api/health"))
    (snd (New deps cache opts rounds)) /\
  (IsHostPort deps (Remote opts) = false ->
     New deps cache opts rounds =
       (StartFailed (errorString (str "invalid remote " ++ Quote deps (Remote opts)
                                  ++ str "; use form 'host:port'")), [])) /\
  (IsHostPort deps (Remote opts) = true ->
     New deps cache opts rounds =
       (afterPoll (remoteSession opts)
          (fst (pollLoop (baseURL (remoteSession opts) ++ str "/api/health") None rounds)),
        snd (pollLoop (baseURL (remoteSession opts) ++ str "/api/health") None rounds)) /\
     forall err, fst (New deps cache opts rounds) <> StartFailed err) /\
  done (remoteSession opts) = None /\
  cancel (remoteSession opts) = None /\
  forall exit, Close (remoteSession opts) exit = (Closed None, []).
Proof.
  intros Hr.
  assert (He : is_empty (Remote opts) = false)
    by (destruct (Remote opts); [congruence | reflexivity]).
  assert (Hnd : forall rs err,
            fst (pollLoop (baseURL (remoteSession opts) ++ str "/api/health") None rs)
            <> PollDied err).
  { induction rs as [|r rs IH]; intros err; cbn [pollLoop]; [discriminate|].
    destruct (cancelled r); [discriminate|]. destruct (ready r); [discriminate|].
    unfold selectDone.
    specialize (IH err).
    destruct (pollLoop _ None rs) as [e calls]. exact IH. }
  unfold New. rewrite He. fold (remoteSession opts).
  change (done (remoteSession opts)) with (@None process).
  destruct (IsHostPort deps (Remote opts)) eqn:Hh; cbn [negb].
  - pose proof (pollLoop_calls (baseURL (remoteSession opts) ++ str "/api/health") None rounds) as Hc.
    specialize (Hnd rounds).
    destruct (pollLoop _ None rounds) as [e calls]. cbn [fst snd] in *.
    repeat split; try assumption; try discriminate.
    intros err. destruct e; cbn; try discriminate. now destruct (Hnd err0).
  - repeat split; try discriminate. constructor.
Qed.

End RemoteFacts.

Lemma remote_session_owns_no_process_witness :
  Remote remoteOpts <> [] /\
  New someDeps (str "/cache") remoteOpts [idleRound; idleRound]
    = (StillPolling (remoteSession remoteOpts),
       [Post (str "http://gpu:8032/api/health"); Post (str "http://gpu:8032/api/health")]) /\
  Close (remoteSession remoteOpts) None = (Closed None, []).
Proof.
  assert (Hr : Remote remoteOpts <> []) by discriminate.
  pose proof (remote_session_owns_no_process someDeps (str "/cache") remoteOpts
                [idleRound; idleRound] Hr) as (_ & _ & Hp & _ & _ & Hc).
  split; [exact Hr|]. split; [|apply Hc].
  rewrite (proj1 (Hp eq_refl)). vm_compute. reflexivity.
Defined.

(** ** [handleImage] *)

Section ImageFacts.

Context {Img : Type}.
Variable deps : imageDeps Img.

Lemma imageStage_closed (req : intReq) (prompt : list Message -> bytes + errval) :
  (enhances req = true -> d_l deps = Some prompt) ->
  imageStage deps req =
    GoesOn {| content :=
                statusLine (escapeMarkdown deps) (str "*Description*: ") (description req)
                ++ (if enhances req
                    then llmErrorLine (escapeMarkdown deps) (prompt (enhanceMsgs req))
                    else [])
                ++ statusLine (escapeMarkdown deps) (str "*Image prompt*: ")
                     (promptUsed prompt req);
              request := withImagePrompt req (promptUsed prompt req);
              stages := if enhances req then [EnhancePrompt (enhanceMsgs req)] else [] |}.
Proof.
  intros Hl. unfold imageStage, Prompt, promptUsed, statusLine, llmErrorLine.
  fold (enhanceMsgs req). fold (enhances req).
  destruct req as [desc ip lc cmd i]. cbn [description imagePrompt] in *.
  destruct (enhances _) eqn:He.
  - rewrite (Hl eq_refl).
    destruct (prompt _) as [reply|err];
      cbn [request content stages withImagePrompt imagePrompt description labelsContent
           cmdName int];
      destruct (is_empty desc); cbn [negb];
      match goal with |- context [is_empty ?x] => destruct (is_empty x) end;
      cbn [negb app]; rewrite ?app_nil_r, <- ?app_assoc; reflexivity.
  - cbn [request content stages withImagePrompt imagePrompt description labelsContent
         cmdName int].
    destruct (is_empty desc); cbn [negb]; destruct (is_empty ip);
      cbn [negb app]; rewrite ?app_nil_r, <- ?app_assoc; reflexivity.
Qed.

Lemma imageStage_nil (req : intReq) :
  enhances req = true ->
  d_l deps = None ->
  imageStage deps req = Panicked [EnhancePrompt (enhanceMsgs req)].
Proof.
  intros He Hl. unfold imageStage, Prompt. fold (enhanceMsgs req). fold (enhances req).
  now rewrite He, Hl.
Qed.

Lemma labelsStage_closed (r : imageRun) (prompt : list Message -> bytes + errval) :
  d_l deps = Some prompt ->
  labelsStage deps r =
    GoesOn {| content := content r
                         ++ llmErrorLine (escapeMarkdown deps) (prompt (labelsMsgs (request r)));
              request := withLabelsContent (request r)
                           (match prompt (labelsMsgs (request r)) with
                            | inl meme => strings.Trim meme (dquote :: str ",.")
                            | inr _ => labelsContent (request r)
                            end);
              stages := stages r ++ [MakeLabels (labelsMsgs (request r))] |}.
Proof.
  intros Hl. unfold labelsStage, Prompt, llmErrorLine. fold (labelsMsgs (request r)).
  rewrite Hl. destruct (prompt _) as [meme|err].
  - now rewrite app_nil_r.
  - destruct (request r); reflexivity.
Qed.

Lemma labelsStage_nil (r : imageRun) :
  d_l deps = None ->
  labelsStage deps r = Panicked (stages r ++ [MakeLabels (labelsMsgs (request r))]).
Proof.
  intros Hl. unfold labelsStage, Prompt. now rewrite Hl.
Qed.

(** The ends of [renderStage] when the image generator is there. *)
Lemma renderStage_closed (r : imageRun) (gen : bytes -> Z -> Img + errval) :
  d_ig deps = Some gen ->
  renderStage deps r =
    (stages r ++ Generate (imagePrompt (request r)) 1 ::
     match gen (imagePrompt (request r)) 1 with
     | inr err =>
         [Deliver (InteractionResponseEdit (int (request r))
                     (content r
                      ++ statusLine (escapeMarkdown deps) (str "*Labels*: ")
                           (labelsContent (request r))
                      ++ str "*ImageGen Error*: " ++ escapeMarkdown deps (errText err))
                     None)]
     | inl img =>
         (if is_empty (labelsContent (request r)) then []
          else [Composite (labelsContent (request r))]) ++
         Encode ::
         match pngEncode deps (drawn deps (labelsContent (request r)) img) with
         | inr _ => []
         | inl w =>
             [Deliver (InteractionResponseEdit (int (request r))
                         (content r
                          ++ statusLine (escapeMarkdown deps) (str "*Labels*: ")
                               (labelsContent (request r)))
                         (Some w))]
         end
     end,
     Returns tt).
Proof.
  intros Hg. unfold renderStage, GenImage, statusLine, drawn. rewrite Hg.
  destruct (gen _ _) as [img|err].
  - destruct (is_empty (labelsContent (request r))); cbn [negb fst snd app];
      destruct (pngEncode deps _); rewrite ?app_nil_r; reflexivity.
  - destruct (is_empty (labelsContent (request r))); cbn [negb app];
      rewrite ?app_nil_r, <- ?app_assoc; reflexivity.
Qed.

Lemma renderStage_nil (r : imageRun) :
  d_ig deps = None ->
  renderStage deps r = (stages r ++ [Generate (imagePrompt (request r)) 1], Panics).
Proof.
  intros Hg. unfold renderStage, GenImage. now rewrite Hg.
Qed.

(** The variables of [handleImage] when it is done with the LLM. *)
Lemma afterLLM (req : intReq) (prompt : list Message -> bytes + errval) :
  (enhances req || makesLabels req = true -> d_l deps = Some prompt) ->
  exists r,
    content r = statusText (escapeMarkdown deps) prompt req /\
    request r = withLabelsContent (withImagePrompt req (promptUsed prompt req))
                  (labelsUsed prompt req) /\
    stages r = llmCalls req /\
    handleImage deps req =
      if labelsOnly req then
        (stages r ++
         [Deliver (InteractionResponseEdit (int req)
                     (content r ++ str "*Labels*: "
                      ++ escapeMarkdown deps (labelsContent (request r)))
                     None)],
         Returns tt)
      else renderStage deps r.
Proof.
  intros Hl. unfold handleImage.
  rewrite (imageStage_closed req prompt)
    by (intros He; apply Hl; rewrite He; reflexivity).
  cbn [request withImagePrompt cmdName].
  fold (makesLabels req). fold (labelsOnly req).
  unfold statusText, llmCalls, labelsUsed.
  destruct (makesLabels req) eqn:Hm.
  - rewrite (labelsStage_closed _ prompt) by (apply Hl; apply orb_true_r).
    cbn [request content stages withImagePrompt withLabelsContent description int
         labelsContent].
    change (labelsMsgs (withImagePrompt req (promptUsed prompt req))) with (labelsMsgs req).
    match goal with
    | |- context [renderStage deps ?x] => exists x
    end.
    cbn [content request stages withImagePrompt withLabelsContent description int
         labelsContent].
    split; [|split; [|split]]; rewrite <- ?app_assoc; reflexivity.
  - assert (Ho : labelsOnly req = false).
    { unfold makesLabels in Hm. apply orb_false_iff in Hm. apply Hm. }
    rewrite Ho.
    match goal with
    | |- context [renderStage deps ?x] => exists x
    end.
    cbn [content request stages]. rewrite !app_nil_r.
    split; [|split; [|split]]; reflexivity.
Qed.

(** [handleImage] when the collaborators it needs are there: it returns,
    after the calls to the LLM, the generation and the encoding, as far as
    they succeed. *)
Lemma handleImage_closed (req : intReq)
    (prompt : list Message -> bytes + errval) (gen : bytes -> Z -> Img + errval) :
  serves deps req prompt gen ->
  handleImage deps req =
    (llmCalls req ++
     (if labelsOnly req then
        [Deliver (InteractionResponseEdit (int req)
                    (statusText (escapeMarkdown deps) prompt req ++ str "*Labels*: "
                     ++ escapeMarkdown deps (labelsUsed prompt req))
                    None)]
      else
        Generate (promptUsed prompt req) 1 ::
        match gen (promptUsed prompt req) 1 with
        | inr err =>
            [Deliver (InteractionResponseEdit (int req)
                        (statusText (escapeMarkdown deps) prompt req
                         ++ statusLine (escapeMarkdown deps) (str "*Labels*: ")
                              (labelsUsed prompt req)
                         ++ str "*ImageGen Error*: " ++ escapeMarkdown deps (errText err))
                        None)]
        | inl img =>
            (if is_empty (labelsUsed prompt req) then []
             else [Composite (labelsUsed prompt req)]) ++
            Encode ::
            match pngEncode deps (drawn deps (labelsUsed prompt req) img) with
            | inr _ => []
            | inl w =>
                [Deliver (InteractionResponseEdit (int req)
                            (statusText (escapeMarkdown deps) prompt req
                             ++ statusLine (escapeMarkdown deps) (str "*Labels*: ")
                                  (labelsUsed prompt req))
                            (Some w))]
            end
        end),
     Returns tt).
Proof.
  intros [Hl Hg]. destruct (afterLLM req prompt Hl) as (r & Hc & Hr & Hs & ->).
  destruct (labelsOnly req) eqn:Ho.
  - rewrite Hc, Hr, Hs. reflexivity.
  - rewrite (renderStage_closed r gen (Hg eq_refl)), Hc, Hr, Hs. reflexivity.
Qed.

(** [handleImage] when a collaborator it needs is nil: it panics in the
    first call to it. *)
Lemma handleImage_nil_llm (req : intReq) :
  enhances req || makesLabels req = true ->
  d_l deps = None ->
  handleImage deps req = (firstn 1 (llmCalls req), Panics).
Proof.
  intros Hu Hl. unfold handleImage, llmCalls.
  destruct (enhances req) eqn:He.
  - now rewrite (imageStage_nil req He Hl).
  - cbn [orb] in Hu.
    rewrite (imageStage_closed req (fun _ => inl [])) by (rewrite He; discriminate).
    cbn [request withImagePrompt cmdName]. fold (makesLabels req). rewrite Hu, He.
    now rewrite (labelsStage_nil _ Hl).
Qed.

Lemma handleImage_nil_ig (req : intReq) (prompt : list Message -> bytes + errval) :
  (enhances req || makesLabels req = true -> d_l deps = Some prompt) ->
  labelsOnly req = false ->
  d_ig deps = None ->
  handleImage deps req = (llmCalls req ++ [Generate (promptUsed prompt req) 1], Panics).
Proof.
  intros Hl Ho Hg. destruct (afterLLM req prompt Hl) as (r & Hc & Hr & Hs & ->).
  rewrite Ho, (renderStage_nil r Hg), Hr, Hs. reflexivity.
Qed.

(** The three ways in which [handleImage] goes, whatever its collaborators. *)
Lemma handleImage_cases (req : intReq) :
  (enhances req || makesLabels req = true /\ d_l deps = None) \/
  (exists prompt,
     (enhances req || makesLabels req = true -> d_l deps = Some prompt) /\
     labelsOnly req = false /\ d_ig deps = None) \/
  (exists prompt gen, serves deps req prompt gen).
Proof.
  assert (Hp : (enhances req || makesLabels req = true /\ d_l deps = None) \/
               exists prompt, enhances req || makesLabels req = true -> d_l deps = Some prompt).
  { destruct (d_l deps) as [prompt|].
    - right. now exists prompt.
    - destruct (enhances req || makesLabels req).
      + now left.
      + right. exists (fun _ => inl []). discriminate. }
  destruct Hp as [Hn|[prompt Hp]]; [now left|]. right.
  destruct (d_ig deps) as [gen|] eqn:Hg.
  - right. exists prompt, gen. split; [exact Hp | now rewrite Hg].
  - destruct (labelsOnly req) eqn:Ho.
    + right. exists prompt, (fun _ _ => inr (errorString [])).
      split; [exact Hp | rewrite Ho; discriminate].
    + left. now exists prompt.
Qed.

(** C8, as the code has it, when the LLM and the image generator that the
    command needs are there.
    - A failure of the image generator stops the pipeline: nothing is drawn
      or encoded, and the final edit of the response is the status text
      gathered so far, with the line of the labels, followed by the error.
    - A failure of the LLM does not stop it.  The status text gets a line
      with the error, after the description for the enhancement of the
      prompt and after the image prompt for the labels ([statusText]); the
      request keeps its own prompt or labels ([promptUsed], [labelsUsed]);
      and the stages that follow are entered as after an answer of the LLM:
      the labels, the generation, the overlay, the encoding and the edit of
      the response with that status text, or for [meme_labels_auto] the
      edit of the response with the status text and the labels. *)
Theorem handleImage_failures (req : intReq)
    (prompt : list Message -> bytes + errval) (gen : bytes -> Z -> Img + errval) :
  serves deps req prompt gen ->
  (labelsOnly req = false ->
   forall err,
     gen (promptUsed prompt req) 1 = inr err ->
     handleImage deps req =
       (llmCalls req ++
        [Generate (promptUsed prompt req) 1;
         Deliver (InteractionResponseEdit (int req)
                    (statusText (escapeMarkdown deps) prompt req
                     ++ statusLine (escapeMarkdown deps) (str "*Labels*: ")
                          (labelsUsed prompt req)
                     ++ str "*ImageGen Error*: " ++ escapeMarkdown deps (errText err))
                    None)],
        Returns tt)) /\
  (labelsOnly req = false ->
   forall img w,
     gen (promptUsed prompt req) 1 = inl img ->
     pngEncode deps (drawn deps (labelsUsed prompt req) img) = inl w ->
     handleImage deps req =
       (llmCalls req ++
        Generate (promptUsed prompt req) 1 ::
        (if is_empty (labelsUsed prompt req) then []
         else [Composite (labelsUsed prompt req)]) ++
        [Encode;
         Deliver (InteractionResponseEdit (int req)
                    (statusText (escapeMarkdown deps) prompt req
                     ++ statusLine (escapeMarkdown deps) (str "*Labels*: ")
                          (labelsUsed prompt req))
                    (Some w))],
        Returns tt)) /\
  (labelsOnly req = true ->
   handleImage deps req =
     (llmCalls req ++
      [Deliver (InteractionResponseEdit (int req)
                  (statusText (escapeMarkdown deps) prompt req ++ str "*Labels*: "
                   ++ escapeMarkdown deps (labelsUsed prompt req))
                  None)],
      Returns tt)) /\
  (forall err,
     enhances req = true ->
     prompt (enhanceMsgs req) = inr err ->
     promptUsed prompt req = imagePrompt req /\
     statusText (escapeMarkdown deps) prompt req =
       statusLine (escapeMarkdown deps) (str "*Description*: ") (description req)
       ++ (str "*LLM Error*: " ++ escapeMarkdown deps (errText err) ++ [LF])
       ++ statusLine (escapeMarkdown deps) (str "*Image prompt*: ") (imagePrompt req)
       ++ (if makesLabels req
           then llmErrorLine (escapeMarkdown deps) (prompt (labelsMsgs req))
           else [])) /\
  (forall err,
     makesLabels req = true ->
     prompt (labelsMsgs req) = inr err ->
     labelsUsed prompt req = labelsContent req /\
     exists before,
       statusText (escapeMarkdown deps) prompt req =
         before ++ str "*LLM Error*: " ++ escapeMarkdown deps (errText err) ++ [LF]).
Proof.
  intros Hs. pose proof (handleImage_closed req prompt gen Hs) as Hc.
  split; [|split; [|split; [|split]]].
  - intros Ho err He. rewrite Hc, Ho, He. reflexivity.
  - intros Ho img w Hg He. rewrite Hc, Ho, Hg, He. reflexivity.
  - intros Ho. rewrite Hc, Ho. reflexivity.
  - intros err He Hp. unfold statusText, promptUsed. rewrite He, Hp.
    split; reflexivity.
  - intros err Hm Hp. unfold labelsUsed, statusText. rewrite Hm, Hp.
    split; [reflexivity|]. eexists. cbn [llmErrorLine]. rewrite !app_assoc. reflexivity.
Qed.

End ImageFacts.

Lemma handleImage_failures_witness :
  serves llmDown memeLabelsReq
    (fun _ => inr (errorString (str "connection refused"))) (fun _ _ => inl tt) /\
  labelsOnly memeLabelsReq = true /\
  handleImage llmDown memeLabelsReq =
    ([MakeLabels (labelsMsgs memeLabelsReq);
      Deliver (InteractionResponseEdit (Some (str "i4"))
                 (str "*Description*: a cat" ++ [LF]
                  ++ str "*LLM Error*: connection refused" ++ [LF]
                  ++ str "*Labels*: ")
                 None)],
     Returns tt).
Proof.
  assert (Hs : serves llmDown memeLabelsReq
                 (fun _ => inr (errorString (str "connection refused"))) (fun _ _ => inl tt))
    by (split; [reflexivity | discriminate]).
  split; [exact Hs|]. split; [reflexivity|].
  exact (proj1 (proj2 (proj2 (handleImage_failures llmDown memeLabelsReq _ _ Hs))) eq_refl).
Defined.

Example failed_generation_is_reported :
  handleImage generatorDown imageManualReq =
    ([Generate (str "a cat") 1;
      Deliver (InteractionResponseEdit (Some (str "i2"))
                 (str "*Image prompt*: a cat" ++ [LF]
                  ++ str "*ImageGen Error*: connection refused")
                 None)],
     Returns tt).
Proof. vm_compute. reflexivity. Qed.

(** C8 as it is stated fails: the failure of the first stage, the
    enhancement of the prompt, is followed by the generation of the image,
    its encoding and the delivery of the file. *)
Lemma failed_enhancement_does_not_stop :
  Prompt llmDown (enhanceMsgs imageAutoReq)
  = Returns (inr (errorString (str "connection refused"))) /\
  handleImage llmDown imageAutoReq =
    ([EnhancePrompt (enhanceMsgs imageAutoReq);
      Generate [] 1;
      Encode;
      Deliver (InteractionResponseEdit (Some (str "i1"))
                 (str "*Description*: a cat" ++ [LF]
                  ++ str "*LLM Error*: connection refused" ++ [LF])
                 (Some (str "PNG")))],
     Returns tt).
Proof. vm_compute. split; reflexivity. Qed.

(** A failure of the PNG encoder ends [handleImage] with no edit of the
    response, where a failure of the image generator makes one. *)
Example failed_encoding_is_not_reported :
  handleImage encoderDown imageManualReq = ([Generate (str "a cat") 1; Encode], Returns tt).
Proof. vm_compute. reflexivity. Qed.

(** With no image generator, a command that [onImage] lets through ends in
    a panic. *)
Example missing_generator_panics :
  handleImage noGenerator imageManualReq = ([Generate (str "a cat") 1], Panics).
Proof. vm_compute. reflexivity. Qed.

(** * Further properties *)

(** ** [splitResponse]: where it cuts *)

Section CutFacts.

Import strings.

Variable MatchString : bytes -> bytes -> option bool.

(** The byte at the position that [LastIndexByte] returns. *)
Lemma LastIndexByte_at (s : bytes) (c : ascii) :
  0 <= LastIndexByte s c ->
  firstn (Z.to_nat (LastIndexByte s c + 1)) s
  = firstn (Z.to_nat (LastIndexByte s c)) s ++ [c].
Proof.
  induction s as [|x s IH]; cbn [LastIndexByte]; [lia|].
  cbv zeta. destruct (0 <=? LastIndexByte s c) eqn:Hr.
  - apply Z.leb_le in Hr. intros _.
    replace (Z.to_nat (LastIndexByte s c + 1 + 1)) with (S (Z.to_nat (LastIndexByte s c + 1))) by lia.
    replace (Z.to_nat (LastIndexByte s c + 1)) with (S (Z.to_nat (LastIndexByte s c))) at 2 by lia.
    cbn [firstn app]. f_equal. now apply IH.
  - destruct (Ascii.eqb x c) eqn:Hx; [|lia]. intros _.
    apply Ascii.eqb_eq in Hx. subst x. reflexivity.
Qed.

Lemma LastIndexAny_at (s chars : bytes) :
  0 <= LastIndexAny s chars ->
  exists c,
    byte_in chars c = true /\
    firstn (Z.to_nat (LastIndexAny s chars + 1)) s
    = firstn (Z.to_nat (LastIndexAny s chars)) s ++ [c].
Proof.
  induction s as [|x s IH]; cbn [LastIndexAny]; [lia|].
  cbv zeta. destruct (0 <=? LastIndexAny s chars) eqn:Hr.
  - apply Z.leb_le in Hr. intros _. destruct (IH Hr) as (c & Hc & E).
    exists c. split; [exact Hc|].
    replace (Z.to_nat (LastIndexAny s chars + 1 + 1)) with (S (Z.to_nat (LastIndexAny s chars + 1))) by lia.
    replace (Z.to_nat (LastIndexAny s chars + 1)) with (S (Z.to_nat (LastIndexAny s chars))) at 2 by lia.
    cbn [firstn app]. now f_equal.
  - destruct (byte_in chars x) eqn:Hx; [|lia]. intros _.
    exists x. split; [exact Hx | reflexivity].
Qed.

(** Nothing is left of [c] after its last position. *)
Lemma LastIndexByte_after (s : bytes) (c : ascii) :
  0 <= LastIndexByte s c ->
  LastIndexByte (skipn (Z.to_nat (LastIndexByte s c + 1)) s) c = -1.
Proof.
  induction s as [|x s IH]; cbn [LastIndexByte]; [lia|].
  cbv zeta. destruct (0 <=? LastIndexByte s c) eqn:Hr.
  - apply Z.leb_le in Hr. intros _.
    replace (Z.to_nat (LastIndexByte s c + 1 + 1)) with (S (Z.to_nat (LastIndexByte s c + 1))) by lia.
    cbn [skipn]. now apply IH.
  - apply Z.leb_gt in Hr. destruct (Ascii.eqb x c); [|lia]. intros _.
    change (Z.to_nat (0 + 1)) with 1%nat. cbn [skipn].
    pose proof (LastIndexByte_range s c). lia.
Qed.

(** A chunk cut inside the window of the sentence search is a chunk of the
    window. *)
Lemma chunk_sentenceWindow (t : bytes) (i : Z) :
  0 <= i <= len (sentenceWindow t) -> chunk t i = chunk (sentenceWindow t) i.
Proof.
  unfold sentenceWindow, chunk. destruct (Z.land (Count t [backquote]) 1 =? 1); [|reflexivity].
  intros H. rewrite firstn_firstn. f_equal.
  unfold len in H. rewrite length_firstn in H. lia.
Qed.

(** X1.  With exactly one fence marker in the pending text, a result of
    [splitResponse] is a position at or before the marker: nothing of the
    open block is cut off. *)
Theorem splitResponse_open_fence (t : bytes) (i : Z) :
  Count t fence = 1 ->
  splitResponse MatchString t = Returns i ->
  0 <= i <= Index t fence /\ Index (chunk t i) fence < 0.
Proof.
  intros H1 Hs.
  assert (Hp : 0 <= Index t fence) by (apply Count_positive; lia).
  pose proof (Index_range t fence) as [_ Hr]. specialize (Hr Hp). rewrite fence_len in Hr.
  rewrite splitResponse_eq in Hs. rewrite H1 in Hs. change (2 <=? 1) with false in Hs.
  cbv iota in Hs. apply splitResponse_unfenced_bound in Hs.
  assert (Hb : beforeFence t = firstn (Z.to_nat (Index t fence)) t)
    by (unfold beforeFence; now rewrite H1).
  assert (Hl : len (beforeFence t) = Index t fence) by (rewrite Hb; apply len_firstn; lia).
  split; [lia|].
  rewrite chunk_beforeFence by exact Hs.
  apply Index_none_firstn, beforeFence_no_fence. lia.
Qed.

(** X2.  With fewer than two fence markers, a chunk that is cut ends with a
    newline or with one of the bytes ".", "?" and "!". *)
Theorem chunk_ends_line_or_sentence (t : bytes) (i : Z) :
  Count t fence < 2 ->
  splitResponse MatchString t = Returns i ->
  0 < i ->
  exists before c,
    chunk t i = before ++ [c] /\
    (c = LF \/ byte_in (str ".?!") c = true).
Proof.
  intros H2 Hs Hi. rewrite splitResponse_eq in Hs.
  apply Z.leb_gt in H2. rewrite H2 in Hs.
  pose proof (splitResponse_unfenced_bound _ _ _ Hs) as Hb.
  rewrite chunk_beforeFence by exact Hb.
  rewrite splitResponse_unfenced_eq in Hs.
  destruct (beforeFence t) as [|x u]; [apply Returns_inj in Hs; lia|].
  set (s := x :: u) in *.
  destruct (10 <=? LastIndexByte s LF) eqn:H10.
  { apply Z.leb_le in H10. apply Returns_inj in Hs. subst i.
    exists (firstn (Z.to_nat (LastIndexByte s LF)) s), LF. split; [|now left].
    unfold chunk. apply LastIndexByte_at. lia. }
  destruct (HasPrefix s (str "- ") || HasPrefix s (str "* "));
    [apply Returns_inj in Hs; lia|].
  destruct (MatchString s enumExpr) as [[|]|]; [apply Returns_inj in Hs; lia | | discriminate].
  destruct (len s <? 10); [apply Returns_inj in Hs; lia|].
  destruct (LastIndexAny (sentenceWindow s) (str ".?!") =? -1) eqn:Ha;
    [apply Returns_inj in Hs; lia|].
  apply Z.eqb_neq in Ha. apply Returns_inj in Hs. subst i.
  pose proof (LastIndexAny_range (sentenceWindow s) (str ".?!")) as Hr.
  rewrite chunk_sentenceWindow by lia.
  destruct (LastIndexAny_at (sentenceWindow s) (str ".?!")) as (c & Hc & E); [lia|].
  exists (firstn (Z.to_nat (LastIndexAny (sentenceWindow s) (str ".?!"))) (sentenceWindow s)), c.
  split; [exact E | now right].
Qed.

(** X3.  A pending text of fewer than 10 bytes with fewer than two fence
    markers is never cut. *)
Theorem splitResponse_short_waits (t : bytes) (i : Z) :
  Count t fence < 2 ->
  len t < 10 ->
  splitResponse MatchString t = Returns i ->
  i = 0.
Proof.
  intros H2 Hl Hs. rewrite splitResponse_eq in Hs.
  apply Z.leb_gt in H2. rewrite H2 in Hs.
  pose proof (beforeFence_len t) as Hb.
  rewrite splitResponse_unfenced_eq in Hs.
  destruct (beforeFence t) as [|x u]; [now apply Returns_inj in Hs|].
  set (s := x :: u) in *.
  pose proof (LastIndexByte_range s LF) as Hr.
  destruct (10 <=? LastIndexByte s LF) eqn:H10; [apply Z.leb_le in H10; lia|].
  destruct (HasPrefix s (str "- ") || HasPrefix s (str "* "));
    [now apply Returns_inj in Hs|].
  destruct (MatchString s enumExpr) as [[|]|]; [now apply Returns_inj in Hs | | discriminate].
  destruct (len s <? 10) eqn:Hs10; [now apply Returns_inj in Hs|].
  apply Z.ltb_ge in Hs10. lia.
Qed.

(** X4.  With no fence marker and a newline at offset 10 or later, the text
    is cut right after its last newline, whatever the matcher answers: the
    chunk is made of whole lines and what is kept holds no newline. *)
Theorem splitResponse_whole_lines (t : bytes) :
  Count t fence = 0 ->
  10 <= LastIndexByte t LF ->
  splitResponse MatchString t = Returns (LastIndexByte t LF + 1) /\
  (exists before, chunk t (LastIndexByte t LF + 1) = before ++ [LF]) /\
  LastIndexByte (remainder t (LastIndexByte t LF + 1)) LF = -1.
Proof.
  intros H0 H10. split; [|split].
  - rewrite splitResponse_eq, H0. change (2 <=? 0) with false. cbv iota.
    assert (Hb : beforeFence t = t) by (unfold beforeFence; now rewrite H0).
    rewrite Hb, splitResponse_unfenced_eq.
    destruct t as [|x u]; [cbn in H10; lia|].
    apply Z.leb_le in H10. now rewrite H10.
  - eexists. unfold chunk. apply LastIndexByte_at. lia.
  - unfold remainder. apply LastIndexByte_after. lia.
Qed.

End CutFacts.

Lemma splitResponse_open_fence_witness :
  strings.Count (str "Use this. ```go code") fence = 1 /\
  splitResponse GoRegexp.MatchString (str "Use this. ```go code") = Returns 9 /\
  0 <= 9 <= strings.Index (str "Use this. ```go code") fence /\
  strings.Index (chunk (str "Use this. ```go code") 9) fence < 0.
Proof.
  assert (H1 : strings.Count (str "Use this. ```go code") fence = 1) by (vm_compute; reflexivity).
  assert (H : splitResponse GoRegexp.MatchString (str "Use this. ```go code") = Returns 9)
    by (vm_compute; reflexivity).
  split; [exact H1|]. split; [exact H|].
  exact (splitResponse_open_fence GoRegexp.MatchString _ _ H1 H).
Defined.

Lemma chunk_ends_line_or_sentence_witness :
  strings.Count (str "Hello world. More text") fence < 2 /\
  splitResponse GoRegexp.MatchString (str "Hello world. More text") = Returns 12 /\
  0 < 12 /\
  exists before c,
    chunk (str "Hello world. More text") 12 = before ++ [c] /\
    (c = LF \/ strings.byte_in (str ".?!") c = true).
Proof.
  assert (H2 : strings.Count (str "Hello world. More text") fence < 2) by (vm_compute; reflexivity).
  assert (H : splitResponse GoRegexp.MatchString (str "Hello world. More text") = Returns 12)
    by (vm_compute; reflexivity).
  assert (Hi : 0 < 12) by lia.
  split; [exact H2|]. split; [exact H|]. split; [exact Hi|].
  exact (chunk_ends_line_or_sentence GoRegexp.MatchString _ _ H2 H Hi).
Defined.

Lemma splitResponse_short_waits_witness :
  strings.Count (str "Hi. Ok.") fence < 2 /\
  len (str "Hi. Ok.") < 10 /\
  splitResponse GoRegexp.MatchString (str "Hi. Ok.") = Returns 0 /\
  0 = 0.
Proof.
  assert (H2 : strings.Count (str "Hi. Ok.") fence < 2) by (vm_compute; reflexivity).
  assert (Hl : len (str "Hi. Ok.") < 10) by (vm_compute; reflexivity).
  assert (H : splitResponse GoRegexp.MatchString (str "Hi. Ok.") = Returns 0)
    by (vm_compute; reflexivity).
  split; [exact H2|]. split; [exact Hl|]. split; [exact H|].
  exact (splitResponse_short_waits GoRegexp.MatchString _ _ H2 Hl H).
Defined.

Lemma splitResponse_whole_lines_witness :
  strings.Count (str "(first line" ++ [LF] ++ str "second") fence = 0 /\
  10 <= strings.LastIndexByte (str "(first line" ++ [LF] ++ str "second") LF /\
  splitResponse GoRegexp.MatchString (str "(first line" ++ [LF] ++ str "second") = Returns 12.
Proof.
  assert (H0 : strings.Count (str "(first line" ++ [LF] ++ str "second") fence = 0)
    by (vm_compute; reflexivity).
  assert (H10 : 10 <= strings.LastIndexByte (str "(first line" ++ [LF] ++ str "second") LF)
    by (vm_compute; discriminate).
  split; [exact H0|]. split; [exact H10|].
  exact (proj1 (splitResponse_whole_lines GoRegexp.MatchString _ H0 H10)).
Defined.

(** ** [splitResponse] and the slices of its caller *)

Section SliceFacts.

Variable MatchString : bytes -> bytes -> option bool.

(** X5.  Whenever [splitResponse] returns [i], the slices [pending[:i]] and
    [pending[i:]] of [handlePrompt] are in bounds, and they split the
    pending text: nothing is lost or repeated at a cut. *)
Theorem splitResponse_slices (t : bytes) (i : Z) :
  splitResponse MatchString t = Returns i ->
  0 <= i <= len t /\
  slice_to t i = Returns (chunk t i) /\
  slice_from t i = Returns (remainder t i) /\
  chunk t i ++ remainder t i = t /\
  len (chunk t i) = i.
Proof.
  intros H. apply splitResponse_bound in H.
  split; [exact H|]. split; [now apply slice_to_returns|].
  split; [now apply slice_from_returns|]. split.
  - unfold chunk, remainder. apply firstn_skipn.
  - unfold chunk. now apply len_firstn.
Qed.

(** X6.  The only panic of [splitResponse] is the one it raises on an error
    of [regexp.MatchString]: when the matcher accepts the text that reaches
    the enumeration test, the function returns. *)
Theorem splitResponse_returns (t : bytes) :
  MatchString (beforeFence t) enumExpr <> None ->
  exists i, splitResponse MatchString t = Returns i /\ 0 <= i <= len t.
Proof.
  intros Hm. destruct (splitResponse MatchString t) as [i|] eqn:Hs.
  - exists i. split; [reflexivity|]. now apply splitResponse_bound in Hs.
  - apply splitResponse_panics_iff in Hs as (_ & _ & _ & _ & Hn). contradiction.
Qed.

End SliceFacts.

Lemma splitResponse_slices_witness :
  splitResponse GoRegexp.MatchString (str "Hello world. More text") = Returns 12 /\
  chunk (str "Hello world. More text") 12 ++ remainder (str "Hello world. More text") 12
  = str "Hello world. More text".
Proof.
  assert (H : splitResponse GoRegexp.MatchString (str "Hello world. More text") = Returns 12)
    by (vm_compute; reflexivity).
  split; [exact H|].
  exact (proj1 (proj2 (proj2 (proj2 (splitResponse_slices GoRegexp.MatchString _ _ H))))).
Defined.

Lemma splitResponse_returns_witness :
  GoRegexp.MatchString (beforeFence (str "Hello world. More text")) enumExpr <> None /\
  exists i, splitResponse GoRegexp.MatchString (str "Hello world. More text") = Returns i
            /\ 0 <= i <= len (str "Hello world. More text").
Proof.
  assert (H : GoRegexp.MatchString (beforeFence (str "Hello world. More text")) enumExpr <> None)
    by (vm_compute; discriminate).
  split; [exact H|]. exact (splitResponse_returns GoRegexp.MatchString _ H).
Defined.

(** ** [handlePrompt]: what it posts and what it remembers *)

Section ReplyFacts.

Variable MatchString : bytes -> bytes -> option bool.
Variable req : msgReq.

Lemma replyTargets_app (a b : list DiscordCall) :
  replyTargets (a ++ b) = replyTargets a ++ replyTargets b.
Proof.
  induction a as [|c a IH]; [reflexivity|].
  destruct c; cbn [app replyTargets]; rewrite IH; reflexivity.
Qed.

Lemma postedIds_app (a b : list streamEvent) : postedIds (a ++ b) = postedIds a ++ postedIds b.
Proof.
  induction a as [|[w|[id|]] a IH]; cbn [app postedIds]; rewrite ?IH; reflexivity.
Qed.

Lemma known_target_more (ids more : list bytes) (t : bytes) :
  t = replyToID req \/ In t ids -> t = replyToID req \/ In t (ids ++ more).
Proof.
  intros [H|H]; [now left | right; apply in_or_app; now left].
Qed.

Lemma streamInvariant_more (ids more : list bytes) (st : streamState) :
  streamInvariant req ids st -> streamInvariant req (ids ++ more) st.
Proof.
  intros (Hc & Hr & Ht & Hn). repeat split; try assumption.
  - now apply known_target_more.
  - eapply Forall_impl; [|exact Ht]. intros t. apply known_target_more.
Qed.

Lemma onTick_invariant (ids : list bytes) (sent : option bytes) (st st' : streamState) :
  onTick MatchString req sent st = Returns st' ->
  streamInvariant req ids st ->
  streamInvariant req (ids ++ postedIds [Tick sent]) st'.
Proof.
  unfold onTick. destruct (splitResponse MatchString (pending st)) as [i|] eqn:Hs;
    [|discriminate].
  cbn [bind]. pose proof (splitResponse_bound _ _ _ Hs) as Hb.
  destruct (i =? 0) eqn:Hi.
  - intros H%Returns_inj Hinv. subst st'. now apply streamInvariant_more.
  - apply Z.eqb_neq in Hi.
    rewrite slice_to_returns, slice_from_returns by exact Hb. cbn [bind].
    intros H%Returns_inj (Hc & Hr & Ht & Hn). subst st'.
    unfold streamInvariant. cbn [posted replyTo].
    assert (Hne : firstn (Z.to_nat i) (pending st) <> []).
    { intros E. apply (f_equal (@List.length ascii)) in E.
      rewrite length_firstn in E. unfold len in Hb. cbn in E. lia. }
    split; [|split; [|split]].
    + apply Forall_app. split; [exact Hc|].
      constructor; [|constructor; [reflexivity | constructor]].
      cbn. repeat split; auto.
    + destruct sent as [id|]; cbn [postedIds].
      * right. apply in_or_app. right. now left.
      * rewrite app_nil_r. exact Hr.
    + rewrite replyTargets_app. cbn [replyTargets reference_of MessageID].
      apply Forall_app. split.
      * eapply Forall_impl; [|exact Ht]. intros t. apply known_target_more.
      * constructor; [|constructor]. now apply known_target_more.
    + apply Forall_app. split; [exact Hn|]. repeat constructor.
Qed.

Lemma onClosed_invariant (ids : list bytes) (st : streamState) :
  streamInvariant req ids st -> streamInvariant req ids (onClosed req st).
Proof.
  intros (Hc & Hr & Ht & Hn). unfold onClosed.
  destruct (pending st) as [|x p] eqn:Hp; cbn [is_empty negb];
    [repeat split; assumption|].
  unfold streamInvariant. cbn [posted replyTo]. split; [|split; [|split]].
  - apply Forall_app. split; [exact Hc|]. constructor; [|constructor].
    cbn. repeat split; auto. discriminate.
  - exact Hr.
  - rewrite replyTargets_app. cbn [replyTargets reference_of MessageID].
    apply Forall_app. split; [exact Ht|]. constructor; [exact Hr | constructor].
  - apply Forall_app. split; [exact Hn|]. repeat constructor.
Qed.

Lemma streamLoop_invariant (events : list streamEvent) (ids : list bytes)
    (st st' : streamState) :
  streamLoop MatchString req events st = Returns st' ->
  streamInvariant req ids st ->
  streamInvariant req (ids ++ postedIds events) st'.
Proof.
  revert ids st. induction events as [|[w|sent] events IH]; intros ids st; cbn [streamLoop].
  - intros H%Returns_inj Hinv. subst st'. cbn [postedIds]. rewrite app_nil_r.
    now apply onClosed_invariant.
  - intros H Hinv. cbn [postedIds]. apply (IH ids _ H). exact Hinv.
  - destruct (onTick MatchString req sent st) as [st1|] eqn:Ht; [|discriminate].
    intros H Hinv.
    change (Tick sent :: events) with ([Tick sent] ++ events).
    rewrite postedIds_app, app_assoc.
    apply (IH _ _ H). now apply (onTick_invariant ids sent st).
Qed.

Lemma streamStart_invariant : streamInvariant req [] (streamStart req).
Proof.
  unfold streamInvariant, streamStart. cbn. repeat split; auto.
Qed.

(** X7.  Every call that [handlePrompt] makes to Discord goes to the channel
    of the request: typing indicators, the report of a failed generation,
    and replies, which are never empty and reference a message of that
    channel and guild. *)
Theorem handlePrompt_stays_in_channel (systemPrompt : bytes) (history : list Message)
    (events : list streamEvent) (failure : error)
    (messages : list Message) (calls : list DiscordCall) :
  handlePrompt MatchString systemPrompt history req events failure
    = Returns (messages, calls) ->
  Forall (callInChannel req) calls.
Proof.
  unfold handlePrompt.
  destruct (streamLoop MatchString req events (streamStart req)) as [st|] eqn:Hs;
    [|discriminate].
  apply (streamLoop_invariant events []) in Hs; [|apply streamStart_invariant].
  destruct Hs as (Hc & _ & _ & _). cbn [bind].
  destruct failure as [err|]; intros H%Returns_inj; injection H as _ <-.
  - apply Forall_app. split; [exact Hc|]. constructor; [reflexivity | constructor].
  - exact Hc.
Qed.

Lemma streamLoop_chain (events : list streamEvent) (st st' : streamState) :
  streamLoop MatchString req events st = Returns st' ->
  exists unused,
    replyTargets (posted st)
    ++ replyChain (replyTo st) (tickAnswers MatchString events (pending st))
    = replyTargets (posted st') ++ unused /\
    (List.length unused <= 1)%nat /\
    (unused = [] <-> pending st' <> []).
Proof.
  revert st. induction events as [|[w|sent] events IH]; intros st; cbn [streamLoop tickAnswers].
  - intros H%Returns_inj. subst st'. unfold onClosed. cbn [replyChain].
    destruct (pending st) as [|x p] eqn:Hp; cbn [is_empty negb].
    + exists [replyTo st]. rewrite ?Hp. repeat split; cbn; auto; [discriminate | congruence].
    + exists []. cbn [posted pending]. rewrite replyTargets_app, app_nil_r, ?Hp.
      repeat split; cbn; auto. discriminate.
  - intros H. apply IH in H. cbn [posted replyTo pending] in H. exact H.
  - destruct (onTick MatchString req sent st) as [st1|] eqn:Ht; [|discriminate].
    intros H. apply IH in H. revert Ht H. unfold onTick.
    destruct (splitResponse MatchString (pending st)) as [i|] eqn:Hs; [|discriminate].
    cbn [bind]. pose proof (splitResponse_bound _ _ _ Hs) as Hb.
    destruct (i =? 0).
    + intros E%Returns_inj. now subst st1.
    + rewrite slice_to_returns, slice_from_returns by exact Hb. cbn [bind].
      intros E%Returns_inj. subst st1. cbn [posted replyTo pending].
      rewrite replyTargets_app. cbn [replyTargets reference_of MessageID replyChain].
      unfold remainder. rewrite <- app_assoc. cbn [app]. auto.
Qed.

(** X8.  The replies of [handlePrompt] form a chain.  The first one
    references the message of the user; each later one references the
    message posted by the reply before it, when Discord answered that one
    with an id, and otherwise the same message as the reply before it.  All
    the replies posted at the ticks are in the chain, and after them the
    closing reply, which is posted when text is left at the end of the
    stream. *)
Theorem handlePrompt_reply_chain (systemPrompt : bytes) (history : list Message)
    (events : list streamEvent) (failure : error)
    (messages : list Message) (calls : list DiscordCall) :
  handlePrompt MatchString systemPrompt history req events failure
    = Returns (messages, calls) ->
  exists unused,
    replyChain (replyToID req) (tickAnswers MatchString events [])
    = replyTargets calls ++ unused /\
    (List.length unused <= 1)%nat.
Proof.
  unfold handlePrompt.
  destruct (streamLoop MatchString req events (streamStart req)) as [st|] eqn:Hs;
    [|discriminate].
  apply streamLoop_chain in Hs. destruct Hs as (unused & Hc & Hu & _).
  cbn [streamStart posted replyTo pending replyTargets app] in Hc. cbn [bind].
  destruct failure as [err|]; intros H%Returns_inj; injection H as _ <-;
    exists unused; (split; [|exact Hu]).
  - rewrite replyTargets_app. cbn [replyTargets]. now rewrite app_nil_r.
  - exact Hc.
Qed.

(** X9.  When [handlePrompt] returns, the conversation is what it was (or
    the system prompt alone, if it was empty), then the message of the
    user, then one assistant turn with all the words received, also when
    the generation failed; the replies carry the same text, and a failure
    is reported once, after them. *)
Theorem handlePrompt_remembers (systemPrompt : bytes) (history : list Message)
    (events : list streamEvent) (failure : error)
    (messages : list Message) (calls : list DiscordCall) :
  handlePrompt MatchString systemPrompt history req events failure
    = Returns (messages, calls) ->
  messages =
    (match history with
     | [] => [{| role := System; Content := systemPrompt |}]
     | _ :: _ => history
     end)
    ++ [{| role := User; Content := msg req |};
        {| role := Assistant; Content := tokens events |}] /\
  emitted calls = tokens events /\
  exists replies,
    calls = replies ++
            match failure with
            | Some err => [ChannelMessageSend (channelID req)
                             (str "Prompt generation failed: " ++ errText err)]
            | None => []
            end /\
    Forall notPlainMessage replies.
Proof.
  unfold handlePrompt.
  destruct (streamLoop MatchString req events (streamStart req)) as [st|] eqn:Hs;
    [|discriminate].
  pose proof (streamLoop_conserves _ _ _ _ _ Hs) as [Ht Hp]. cbn in Ht, Hp.
  apply (streamLoop_invariant events []) in Hs; [|apply streamStart_invariant].
  destruct Hs as (_ & _ & _ & Hn). cbn [bind].
  destruct failure as [err|]; intros H%Returns_inj; injection H as <- <-.
  - rewrite Ht. split; [destruct history; cbn; now rewrite <- ?app_assoc|]. split.
    + rewrite emitted_app. cbn [emitted]. now rewrite app_nil_r.
    + exists (posted st). split; [reflexivity | exact Hn].
  - rewrite Ht. split; [destruct history; cbn; now rewrite <- ?app_assoc|].
    split; [exact Hp|].
    exists (posted st). split; [now rewrite app_nil_r | exact Hn].
Qed.

End ReplyFacts.

Lemma handlePrompt_stays_in_channel_witness :
  exists messages calls,
    handlePrompt GoRegexp.MatchString (str "You are a bot.") [] someMsgReq
      twoSentenceStream None = Returns (messages, calls) /\
    Forall (callInChannel someMsgReq) calls.
Proof.
  eexists. eexists. split; [vm_compute; reflexivity|].
  eapply (handlePrompt_stays_in_channel GoRegexp.MatchString someMsgReq
            (str "You are a bot.") [] twoSentenceStream None).
  vm_compute. reflexivity.
Defined.

Lemma handlePrompt_reply_chain_witness :
  exists messages calls,
    handlePrompt GoRegexp.MatchString (str "You are a bot.") [] someMsgReq
      twoSentenceStream None = Returns (messages, calls) /\
    tickAnswers GoRegexp.MatchString twoSentenceStream [] = [Some (str "2001"); None] /\
    replyTargets calls = [str "1001"; str "2001"] /\
    exists unused,
      replyChain (replyToID someMsgReq) (tickAnswers GoRegexp.MatchString twoSentenceStream [])
      = replyTargets calls ++ unused /\
      (List.length unused <= 1)%nat.
Proof.
  eexists. eexists. split; [vm_compute; reflexivity|]. split; [vm_compute; reflexivity|].
  split; [vm_compute; reflexivity|].
  eapply (handlePrompt_reply_chain GoRegexp.MatchString someMsgReq
            (str "You are a bot.") [] twoSentenceStream None).
  vm_compute. reflexivity.
Defined.

Lemma handlePrompt_remembers_witness :
  exists messages calls,
    handlePrompt GoRegexp.MatchString (str "You are a bot.") [] someMsgReq
      twoSentenceStream (Some (errorString (str "EOF"))) = Returns (messages, calls) /\
    messages =
      [{| role := System; Content := str "You are a bot." |};
       {| role := User; Content := str "hi" |};
       {| role := Assistant; Content := str "Hello world. More text to come." |}].
Proof.
  eexists. eexists. split; [vm_compute; reflexivity|].
  refine (eq_trans (proj1 (handlePrompt_remembers GoRegexp.MatchString someMsgReq
            (str "You are a bot.") [] twoSentenceStream (Some (errorString (str "EOF")))
            _ _ _)) _).
  - vm_compute. reflexivity.
  - vm_compute. reflexivity.
Defined.

(** ** The queues under load and at shutdown *)

Section LoadFacts.

Lemma onMessageCreate_chat (d : discordBot) (req : msgReq) :
  capacity (chat d) = 5%nat ->
  onMessageCreate d req =
    if (List.length (buffer (chat d)) <? 5)%nat
    then ({| chat := {| buffer := buffer (chat d) ++ [req]; capacity := 5 |};
             image := image d |}, [])
    else (d, [overloadReply req]).
Proof.
  intros Hc. unfold onMessageCreate, trySend. rewrite Hc.
  now destruct (List.length (buffer (chat d)) <? 5)%nat.
Qed.

(** X10.  Of the messages that arrive in a row while no request is taken,
    those for which the chat queue has room are queued, in the order of
    their arrival, behind what was queued; each of the others gets the
    overload reply, in order, and is dropped.  The image queue is not
    touched. *)
Theorem burst_is_cut_at_capacity (d : discordBot) (reqs : list msgReq) :
  reachable d ->
  let room := (5 - List.length (buffer (chat d)))%nat in
  buffer (chat (fst (admitAll d reqs))) = buffer (chat d) ++ firstn room reqs /\
  snd (admitAll d reqs) = map overloadReply (skipn room reqs) /\
  image (fst (admitAll d reqs)) = image d /\
  reachable (fst (admitAll d reqs)).
Proof.
  intros Hd. cbv zeta. revert d Hd. induction reqs as [|req reqs IH]; intros d Hd.
  - cbn. rewrite firstn_nil, skipn_nil, app_nil_r. auto.
  - cbn [admitAll].
    assert (Hd1 : reachable (fst (onMessageCreate d req)))
      by (eapply ReachStep; [exact Hd | apply StepMessage]).
    destruct (reachable_capacity d Hd) as (Hc & _ & Hl & _).
    specialize (IH _ Hd1). revert IH Hd1. rewrite (onMessageCreate_chat d req Hc).
    destruct (List.length (buffer (chat d)) <? 5)%nat eqn:Hlt.
    + apply Nat.ltb_lt in Hlt. cbn [fst chat image buffer].
      destruct (admitAll _ reqs) as [d2 calls2]. cbn [fst snd app].
      rewrite length_app. cbn [List.length].
      replace (5 - List.length (buffer (chat d)))%nat
        with (S (5 - (List.length (buffer (chat d)) + 1)))%nat by lia.
      cbn [firstn skipn]. intros (Hb & Hs & Hi & Hr) _.
      rewrite Hb, <- app_assoc. auto.
    + apply Nat.ltb_ge in Hlt. cbn [fst].
      destruct (admitAll d reqs) as [d2 calls2]. cbn [fst snd app].
      replace (5 - List.length (buffer (chat d)))%nat with 0%nat by lia.
      cbn [firstn skipn map]. intros (Hb & Hs & Hi & Hr) _.
      rewrite Hs. auto.
Qed.

Context {W : Type}.

Lemma chatRoutine_drains (handlePrompt : msgReq -> W -> outcome W)
    (queued : list msgReq) (w : W) :
  Forall (fun req => authorID req <> []) queued ->
  let r := chatRoutine handlePrompt (queued ++ [zeroMsgReq]) w in
  match handleAll handlePrompt queued w with
  | Returns w' =>
      r = {| ending := Exited; undelivered := []; wgDone := 1; world := w' |}
  | Panics => ending r = Crashed /\ wgDone r = 0%nat
  end.
Proof.
  intros Hq. cbv zeta. revert w. induction Hq as [|req queued Hreq _ IH]; intros w.
  - reflexivity.
  - cbn [app chatRoutine handleAll].
    destruct (authorID req) as [|a id] eqn:Ha; [congruence|]. cbn [is_empty].
    destruct (handlePrompt req w) as [w'|]; cbn [bind]; [apply IH | auto].
Qed.

Lemma imageRoutine_drains (handleImage : intReq -> W -> outcome W)
    (queued : list intReq) (w : W) :
  Forall (fun req => int req <> None) queued ->
  let r := imageRoutine handleImage (queued ++ [zeroIntReq]) w in
  match handleAll handleImage queued w with
  | Returns w' =>
      r = {| ending := Exited; undelivered := []; wgDone := 1; world := w' |}
  | Panics => ending r = Crashed /\ wgDone r = 0%nat
  end.
Proof.
  intros Hq. cbv zeta. revert w. induction Hq as [|req queued Hreq _ IH]; intros w.
  - reflexivity.
  - cbn [app imageRoutine handleAll].
    destruct (int req) as [i|] eqn:Ha; [|congruence].
    destruct (handleImage req w) as [w'|]; cbn [bind]; [apply IH | auto].
Qed.

(** X11.  At shutdown the routines finish what is queued.  When no queued
    request is itself a zero request, each routine runs its handler on
    every request that [Close] found in its queue, in order, then takes the
    zero request, calls [d.wg.Done()] and returns, with nothing left in the
    channel; unless a handler panics, which stops the routine before
    [d.wg.Done()].  So the two calls for which [d.wg.Wait()] waits are made
    exactly when the handlers return on all that is queued. *)
Theorem close_drains_queues (handlePrompt : msgReq -> W -> outcome W)
    (handleImage : intReq -> W -> outcome W) (d : discordBot) (w1 w2 : W) :
  Forall (fun req => authorID req <> []) (buffer (chat d)) ->
  Forall (fun req => int req <> None) (buffer (image d)) ->
  let rc := chatRoutine handlePrompt (fst (closeFeeds d)) w1 in
  let ri := imageRoutine handleImage (snd (closeFeeds d)) w2 in
  (forall w1', handleAll handlePrompt (buffer (chat d)) w1 = Returns w1' ->
     rc = {| ending := Exited; undelivered := []; wgDone := 1; world := w1' |}) /\
  (forall w2', handleAll handleImage (buffer (image d)) w2 = Returns w2' ->
     ri = {| ending := Exited; undelivered := []; wgDone := 1; world := w2' |}) /\
  (handleAll handlePrompt (buffer (chat d)) w1 = Panics ->
     ending rc = Crashed /\ wgDone rc = 0%nat) /\
  (handleAll handleImage (buffer (image d)) w2 = Panics ->
     ending ri = Crashed /\ wgDone ri = 0%nat) /\
  ((wgDone rc + wgDone ri = 2)%nat <->
   exists w1' w2',
     handleAll handlePrompt (buffer (chat d)) w1 = Returns w1' /\
     handleAll handleImage (buffer (image d)) w2 = Returns w2').
Proof.
  intros Hc Hm. cbv zeta. unfold closeFeeds. cbn [fst snd].
  pose proof (chatRoutine_drains handlePrompt (buffer (chat d)) w1 Hc) as H1.
  pose proof (imageRoutine_drains handleImage (buffer (image d)) w2 Hm) as H2.
  cbv zeta in H1, H2.
  destruct (handleAll handlePrompt (buffer (chat d)) w1) as [w1'|];
    destruct (handleAll handleImage (buffer (image d)) w2) as [w2'|].
  - rewrite H1, H2. cbn [wgDone]. repeat split; try discriminate.
    + now intros ? [= <-].
    + now intros ? [= <-].
    + intros _. now exists w1', w2'.
  - destruct H2 as [E2 G2]. rewrite H1, G2. cbn [wgDone].
    repeat split; try discriminate; try assumption.
    + now intros ? [= <-].
    + intros (? & ? & _ & ?). discriminate.
  - destruct H1 as [E1 G1]. rewrite H2, G1. cbn [wgDone].
    repeat split; try discriminate; try assumption.
    + now intros ? [= <-].
    + intros (? & ? & ? & _). discriminate.
  - destruct H1 as [E1 G1], H2 as [E2 G2]. rewrite G1, G2.
    repeat split; try discriminate; try assumption.
    intros (? & ? & ? & _). discriminate.
Qed.

End LoadFacts.

Lemma burst_is_cut_at_capacity_witness :
  reachable newDiscordBot /\
  buffer (chat (fst (admitAll newDiscordBot (repeat someMsgReq 7)))) = repeat someMsgReq 5 /\
  snd (admitAll newDiscordBot (repeat someMsgReq 7))
  = [overloadReply someMsgReq; overloadReply someMsgReq].
Proof.
  split; [apply ReachNew|].
  destruct (burst_is_cut_at_capacity newDiscordBot (repeat someMsgReq 7) ReachNew)
    as (Hb & Hs & _ & _).
  split; [exact Hb | exact Hs].
Defined.

Lemma close_drains_queues_witness :
  Forall (fun req => authorID req <> []) (buffer (chat (flood 2 newDiscordBot))) /\
  handleAll logRequest (buffer (chat (flood 2 newDiscordBot))) []
  = Returns [someMsgReq; someMsgReq] /\
  chatRoutine logRequest (fst (closeFeeds (flood 2 newDiscordBot))) []
  = {| ending := Exited; undelivered := []; wgDone := 1;
       world := [someMsgReq; someMsgReq] |}.
Proof.
  assert (Hc : Forall (fun req => authorID req <> []) (buffer (chat (flood 2 newDiscordBot))))
    by (repeat constructor; discriminate).
  assert (Hm : Forall (fun req => int req <> None) (buffer (image (flood 2 newDiscordBot))))
    by constructor.
  assert (Ha : handleAll logRequest (buffer (chat (flood 2 newDiscordBot))) []
               = Returns [someMsgReq; someMsgReq]) by reflexivity.
  split; [exact Hc|]. split; [exact Ha|].
  exact (proj1 (close_drains_queues logRequest (fun _ w0 => Returns w0)
                  (flood 2 newDiscordBot) [] [] Hc Hm) _ Ha).
Defined.

(** ** [handleImage]: the order of its stages and its answer *)

Section PipelineFacts.

Context {Img : Type}.
Variable deps : imageDeps Img.

Lemma llmCalls_ranks (req : intReq) :
  map stageRank (llmCalls req) =
    (if enhances req then [0%nat] else []) ++ (if makesLabels req then [1%nat] else []).
Proof.
  unfold llmCalls. rewrite map_app.
  destruct (enhances req); destruct (makesLabels req); reflexivity.
Qed.

Lemma llmCalls_no_edit (req : intReq) : existsb isDeliver (llmCalls req) = false.
Proof.
  unfold llmCalls. destruct (enhances req); destruct (makesLabels req); reflexivity.
Qed.

(** X12.  The stages that [handleImage] enters come in the order of the
    pipeline, each at most once: the enhancement of the prompt, the labels,
    the generation of the image, the overlay of the labels, the encoding,
    the edit of the response.  In particular it edits the response at most
    once, and does nothing after it. *)
Theorem handleImage_in_order (req : intReq) :
  StronglySorted lt (map stageRank (fst (handleImage deps req))).
Proof.
  destruct (handleImage_cases deps req)
    as [[Hu Hl]|[(prompt & Hl & Ho & Hg)|(prompt & gen & Hs)]].
  - rewrite (handleImage_nil_llm deps req Hu Hl). cbn [fst]. unfold llmCalls.
    destruct (enhances req); destruct (makesLabels req); cbn; repeat constructor.
  - rewrite (handleImage_nil_ig deps req prompt Hl Ho Hg). cbn [fst].
    rewrite map_app, llmCalls_ranks.
    destruct (enhances req); destruct (makesLabels req); cbn; repeat constructor.
  - rewrite (handleImage_closed deps req prompt gen Hs). cbn [fst].
    rewrite map_app, llmCalls_ranks.
    destruct (enhances req); destruct (makesLabels req); destruct (labelsOnly req);
      try (destruct (gen _ _) as [img|err]);
      try (destruct (is_empty (labelsUsed prompt req)));
      try (destruct (pngEncode deps _));
      cbn; repeat constructor.
Qed.

(** [handleImage] when it panics: it has not edited the response. *)
Lemma handleImage_nil (req : intReq) :
  enhances req || makesLabels req = true /\ d_l deps = None \/
  labelsOnly req = false /\ d_ig deps = None ->
  snd (handleImage deps req) = Panics /\
  existsb isDeliver (fst (handleImage deps req)) = false.
Proof.
  assert (H1 : enhances req || makesLabels req = true -> d_l deps = None ->
               snd (handleImage deps req) = Panics /\
               existsb isDeliver (fst (handleImage deps req)) = false).
  { intros Hu Hl. rewrite (handleImage_nil_llm deps req Hu Hl). cbn [fst snd].
    split; [reflexivity|]. unfold llmCalls.
    destruct (enhances req); destruct (makesLabels req); reflexivity. }
  assert (H2 : forall prompt,
               (enhances req || makesLabels req = true -> d_l deps = Some prompt) ->
               labelsOnly req = false -> d_ig deps = None ->
               snd (handleImage deps req) = Panics /\
               existsb isDeliver (fst (handleImage deps req)) = false).
  { intros prompt Hl Ho Hg. rewrite (handleImage_nil_ig deps req prompt Hl Ho Hg).
    cbn [fst snd]. split; [reflexivity|].
    rewrite existsb_app, llmCalls_no_edit. reflexivity. }
  intros [[Hu Hl]|[Ho Hg]]; [now apply H1|].
  destruct (d_l deps) as [prompt|] eqn:Hl.
  - apply (H2 prompt); auto.
  - destruct (enhances req || makesLabels req) eqn:Hu.
    + now apply H1.
    + apply (H2 (fun _ => inl [])); auto. discriminate.
Qed.

(** X13.  [handleImage] edits the response of the request at most once, and
    does nothing after that.  It ends with no edit of the response, and so
    leaves the user without an answer, in two cases only: a collaborator
    that the command needs is nil, the LLM for the commands that ask it or
    the image generator for every command but [meme_labels_auto], and
    [handleImage] panics; or the PNG encoder fails, and [handleImage]
    returns. *)
Theorem handleImage_answers_once (req : intReq) :
  (enhances req || makesLabels req = true /\ d_l deps = None \/
   labelsOnly req = false /\ d_ig deps = None ->
   snd (handleImage deps req) = Panics /\
   existsb isDeliver (fst (handleImage deps req)) = false) /\
  (forall prompt gen,
     serves deps req prompt gen ->
     snd (handleImage deps req) = Returns tt /\
     (existsb isDeliver (fst (handleImage deps req)) = false <->
      labelsOnly req = false /\
      exists img err,
        gen (promptUsed prompt req) 1 = inl img /\
        pngEncode deps (drawn deps (labelsUsed prompt req) img) = inr err)) /\
  (existsb isDeliver (fst (handleImage deps req)) = true ->
   snd (handleImage deps req) = Returns tt /\
   exists before status file,
     fst (handleImage deps req) =
       before ++ [Deliver (InteractionResponseEdit (int req) status file)] /\
     existsb isDeliver before = false).
Proof.
  assert (Hcomp : forall labels,
            existsb isDeliver (if is_empty labels then [] else [Composite labels]) = false)
    by (intros labels; destruct (is_empty labels); reflexivity).
  split; [apply handleImage_nil|]. split.
  - intros prompt gen Hs. rewrite (handleImage_closed deps req prompt gen Hs).
    cbn [fst snd]. split; [reflexivity|].
    rewrite existsb_app, llmCalls_no_edit. cbn [orb].
    destruct (labelsOnly req).
    + cbn. split; [discriminate | intros [H _]; discriminate].
    + cbn [existsb isDeliver orb].
      destruct (gen _ _) as [img|err].
      * rewrite existsb_app, Hcomp. cbn [existsb isDeliver orb].
        destruct (pngEncode deps _) as [w|e] eqn:He.
        -- cbn. split; [discriminate|].
           intros (_ & i & x & [= <-] & Hx). rewrite He in Hx. discriminate.
        -- cbn. split; [|reflexivity]. intros _. split; [reflexivity|]. now exists img, e.
      * cbn. split; [discriminate | intros (_ & i & x & Hi & _); discriminate].
  - destruct (handleImage_cases deps req)
      as [[Hu Hl]|[(prompt & Hl & Ho & Hg)|(prompt & gen & Hs)]].
    + destruct (handleImage_nil req) as [_ Hn]; [left; auto|]. rewrite Hn. discriminate.
    + destruct (handleImage_nil req) as [_ Hn]; [right; auto|]. rewrite Hn. discriminate.
    + rewrite (handleImage_closed deps req prompt gen Hs). cbn [fst snd].
      intros Hd. split; [reflexivity|]. revert Hd.
      destruct (labelsOnly req).
      * intros _. eexists. eexists. eexists. split; [reflexivity|].
        apply llmCalls_no_edit.
      * destruct (gen _ _) as [img|err].
        -- destruct (pngEncode deps _) as [w|e].
           ++ intros _.
              exists (llmCalls req ++ Generate (promptUsed prompt req) 1 ::
                      (if is_empty (labelsUsed prompt req) then []
                       else [Composite (labelsUsed prompt req)]) ++ [Encode]).
              eexists. eexists. split.
              ** rewrite <- !app_assoc. cbn [app]. rewrite <- !app_assoc. reflexivity.
              ** rewrite existsb_app, llmCalls_no_edit. cbn [existsb isDeliver orb].
                 rewrite existsb_app, Hcomp. reflexivity.
           ++ rewrite existsb_app, llmCalls_no_edit. cbn [existsb isDeliver orb].
              rewrite existsb_app, Hcomp. cbn. discriminate.
        -- intros _. exists (llmCalls req ++ [Generate (promptUsed prompt req) 1]).
           eexists. eexists. split.
           ++ rewrite <- app_assoc. reflexivity.
           ++ rewrite existsb_app, llmCalls_no_edit. reflexivity.
Qed.

End PipelineFacts.

Lemma handleImage_answers_once_witness :
  (labelsOnly imageManualReq = false /\ d_ig noGenerator = None) /\
  snd (handleImage noGenerator imageManualReq) = Panics /\
  existsb isDeliver (fst (handleImage noGenerator imageManualReq)) = false.
Proof.
  assert (H : labelsOnly imageManualReq = false /\ d_ig noGenerator = None)
    by (split; reflexivity).
  split; [exact H|].
  exact (proj1 (handleImage_answers_once noGenerator imageManualReq) (or_intror H)).
Defined.

(** ** [drawMemeOnImage] *)

Section MemeFacts.

Import strings.

Lemma Split_loop_nonempty (k : nat) (s sep : bytes) : Split_loop k s sep <> [].
Proof.
  destruct k; cbn [Split_loop]; [discriminate|].
  cbv zeta. destruct (Index s sep <? 0); discriminate.
Qed.

(** X14.  [drawMemeOnImage] never indexes [lines] out of range.  It draws
    the first five pieces of the text between commas, or all of them when
    there are fewer, from top to bottom: the first at the top of the image
    and, when there are two or more, the last at the bottom.  A sixth piece
    and the following ones are not drawn. *)
Theorem drawMemeOnImage_draws (meme : bytes) :
  exists draws,
    Meme.drawMemeOnImage meme = Returns draws /\
    map snd draws = firstn 5 (Split meme (str ",")) /\
    StronglySorted Z.lt (map fst draws) /\
    hd_error (map fst draws) = Some 0 /\
    ((2 <= List.length draws)%nat -> last (map fst draws) 0 = 100).
Proof.
  unfold Meme.drawMemeOnImage. cbv zeta.
  pose proof (Split_loop_nonempty (S (List.length meme)) meme (str ",")) as Hne.
  fold (Split meme (str ",")) in Hne.
  destruct (Split meme (str ",")) as [|l0 [|l1 [|l2 [|l3 [|l4 rest]]]]]; [congruence| | | | |];
    cbn [List.length Meme.line nth_error bind]; eexists;
    (split; [reflexivity|]); cbn [map fst snd firstn hd_error last List.length];
    (split; [reflexivity|]); (split; [repeat constructor|]);
    (split; [reflexivity|]); intros H; try reflexivity; lia.
Qed.

End MemeFacts.

Example drawMemeOnImage_six_pieces :
  Meme.drawMemeOnImage (str "a,b,c,d,e,f") =
    Returns [(0, str "a"); (20, str "b"); (50, str "c"); (80, str "d"); (100, str "e")].
Proof. vm_compute. reflexivity. Qed.

(** ** The handlers of the events *)

Section HandlerFacts.

Lemma eqb_bytes_eq (a b : bytes) : eqb_bytes a b = true <-> a = b.
Proof.
  revert b. induction a as [|x a IH]; intros [|y b]; cbn; try (split; [discriminate|congruence]);
    [tauto|].
  rewrite andb_true_iff, Ascii.eqb_eq, IH. split; [intros [-> ->]; reflexivity|].
  intros H. injection H as -> ->. auto.
Qed.

Lemma eqb_bytes_refl (a : bytes) : eqb_bytes a a = true.
Proof. now apply eqb_bytes_eq. Qed.

(** X15.  [onMessageCreate] queues a request only for a message that is not
    the bot's own, that is direct or names the bot, and when the LLM is
    there; the request then carries the author, the channel, the guild and
    the id of that message, and it is the only change to the queues.  A
    message of the bot itself, or one of a guild that does not name it,
    causes no call to Discord at all. *)
Theorem onMessageCreate_filters (TrimSpace : bytes -> bytes) (llm : bool) (botid : bytes)
    (d : discordBot) (m : Handlers.MessageCreate) :
  let r := Handlers.onMessageCreate TrimSpace llm botid d m in
  (fst r <> d ->
     Handlers.Author_ID m <> botid /\
     (Handlers.m_GuildID m = [] \/
      strings.Contains (Handlers.m_Content m) (Handlers.mention botid) = true) /\
     llm = true /\
     image (fst r) = image d /\
     exists text,
       buffer (chat (fst r)) =
         buffer (chat d) ++
         [{| msg := text; authorID := Handlers.Author_ID m;
             channelID := Handlers.m_ChannelID m; guildID := Handlers.m_GuildID m;
             replyToID := Handlers.m_ID m |}]) /\
  (Handlers.Author_ID m = botid \/
   (Handlers.m_GuildID m <> [] /\
    strings.Contains (Handlers.m_Content m) (Handlers.mention botid) = false) ->
   r = (d, [])).
Proof.
  cbv zeta. unfold Handlers.onMessageCreate.
  destruct (eqb_bytes (Handlers.Author_ID m) botid) eqn:Ha.
  { split; [cbn; congruence | reflexivity]. }
  assert (Hne : Handlers.Author_ID m <> botid).
  { intros E. apply eqb_bytes_eq in E. congruence. }
  destruct (Handlers.m_GuildID m) as [|g gs] eqn:Hg; cbn [is_empty negb andb].
  - split; [|intros [E|[E _]]; congruence].
    destruct llm; cbn [negb]; [|cbn; congruence].
    unfold onMessageCreate, trySend.
    destruct (List.length (buffer (chat d)) <? capacity (chat d))%nat; cbn; [|congruence].
    intros _. repeat split; auto. eexists. reflexivity.
  - destruct (strings.Contains (Handlers.m_Content m) (Handlers.mention botid)) eqn:Hc;
      cbn [negb].
    + split; [|intros [E|[_ E]]; congruence].
      destruct llm; cbn [negb]; [|cbn; congruence].
      unfold onMessageCreate, trySend.
      destruct (List.length (buffer (chat d)) <? capacity (chat d))%nat; cbn; [|congruence].
      intros _. repeat split; auto. eexists. reflexivity.
    + split; [cbn; congruence | reflexivity].
Qed.

(** X16.  The commands that [onReady] registers are the ones that
    [onInteractionCreate] handles, unless the id of the bot contains
    "(dev)": the names are then registered with the suffix "_dev", and none
    of them reaches a handler. *)
Theorem registered_commands_are_handled (botid : bytes) :
  (strings.Contains botid (str "(dev)") = false ->
   Forall (fun name => Handlers.onInteractionCreate name <> Handlers.Unexpected)
     (Handlers.registeredNames botid)) /\
  (strings.Contains botid (str "(dev)") = true ->
   Forall (fun name => Handlers.onInteractionCreate name = Handlers.Unexpected)
     (Handlers.registeredNames botid)).
Proof.
  unfold Handlers.registeredNames. split; intros ->.
  - repeat constructor; vm_compute; discriminate.
  - repeat constructor; vm_compute; reflexivity.
Qed.

(** The five names that [onInteractionCreate] hands to [onImage]. *)
Lemma onImage_names (name : bytes) :
  Handlers.onInteractionCreate name = Handlers.OnImage ->
  name = str "meme_auto" \/ name = str "meme_manual" \/ name = str "meme_labels_auto"
  \/ name = str "image_auto" \/ name = str "image_manual".
Proof.
  unfold Handlers.onInteractionCreate.
  destruct (eqb_bytes name (str "forget")); [discriminate|].
  destruct (eqb_bytes name (str "list_models")); [discriminate|].
  destruct (eqb_bytes name (str "meme_auto")) eqn:H1; [apply eqb_bytes_eq in H1; auto|].
  destruct (eqb_bytes name (str "meme_manual")) eqn:H2; [apply eqb_bytes_eq in H2; auto|].
  destruct (eqb_bytes name (str "meme_labels_auto")) eqn:H3; [apply eqb_bytes_eq in H3; auto|].
  destruct (eqb_bytes name (str "image_auto")) eqn:H4; [apply eqb_bytes_eq in H4; auto 6|].
  destruct (eqb_bytes name (str "image_manual")) eqn:H5; [apply eqb_bytes_eq in H5; auto 6|].
  discriminate.
Qed.

(** X17.  When the image generator is not there ([d.ig] is nil), [onImage]
    refuses [image_auto] and [meme_auto] with a message and queues nothing.
    It admits the three other commands as usual: [meme_labels_auto], for
    which [handleImage] never calls the image generator, but also
    [image_manual] and [meme_manual], for which [handleImage] does call
    it. *)
Theorem onImage_without_generator (d : discordBot) (name : bytes)
    (opts : Handlers.imageOptions) (interaction : option bytes) :
  Handlers.onInteractionCreate name = Handlers.OnImage ->
  let req := {| description := Handlers.Description opts;
                imagePrompt := Handlers.ImagePrompt opts;
                labelsContent := Handlers.LabelsContent opts;
                cmdName := name; int := interaction |} in
  let r := Handlers.onImage false d name (inl opts) interaction in
  (name = str "image_auto" \/ name = str "meme_auto" ->
     r = (d, [InteractionRespond interaction Handlers.imageDisabled])) /\
  (name = str "meme_labels_auto" ->
     r = onImage d req /\
     forall (Img : Type) (deps : imageDeps Img) p seed,
       ~ In (Generate p seed) (fst (handleImage deps req))) /\
  (name = str "image_manual" \/ name = str "meme_manual" ->
     r = onImage d req /\
     forall (Img : Type) (deps : imageDeps Img),
       In (Generate (Handlers.ImagePrompt opts) 1) (fst (handleImage deps req))).
Proof.
  intros Hn. cbv zeta. unfold Handlers.onImage. cbn [negb andb].
  set (req := {| description := Handlers.Description opts;
                 imagePrompt := Handlers.ImagePrompt opts;
                 labelsContent := Handlers.LabelsContent opts;
                 cmdName := name; int := interaction |}).
  split; [|split].
  - intros [->| ->]; reflexivity.
  - intros ->. split; [reflexivity|]. intros Img deps p seed.
    assert (He : enhances req = false) by reflexivity.
    assert (Hm : makesLabels req = true) by reflexivity.
    assert (Ho : labelsOnly req = true) by reflexivity.
    destruct (handleImage_cases deps req)
      as [[Hu Hl]|[(prompt & Hl & Ho' & Hg)|(prompt & gen & Hs)]].
    + rewrite (handleImage_nil_llm deps req Hu Hl). unfold llmCalls. rewrite He, Hm.
      cbn. intros [H|[]]. discriminate.
    + congruence.
    + rewrite (handleImage_closed deps req prompt gen Hs). unfold llmCalls.
      rewrite He, Hm, Ho. cbn. intros [H|[H|[]]]; discriminate.
  - intros Hm. split; [destruct Hm as [->| ->]; reflexivity|]. intros Img deps.
    assert (He : enhances req = false) by (destruct Hm as [->| ->]; reflexivity).
    assert (Hl : makesLabels req = false) by (destruct Hm as [->| ->]; reflexivity).
    assert (Ho : labelsOnly req = false) by (destruct Hm as [->| ->]; reflexivity).
    assert (Hp : forall prompt, promptUsed prompt req = Handlers.ImagePrompt opts)
      by (intros prompt; unfold promptUsed; now rewrite He).
    destruct (handleImage_cases deps req)
      as [[Hu _]|[(prompt & Hd & _ & Hg)|(prompt & gen & Hs)]].
    + rewrite He, Hl in Hu. discriminate.
    + rewrite (handleImage_nil_ig deps req prompt Hd Ho Hg), Hp. cbn [fst].
      apply in_or_app. right. now left.
    + rewrite (handleImage_closed deps req prompt gen Hs), Ho, Hp. cbn [fst].
      apply in_or_app. right. now left.
Qed.

End HandlerFacts.

Lemma onImage_without_generator_witness :
  Handlers.onInteractionCreate (str "image_manual") = Handlers.OnImage /\
  fst (Handlers.onImage false newDiscordBot (str "image_manual") (inl someImageOptions)
         (Some (str "i2")))
  = fst (onImage newDiscordBot imageManualReq) /\
  In (Generate (str "a cat") 1) (fst (handleImage noGenerator imageManualReq)).
Proof.
  assert (Hn : Handlers.onInteractionCreate (str "image_manual") = Handlers.OnImage)
    by reflexivity.
  destruct (onImage_without_generator newDiscordBot (str "image_manual") someImageOptions
              (Some (str "i2")) Hn) as (_ & _ & Hm).
  destruct (Hm (or_introl eq_refl)) as [Hr Hg].
  split; [exact Hn|]. split; [now rewrite Hr | apply (Hg unit noGenerator)].
Defined.

Lemma onMessageCreate_filters_witness :
  fst (Handlers.onMessageCreate (fun s => s) true (str "99") newDiscordBot mentionInGuild)
  <> newDiscordBot /\
  exists text,
    buffer (chat (fst (Handlers.onMessageCreate (fun s => s) true (str "99")
                         newDiscordBot mentionInGuild)))
    = buffer (chat newDiscordBot) ++
      [{| msg := text; authorID := str "42"; channelID := str "7";
          guildID := str "g1"; replyToID := str "1001" |}].
Proof.
  assert (H : fst (Handlers.onMessageCreate (fun s => s) true (str "99")
                     newDiscordBot mentionInGuild) <> newDiscordBot)
    by (vm_compute; discriminate).
  split; [exact H|].
  exact (proj2 (proj2 (proj2 (proj2
           (proj1 (onMessageCreate_filters (fun s => s) true (str "99")
                     newDiscordBot mentionInGuild) H))))).
Defined.

Lemma registered_commands_are_handled_witness :
  strings.Contains (str "1234 (dev)") (str "(dev)") = true /\
  Forall (fun name => Handlers.onInteractionCreate name = Handlers.Unexpected)
    (Handlers.registeredNames (str "1234 (dev)")).
Proof.
  split; [reflexivity|].
  apply (proj2 (registered_commands_are_handled (str "1234 (dev)"))). reflexivity.
Defined.

Section ForgetFacts.

Variable MatchString : bytes -> bytes -> option bool.
Variable escapeMarkdown : bytes -> bytes.

(** X18.  After [onForget] the conversation is the system prompt that the
    command decoded, alone; the next answer of [handlePrompt] runs under that
    prompt and not under the one of the bot, and leaves the conversation
    with three messages.  The reply says that the memory was zapped exactly
    when more than one message was stored.  When the options do not decode,
    nothing is forgotten and nothing is replied. *)
Theorem forget_then_prompt (decoded : bytes + errval) (interaction : option bytes)
    (stored : list Message) :
  match decoded with
  | inl prompt =>
      fst (Handlers.onForget escapeMarkdown decoded interaction stored)
      = [{| role := System; Content := prompt |}] /\
      (exists reply,
         snd (Handlers.onForget escapeMarkdown decoded interaction stored)
         = [InteractionRespond interaction reply] /\
         (strings.HasPrefix reply (str "The memory of our past conversations just got zapped.")
          = true <-> (1 < List.length stored)%nat)) /\
      forall botPrompt req events failure messages calls,
        handlePrompt MatchString botPrompt
          (fst (Handlers.onForget escapeMarkdown decoded interaction stored))
          req events failure = Returns (messages, calls) ->
        messages = [{| role := System; Content := prompt |};
                    {| role := User; Content := msg req |};
                    {| role := Assistant; Content := tokens events |}]
  | inr _ =>
      Handlers.onForget escapeMarkdown decoded interaction stored = (stored, [])
  end.
Proof.
  destruct decoded as [prompt|err]; [|reflexivity].
  cbn [Handlers.onForget fst snd]. split; [reflexivity|]. split.
  - eexists. split; [reflexivity|].
    destruct (1 <? List.length stored)%nat eqn:Hl.
    + apply Nat.ltb_lt in Hl. split; [intros _; exact Hl | intros _].
      apply HasPrefix_app. eexists. reflexivity.
    + apply Nat.ltb_ge in Hl. split; [|lia]. intros H. exfalso.
      apply HasPrefix_app in H as [r Hr]. cbn in Hr. discriminate.
  - intros botPrompt req events failure messages calls. unfold handlePrompt.
    destruct (streamLoop MatchString req events (streamStart req)) as [st|] eqn:Hs;
      [|discriminate].
    apply streamLoop_conserves in Hs as [Ht _]. cbn in Ht. cbn [bind List.length Nat.eqb].
    rewrite Ht. destruct failure; intros H%Returns_inj; injection H as <- _; reflexivity.
Qed.

End ForgetFacts.

Section WelcomeFacts.

Variable botid : bytes.

Lemma welcomeChannels_sends (channels : list Handlers.guildChannel) (call : DiscordCall) :
  In call (Handlers.welcomeChannels botid channels) ->
  exists c,
    In c channels /\
    call = ChannelMessageSend (Handlers.c_ID c) Handlers.welcome /\
    Handlers.c_voiceOrCategory c = false /\
    Handlers.welcomed botid (Handlers.c_recent c) = false.
Proof.
  induction channels as [|c channels IH]; cbn [Handlers.welcomeChannels]; [intros []|].
  destruct (Handlers.c_voiceOrCategory c) eqn:Hv.
  - intros H. destruct (IH H) as (c' & Hin & E). exists c'. split; [now right | exact E].
  - destruct (Handlers.welcomed botid (Handlers.c_recent c)) eqn:Hw; cbn [negb].
    + intros H. destruct (IH H) as (c' & Hin & E). exists c'. split; [now right | exact E].
    + intros [<-|H].
      * exists c. repeat split; auto. now left.
      * destruct (IH H) as (c' & Hin & E). exists c'. split; [now right | exact E].
Qed.

(** X19.  [onGuildCreate] sends nothing but its welcome, and only to a
    channel that is neither a voice channel nor a category and whose last
    messages do not hold that welcome from the bot.  Each channel gets as
    many welcomes as the guild lists it unwelcomed: one for a channel
    listed once, and never more than the times it is listed.  Nothing is
    sent for a guild that is unavailable, and nothing when every channel
    has been welcomed. *)
Theorem onGuildCreate_welcomes_once (unavailable : bool)
    (channels : list Handlers.guildChannel) :
  (forall call, In call (Handlers.onGuildCreate botid unavailable channels) ->
     unavailable = false /\
     exists c,
       In c channels /\
       call = ChannelMessageSend (Handlers.c_ID c) Handlers.welcome /\
       Handlers.c_voiceOrCategory c = false /\
       Handlers.welcomed botid (Handlers.c_recent c) = false) /\
  (forall channel,
     sentTo channel (Handlers.onGuildCreate botid unavailable channels) =
       if unavailable then 0%nat
       else listed channel (filter (unwelcomed botid) channels)) /\
  (forall channel,
     (sentTo channel (Handlers.onGuildCreate botid unavailable channels)
      <= listed channel channels)%nat) /\
  (List.length (Handlers.onGuildCreate botid unavailable channels)
   <= List.length channels)%nat /\
  (Forall (fun c => Handlers.c_voiceOrCategory c = true
                    \/ In (botid, Handlers.welcome) (Handlers.c_recent c)) channels ->
   Handlers.onGuildCreate botid unavailable channels = []).
Proof.
  assert (Hexact : forall channel,
            sentTo channel (Handlers.welcomeChannels botid channels)
            = listed channel (filter (unwelcomed botid) channels)).
  { intros channel. unfold sentTo, listed.
    induction channels as [|c cs IH]; [reflexivity|].
    cbn [Handlers.welcomeChannels filter]. unfold unwelcomed at 1.
    fold (Handlers.welcomed botid (Handlers.c_recent c)).
    destruct (Handlers.c_voiceOrCategory c); cbn [negb andb]; [exact IH|].
    destruct (Handlers.welcomed botid (Handlers.c_recent c)); cbn [negb]; [exact IH|].
    cbn [filter]. destruct (eqb_bytes (Handlers.c_ID c) channel); cbn [List.length];
      now rewrite IH. }
  assert (Hle : forall channel,
            (listed channel (filter (unwelcomed botid) channels)
             <= listed channel channels)%nat).
  { clear Hexact. intros channel. unfold listed.
    induction channels as [|c cs IH]; [reflexivity|].
    cbn [filter]. destruct (unwelcomed botid c); cbn [filter];
      destruct (eqb_bytes (Handlers.c_ID c) channel); cbn [List.length]; lia. }
  unfold Handlers.onGuildCreate. split; [|split; [|split; [|split]]].
  - intros call. destruct unavailable; [intros []|].
    intros H. split; [reflexivity|]. now apply welcomeChannels_sends.
  - intros channel. destruct unavailable; [reflexivity | apply Hexact].
  - intros channel. destruct unavailable; [cbn; lia|]. rewrite Hexact. apply Hle.
  - clear Hexact Hle. destruct unavailable; [cbn; lia|].
    induction channels as [|c cs IH]; cbn [Handlers.welcomeChannels List.length]; [lia|].
    destruct (Handlers.c_voiceOrCategory c); [lia|].
    destruct (negb (Handlers.welcomed botid (Handlers.c_recent c))); cbn [List.length]; lia.
  - clear Hexact Hle. intros Hall. destruct unavailable; [reflexivity|].
    induction Hall as [|c cs Hc _ IH]; cbn [Handlers.welcomeChannels]; [reflexivity|].
    destruct (Handlers.c_voiceOrCategory c) eqn:Hv; [exact IH|].
    destruct Hc as [Hc|Hc]; [congruence|].
    assert (Hw : Handlers.welcomed botid (Handlers.c_recent c) = true).
    { unfold Handlers.welcomed. apply existsb_exists. exists (botid, Handlers.welcome).
      split; [exact Hc|]. cbn [fst snd]. now rewrite !eqb_bytes_refl. }
    rewrite Hw. exact IH.
Qed.

End WelcomeFacts.

Lemma onGuildCreate_welcomes_once_witness :
  Handlers.onGuildCreate (str "99") false [textChannel; welcomedChannel; voiceChannel]
  = [ChannelMessageSend (str "7") Handlers.welcome] /\
  Forall (fun c => Handlers.c_voiceOrCategory c = true
                   \/ In (str "99", Handlers.welcome) (Handlers.c_recent c))
    [welcomedChannel; voiceChannel] /\
  Handlers.onGuildCreate (str "99") false [welcomedChannel; voiceChannel] = [].
Proof.
  assert (H : Forall (fun c => Handlers.c_voiceOrCategory c = true
                               \/ In (str "99", Handlers.welcome) (Handlers.c_recent c))
                [welcomedChannel; voiceChannel]).
  { constructor; [right; cbn; auto|]. constructor; [left; reflexivity | constructor]. }
  split; [vm_compute; reflexivity|]. split; [exact H|].
  exact (proj2 (proj2 (proj2 (proj2 (onGuildCreate_welcomes_once (str "99") false
                                       [welcomedChannel; voiceChannel])))) H).
Defined.

Lemma forget_then_prompt_witness :
  exists messages calls,
    handlePrompt GoRegexp.MatchString (str "You are a bot.")
      (fst (Handlers.onForget (fun s => s) (inl (str "Be brief.")) None
              [{| role := System; Content := str "You are a bot." |};
               {| role := User; Content := str "hi" |}]))
      someMsgReq twoSentenceStream None = Returns (messages, calls) /\
    messages = [{| role := System; Content := str "Be brief." |};
                {| role := User; Content := str "hi" |};
                {| role := Assistant; Content := str "Hello world. More text to come." |}].
Proof.
  eexists. eexists. split; [vm_compute; reflexivity|].
  refine (eq_trans
            (proj2 (proj2 (forget_then_prompt GoRegexp.MatchString (fun s => s)
                             (inl (str "Be brief.")) None
                             [{| role := System; Content := str "You are a bot." |};
                              {| role := User; Content := str "hi" |}]))
                   (str "You are a bot.") someMsgReq twoSentenceStream None _ _ _) _).
  - vm_compute. reflexivity.
  - vm_compute. reflexivity.
Defined.

(** ** [imagegen.New] and [Close] together *)

Section SessionFacts.

Variable deps : startupDeps.
Variable cache : bytes.

(** X20.  [Close] on a session that [New] returned.  For a remote server
    it returns nil at once and calls nothing.  For a server that [New]
    started, the session holds the cancel function and the done channel of
    that very process, never a nil channel: [Close] calls the cancel
    function once, then waits on the done channel; it returns the value
    that the process delivers there, and does not return as long as
    nothing is delivered. *)
Theorem started_session_closes (opts : Options) (rounds : list pollRound) (ig : Session) :
  fst (New deps cache opts rounds) = Started ig ->
  (Remote opts <> [] /\
   forall delivered, Close ig delivered = (Closed None, [])) \/
  (Remote opts = [] /\
   exists p venv cmd dir log,
     run deps venv cmd = inl p /\
     In (Run venv cmd dir log) (snd (New deps cache opts rounds)) /\
     done ig = Some p /\ cancel ig = Some p /\
     (forall exit, Close ig (Some exit) = (Closed exit, [CallCancel p; ReceiveDone p])) /\
     Close ig None = (NeverReturns, [CallCancel p])).
Proof.
  unfold New. destruct (Remote opts) as [|c r] eqn:Hr; cbn [is_empty].
  - destruct (negb (eqb_bytes (Model opts) (str "python"))); [discriminate|].
    destruct (mkdirAll deps _); [discriminate|].
    destruct (recreate deps _); [discriminate|].
    destruct (run deps _ _) as [p|err] eqn:Hrun; [|discriminate].
    destruct (pollLoop _ _ rounds) as [e calls]. cbn [fst snd].
    intros H. right. split; [reflexivity|]. exists p. eexists. eexists. eexists. eexists.
    split; [exact Hrun|]. split; [apply in_or_app; left; cbn; auto 6|].
    destruct e; cbn in H; try discriminate; injection H as <-; repeat split.
  - destruct (negb (IsHostPort deps (c :: r))); [discriminate|].
    destruct (pollLoop _ _ rounds) as [e calls]. cbn [fst].
    intros H. left. split; [discriminate|].
    destruct e; cbn in H; try discriminate; injection H as <-; reflexivity.
Qed.

(** X21.  [New] sets up before it polls.  It starts a process only for a
    local server of model "python", once the cache directory and the virtual
    environment are there; it sends a health request only once the set-up
    has succeeded, and to the URL of the session; and after a set-up that
    failed it has made no request, whatever the server does. *)
Theorem New_sets_up_first (opts : Options) (rounds : list pollRound) :
  (forall venv cmd dir log,
     In (Run venv cmd dir log) (snd (New deps cache opts rounds)) ->
     Remote opts = [] /\ Model opts = str "python" /\
     mkdirAll deps (Join deps cache (str "py")) = None /\
     recreate deps (Join deps cache (str "py")) = None) /\
  (forall u,
     In (Post u) (snd (New deps cache opts rounds)) ->
     exists ig,
       fst (New deps cache opts []) = StillPolling ig /\
       u = baseURL ig ++ str "/api/health") /\
  (forall err,
     fst (New deps cache opts []) = StartFailed err ->
     New deps cache opts rounds = New deps cache opts []).
Proof.
  assert (Hpost : forall url dn u,
            In (Post u) (snd (pollLoop url dn rounds)) -> u = url).
  { intros url dn u Hin. pose proof (pollLoop_calls url dn rounds) as Hall.
    rewrite Forall_forall in Hall. specialize (Hall _ Hin). congruence. }
  unfold New. destruct (Remote opts) as [|c r] eqn:Hr; cbn [is_empty].
  - destruct (eqb_bytes (Model opts) (str "python")) eqn:Hm; cbn [negb].
    2:{ repeat split; try (intros; reflexivity); cbn; intros; contradiction. }
    apply eqb_bytes_eq in Hm.
    destruct (mkdirAll deps _) eqn:Hd.
    { cbn [snd fst]. split; [|split].
      - intros v cm dr lg [H|[]]. discriminate.
      - intros u [H|[]]. discriminate.
      - reflexivity. }
    destruct (recreate deps _) eqn:Hv.
    { cbn [snd fst]. split; [|split].
      - intros v cm dr lg [H|[H|[]]]; discriminate.
      - intros u [H|[H|[]]]; discriminate.
      - reflexivity. }
    destruct (run deps _ _) as [p|err] eqn:Hrun.
    + cbn [pollLoop fst afterPoll].
      specialize (Hpost (str "http://localhost:" ++ Itoa deps (freePort deps)
                         ++ str "/api/health") (Some p)).
      cbn [baseURL done] in *.
      destruct (pollLoop _ _ rounds) as [e calls] eqn:Hp. cbn [snd fst] in *.
      split; [|split].
      * intros; auto.
      * intros u Hin. eexists. split; [reflexivity|]. cbn [baseURL].
        apply in_app_or in Hin as [Hin|Hin].
        -- destruct Hin as [H|[H|[H|[H|[]]]]]; discriminate.
        -- rewrite <- app_assoc. now apply Hpost.
      * discriminate.
    + cbn [snd fst]. split; [|split].
      * intros; auto.
      * intros u [H|[H|[H|[H|[]]]]]; discriminate.
      * reflexivity.
  - destruct (IsHostPort deps (c :: r)); cbn [negb].
    + cbn [pollLoop fst afterPoll]. cbn [baseURL done].
      match goal with
      | |- context [pollLoop ?u ?dn rounds] =>
          pose proof (pollLoop_calls u dn rounds) as Hall
      end.
      rewrite Forall_forall in Hall.
      destruct (pollLoop _ _ rounds) as [e calls] eqn:Hp. cbn [snd fst] in *.
      split; [|split].
      * intros v cm dr lg Hin. specialize (Hall _ Hin). discriminate.
      * intros u Hin. eexists. split; [reflexivity|]. cbn [baseURL].
        specialize (Hall _ Hin). congruence.
      * discriminate.
    + cbn [snd fst]. split; [|split]; try (intros; reflexivity); intros; contradiction.
Qed.

End SessionFacts.

Lemma started_session_closes_witness :
  fst (New someDeps (str "/cache") localOpts [idleRound; cancelledRound])
    = Started {| baseURL := str "http://localhost:8032"; done := Some 1%nat;
                 cancel := Some 1%nat; steps := 8 |} /\
  Close {| baseURL := str "http://localhost:8032"; done := Some 1%nat;
           cancel := Some 1%nat; steps := 8 |} None
  = (NeverReturns, [CallCancel 1%nat]).
Proof.
  assert (H : fst (New someDeps (str "/cache") localOpts [idleRound; cancelledRound])
              = Started {| baseURL := str "http://localhost:8032"; done := Some 1%nat;
                           cancel := Some 1%nat; steps := 8 |})
    by (vm_compute; reflexivity).
  split; [exact H|].
  destruct (started_session_closes someDeps (str "/cache") localOpts
              [idleRound; cancelledRound] _ H)
    as [[Hr _]|(_ & p & v & c & d & l & _ & _ & _ & _ & _ & Hn)].
  - exfalso. apply Hr. reflexivity.
  - reflexivity.
Defined.

Lemma New_sets_up_first_witness :
  In (Post (str "http://localhost:8032/api/health"))
    (snd (New someDeps (str "/cache") localOpts [idleRound; idleRound])) /\
  exists ig,
    fst (New someDeps (str "/cache") localOpts []) = StillPolling ig /\
    str "http://localhost:8032/api/health" = baseURL ig ++ str "/api/health".
Proof.
  assert (H : In (Post (str "http://localhost:8032/api/health"))
                (snd (New someDeps (str "/cache") localOpts [idleRound; idleRound])))
    by (vm_compute; auto 10).
  split; [exact H|].
  exact (proj1 (proj2 (New_sets_up_first someDeps (str "/cache") localOpts
                         [idleRound; idleRound])) _ H).
Defined.

(** ** [onListModels] *)

Section ModelsFacts.

Variable modelInfo : Models.KnownLLM -> bytes.

Lemma repo_parts (k : Models.KnownLLM) :
  (_ <- Meme.line (strings.SplitN2 (Models.RepoID k) (str "/")) 0 ;;
   _ <- Meme.line (strings.SplitN2 (Models.RepoID k) (str "/")) 1 ;;
   Returns tt) =
  if strings.Contains (Models.RepoID k) (str "/") then Returns tt else Panics.
Proof.
  unfold strings.SplitN2, strings.Contains. cbn [strings.Split_loop]. cbv zeta.
  destruct (strings.Index (Models.RepoID k) (str "/") <? 0) eqn:Hi.
  - apply Z.ltb_lt in Hi. assert (H : (0 <=? strings.Index (Models.RepoID k) (str "/")) = false)
      by (apply Z.leb_gt; lia). now rewrite H.
  - apply Z.ltb_ge in Hi. apply Z.leb_le in Hi. now rewrite Hi.
Qed.

Lemma listLoop_step (k : Models.KnownLLM) (llms : list Models.KnownLLM)
    (reply : bytes) (replies : list bytes) :
  Models.listLoop modelInfo (k :: llms) reply replies =
  if strings.Contains (Models.RepoID k) (str "/") then
    if 1000 <? len (reply ++ Models.modelLine modelInfo k)
    then Models.listLoop modelInfo llms [] (replies ++ [reply ++ Models.modelLine modelInfo k])
    else Models.listLoop modelInfo llms (reply ++ Models.modelLine modelInfo k) replies
  else Panics.
Proof.
  cbn [Models.listLoop]. cbv zeta. pose proof (repo_parts k) as H.
  destruct (Meme.line (strings.SplitN2 (Models.RepoID k) (str "/")) 0) as [a|];
    cbn [bind] in *.
  - destruct (Meme.line (strings.SplitN2 (Models.RepoID k) (str "/")) 1) as [b|];
      cbn [bind] in *;
      destruct (strings.Contains (Models.RepoID k) (str "/")); try discriminate; reflexivity.
  - destruct (strings.Contains (Models.RepoID k) (str "/")); [discriminate | reflexivity].
Qed.

Lemma listLoop_returns (llms : list Models.KnownLLM) (reply : bytes) (replies : list bytes)
    (limit : Z) :
  Forall hasSlash llms ->
  Forall (fun k => len (Models.modelLine modelInfo k) <= limit) llms ->
  len reply <= 1000 ->
  exists reply' new,
    Models.listLoop modelInfo llms reply replies = Returns (reply', replies ++ new) /\
    List.concat new ++ reply' = reply ++ List.concat (map (Models.modelLine modelInfo) llms) /\
    Forall (fun r => 1000 < len r <= 1000 + limit) new /\
    len reply' <= 1000.
Proof.
  intros Hs. revert reply replies. induction Hs as [|k llms Hk _ IH];
    intros reply replies Hl Hr.
  - exists reply, []. cbn. rewrite !app_nil_r. auto.
  - rewrite listLoop_step. unfold hasSlash in Hk. rewrite Hk.
    inversion Hl as [|? ? Hk1 Hl1]; subst.
    destruct (1000 <? len (reply ++ Models.modelLine modelInfo k)) eqn:Hlong.
    + apply Z.ltb_lt in Hlong.
      destruct (IH [] (replies ++ [reply ++ Models.modelLine modelInfo k]) Hl1)
        as (reply' & new & E & Hc & Hn & Hb); [unfold len; cbn; lia|].
      exists reply', ((reply ++ Models.modelLine modelInfo k) :: new).
      split; [rewrite E, <- app_assoc; reflexivity|]. split; [|split].
      * cbn [List.concat map]. rewrite <- !app_assoc. f_equal. f_equal. exact Hc.
      * constructor; [|exact Hn]. rewrite len_app in *. lia.
      * exact Hb.
    + apply Z.ltb_ge in Hlong.
      destruct (IH (reply ++ Models.modelLine modelInfo k) replies Hl1 Hlong)
        as (reply' & new & E & Hc & Hn & Hb).
      exists reply', new. split; [exact E|]. split; [|split]; auto.
      cbn [List.concat map]. rewrite Hc, <- app_assoc. reflexivity.
Qed.

Lemma listLoop_panics (llms : list Models.KnownLLM) (reply : bytes) (replies : list bytes) :
  Exists (fun k => ~ hasSlash k) llms ->
  Models.listLoop modelInfo llms reply replies = Panics.
Proof.
  intros He. revert reply replies. induction He as [k llms Hk|k llms _ IH];
    intros reply replies; rewrite listLoop_step.
  - unfold hasSlash in Hk. destruct (strings.Contains _ _); [congruence | reflexivity].
  - destruct (strings.Contains _ _); [|reflexivity].
    destruct (1000 <? _); apply IH.
Qed.

(** X22.  When the LLM is there and every known model has a repository id
    of the form author/repository, [onListModels] answers: the first reply
    is the response to the interaction and the others are messages in the
    channel; put end to end, the replies are the header and the lines of
    all the models; none is empty, and every one but the last is longer
    than 1000 bytes.  When a repository id has no slash, or when the LLM is
    not there ([d.l] is nil), the function panics, before any reply. *)
Theorem onListModels_replies (llms : list Models.KnownLLM)
    (interaction : option bytes) (channel : bytes) :
  (Forall hasSlash llms ->
   exists first rest,
     Models.onListModels modelInfo (Some llms) interaction channel
     = Returns (InteractionRespond interaction first
                :: map (ChannelMessageSend channel) rest) /\
     List.concat (first :: rest)
     = Models.header ++ List.concat (map (Models.modelLine modelInfo) llms) /\
     Forall (fun r => r <> []) (first :: rest) /\
     Forall (fun r => 1000 < len r) (removelast (first :: rest))) /\
  (Exists (fun k => ~ hasSlash k) llms ->
   Models.onListModels modelInfo (Some llms) interaction channel = Panics) /\
  Models.onListModels modelInfo None interaction channel = Panics.
Proof.
  split.
  - intros Hs.
    assert (Hlim : exists limit,
               Forall (fun k => len (Models.modelLine modelInfo k) <= limit) llms).
    { clear Hs. induction llms as [|k l IH]; [exists 0; constructor|].
      destruct IH as [m Hm]. exists (Z.max m (len (Models.modelLine modelInfo k))).
      constructor; [lia|]. eapply Forall_impl; [|exact Hm]. cbn. lia. }
    destruct Hlim as [limit Hlim].
    destruct (listLoop_returns llms Models.header [] limit Hs Hlim)
      as (reply & new & E & Hc & Hn & _); [vm_compute; discriminate|].
    cbn [app] in E. unfold Models.onListModels, Models.listReplies. rewrite E.
    cbn [bind fst snd].
    assert (Hlong : Forall (fun r => 1000 < len r) new)
      by (eapply Forall_impl; [|exact Hn]; cbn; lia).
    assert (Hne : Forall (fun r : bytes => r <> []) new).
    { eapply Forall_impl; [|exact Hlong]. intros r Hr ->. unfold len in Hr. cbn in Hr. lia. }
    destruct reply as [|c reply]; cbn [is_empty negb].
    + destruct new as [|first rest].
      * cbn in Hc. discriminate.
      * exists first, rest. cbn [Meme.line nth_error bind tl].
        split; [reflexivity|]. split; [now rewrite app_nil_r in Hc|].
        split; [exact Hne|].
        clear - Hlong. revert first Hlong. induction rest as [|b rest IH]; intros a Ha.
        -- constructor.
        -- inversion Ha; subst. cbn [removelast]. constructor; [assumption|].
           now apply IH.
    + destruct new as [|first rest].
      * exists (c :: reply), []. cbn [app Meme.line nth_error bind tl map].
        split; [reflexivity|]. cbn in Hc. split; [cbn; now rewrite app_nil_r|].
        split; [constructor; [discriminate | constructor] | constructor].
      * exists first, (rest ++ [c :: reply]). cbn [app Meme.line nth_error bind tl].
        split; [reflexivity|]. split; [|split].
        -- change (first :: rest ++ [c :: reply]) with ((first :: rest) ++ [c :: reply]).
           rewrite concat_app. cbn [List.concat]. now rewrite app_nil_r.
        -- change (first :: rest ++ [c :: reply]) with ((first :: rest) ++ [c :: reply]).
           apply Forall_app. split; [exact Hne|]. constructor; [discriminate | constructor].
        -- change (first :: rest ++ [c :: reply]) with ((first :: rest) ++ [c :: reply]).
           rewrite removelast_last. exact Hlong.
  - split; [|reflexivity]. intros He. unfold Models.onListModels, Models.listReplies.
    now rewrite listLoop_panics.
Qed.

(** X23.  "Don't hit the 2000 characters limit": when the line of every
    model is at most 1000 bytes long, no reply of [onListModels] is longer
    than 2000 bytes. *)
Theorem onListModels_within_limit (llms : list Models.KnownLLM) (replies : list bytes) :
  Forall (fun k => len (Models.modelLine modelInfo k) <= 1000) llms ->
  Models.listReplies modelInfo llms = Returns replies ->
  Forall (fun r => len r <= 2000) replies.
Proof.
  intros Hlim. unfold Models.listReplies.
  destruct (Models.listLoop modelInfo llms Models.header []) as [[reply done]|] eqn:E;
    [|discriminate].
  cbn [bind fst snd]. intros H%Returns_inj. subst replies.
  assert (Hs : Forall hasSlash llms).
  { apply Forall_forall. intros k Hk. unfold hasSlash.
    destruct (strings.Contains (Models.RepoID k) (str "/")) eqn:Hc; [reflexivity|].
    rewrite listLoop_panics in E; [discriminate|].
    apply Exists_exists. exists k. split; [exact Hk|]. unfold hasSlash. congruence. }
  destruct (listLoop_returns llms Models.header [] 1000 Hs Hlim)
    as (reply' & new & E' & _ & Hn & Hb); [vm_compute; discriminate|].
  rewrite E in E'. apply Returns_inj in E'. injection E' as -> ->. cbn [app].
  assert (Hnew : Forall (fun r => len r <= 2000) new)
    by (eapply Forall_impl; [|exact Hn]; cbn; lia).
  destruct (negb (is_empty reply')); [|exact Hnew].
  apply Forall_app. split; [exact Hnew|]. constructor; [lia | constructor].
Qed.

End ModelsFacts.

Lemma onListModels_replies_witness :
  Forall hasSlash [someLLM] /\
  Exists (fun k => ~ hasSlash k) [someLLM; badLLM] /\
  Models.onListModels (fun _ => str "Quantizations: Q4") (Some [someLLM; badLLM]) None
    (str "7")
  = Panics.
Proof.
  assert (H1 : Forall hasSlash [someLLM]) by (repeat constructor).
  assert (H2 : Exists (fun k => ~ hasSlash k) [someLLM; badLLM]).
  { apply Exists_cons_tl, Exists_cons_hd. unfold hasSlash. vm_compute. discriminate. }
  split; [exact H1|]. split; [exact H2|].
  exact (proj1 (proj2 (onListModels_replies (fun _ => str "Quantizations: Q4")
                         [someLLM; badLLM] None (str "7"))) H2).
Defined.

Lemma onListModels_within_limit_witness :
  exists replies,
    Forall (fun k => len (Models.modelLine (fun _ => str "Quantizations: Q4") k) <= 1000)
      [someLLM; someLLM] /\
    Models.listReplies (fun _ => str "Quantizations: Q4") [someLLM; someLLM] = Returns replies /\
    Forall (fun r => len r <= 2000) replies.
Proof.
  assert (H : Forall (fun k => len (Models.modelLine (fun _ => str "Quantizations: Q4") k)
                               <= 1000) [someLLM; someLLM])
    by (repeat constructor; vm_compute; discriminate).
  eexists. split; [exact H|]. split; [vm_compute; reflexivity|].
  apply (onListModels_within_limit (fun _ => str "Quantizations: Q4") [someLLM; someLLM] _ H).
  vm_compute. reflexivity.
Defined.
